(** * Monte Carlo Tree Search: [mcts_vanilla.py] and [mcts_modified.py]

    A shallow embedding of the two search variants.  Tree nodes are Python
    objects mutated in place and linked both ways (parent pointer, children
    dict), so the tree lives in an arena: a list of node records, a node
    reference being its index.  Python numbers that take part in [sqrt]
    and [log] are real numbers; counters are naturals; the scores of the
    board are integers.  Exceptions are explicit results. *)

From Stdlib Require Import ZArith Reals Lra Lia List.
From stdpp Require Import base decidable option list.

Open Scope R_scope.

(** ** Results of fallible code *)

(** What a call can end in besides a value.  The first five are the Python
    exceptions the code can raise; [BadRef] is a node reference that is
    not in the arena (no Python object reference can dangle); [OutOfFuel]
    is a loop cut by the bound of the model. *)
Inductive error : Type :=
  | ValueError | IndexError | KeyError | TypeError | AttributeError
  | BadRef | OutOfFuel.


Inductive result (A : Type) : Type :=
  | Ok (a : A)
  | Err (e : error).
Arguments Ok {A} a.
Arguments Err {A} e.

#[global] Instance result_ret : MRet result := fun _ a => Ok a.
#[global] Instance result_bind : MBind result := fun _ _ k m =>
  match m with
  | Ok a => k a
  | Err e => Err e
  end.

(** An exception of the program itself, as opposed to an artefact of the
    model. *)
Definition raises {A : Type} (r : result A) : Prop :=
  match r with
  | Ok _ => False
  | Err BadRef | Err OutOfFuel => False
  | Err _ => True
  end.

(** ** Floats with infinities *)

(** [float('inf')], [float('-inf')] and the finite values, the latter as
    exact reals. *)
Inductive float : Type :=
  | NegInf
  | Fin (r : R)
  | PosInf.

#[global] Instance Rlt_decision : RelDecision Rlt := Rlt_dec.

(** Python's [a > b]. *)
Definition float_gt (a b : float) : bool :=
  match a, b with
  | NegInf, _ => false
  | _, PosInf => false
  | Fin x, Fin y => bool_decide (y < x)
  | Fin _, NegInf => true
  | PosInf, _ => true
  end.

(** [math.log] of a counter: a domain error at zero. *)
Definition py_log (n : nat) : result R :=
  match n with
  | O => Err ValueError
  | S _ => Ok (ln (INR n))
  end.

(** [math.sqrt]: a domain error below zero. *)
Definition py_sqrt (x : R) : result R :=
  if bool_decide (x < 0) then Err ValueError else Ok (sqrt x).

(** ** The random source *)

(** The process-wide generator, as the sequence of its future raw draws. *)
Definition rng : Type := nat -> nat.

Definition rng_next (r : rng) : rng := fun n => r (S n).

(** [random.choice]: [IndexError] on an empty sequence. *)
Definition choice {A : Type} (l : list A) (r : rng) : result (A * rng) :=
  match l !! (r O mod length l)%nat with
  | Some x => Ok (x, rng_next r)
  | None => Err IndexError
  end.

(** ** The board collaborator *)

(** The interface the search consumes.  Player identities are the
    integers of the game (1 and 2); the points mapping is a dict from
    identity to integer score, [None] where the game has none.
    [truthy] is Python's truth value of an action and [action_is] is
    Python's [==] between an action and a player identity: the modified
    variant uses both. *)
Record Board (State Action : Type) : Type := {
  is_ended : State -> bool;
  legal_actions : State -> list Action;
  next_state : State -> Action -> State;
  current_player : State -> Z;
  points_values : State -> option (Z -> option Z);
  truthy : Action -> bool;
  action_is : Action -> Z -> bool
}.
Arguments is_ended {State Action} _ _.
Arguments legal_actions {State Action} _ _.
Arguments next_state {State Action} _ _ _.
Arguments current_player {State Action} _ _.
Arguments points_values {State Action} _ _.
Arguments truthy {State Action} _ _.
Arguments action_is {State Action} _ _ _.

(** ** Tree nodes *)

(** Modelled from the spec: the class [MCTSNode] of [mcts_node.py], which
    the two files import; the fields are the ones they read and write.
    [child_nodes] is a dict, kept as an association list in insertion
    order; [untried_actions] is the list the board returned. *)
Record MCTSNode (Action : Type) : Type := {
  parent : option nat;
  parent_action : option Action;
  child_nodes : list (Action * nat);
  untried_actions : list Action;
  wins : R;
  visits : nat
}.
Arguments parent {Action} _.
Arguments parent_action {Action} _.
Arguments child_nodes {Action} _.
Arguments untried_actions {Action} _.
Arguments wins {Action} _.
Arguments visits {Action} _.

(** [MCTSNode(parent, parent_action, action_list)]. *)
Definition new_node {Action : Type} (p : option nat) (a : option Action)
    (action_list : list Action) : MCTSNode Action :=
  {| parent := p; parent_action := a; child_nodes := [];
     untried_actions := action_list; wins := 0; visits := 0 |}.

(** The arena, and a reference followed into it. *)
Abbreviation heap Action := (list (MCTSNode Action)).

Definition deref {Action : Type} (h : heap Action) (i : nat)
    : result (MCTSNode Action) :=
  match h !! i with
  | Some n => Ok n
  | None => Err BadRef
  end.

(** [d[k] = v] on a dict: the value is replaced where the key is, else the
    item is appended. *)
Fixpoint dict_set {K V : Type} `{EqDecision K} (k : K) (v : V)
    (d : list (K * V)) : list (K * V) :=
  match d with
  | [] => [(k, v)]
  | (k', v') :: d' =>
      if decide (k' = k) then (k, v) :: d' else (k', v') :: dict_set k v d'
  end.

(** [l.remove(x)]: the first item equal to [x] goes.  The code removes an
    item it has just drawn from the list, so the [ValueError] of a missing
    item cannot arise. *)
Fixpoint list_remove {A : Type} `{EqDecision A} (x : A) (l : list A) : list A :=
  match l with
  | [] => []
  | y :: l' => if decide (y = x) then l' else y :: list_remove x l'
  end.

(** [node.visits += 1; node.wins += won]. *)
Definition credit {Action : Type} (won : R) (n : MCTSNode Action)
    : MCTSNode Action :=
  {| parent := parent n; parent_action := parent_action n;
     child_nodes := child_nodes n; untried_actions := untried_actions n;
     wins := wins n + won; visits := S (visits n) |}.

(** ** The functions the two files share word for word *)

Section Shared.
Context {State Action : Type} `{EqDecision Action}.
Variable board : Board State Action.

(** [expand_leaf(node, board, state)], with the random source threaded
    through; the new child is allocated at the end of the arena. *)
Definition expand_leaf (h : heap Action) (node : nat) (state : State)
    (r : rng) : result (heap Action * nat * State * rng) :=
  n ← deref h node;
  if is_ended board state || bool_decide (untried_actions n = [])
  then Ok (h, node, state, r)
  else
    '(action, r') ← choice (untried_actions n) r;
    let untried := list_remove action (untried_actions n) in
    let next := next_state board state action in
    let child_node :=
      new_node (Some node) (Some action) (legal_actions board next) in
    let cid := length h in
    let n' :=
      {| parent := parent n; parent_action := parent_action n;
         child_nodes := dict_set action cid (child_nodes n);
         untried_actions := untried;
         wins := wins n; visits := visits n |} in
    Ok (<[node := n']> h ++ [child_node], cid, next, r').

(** [backpropagate(node, won)]: the [while node is not None] loop, one
    unit of fuel a turn. *)
Fixpoint backpropagate (fuel : nat) (h : heap Action) (node : option nat)
    (won : R) : result (heap Action) :=
  match node with
  | None => Ok h
  | Some i =>
      match fuel with
      | O => Err OutOfFuel
      | S fuel' =>
          n ← deref h i;
          backpropagate fuel' (<[i := credit won n]> h) (parent n) won
      end
  end.

(** [max(items, key=lambda x: x[1].visits)[0]]: the first item of the
    largest visit count; [ValueError] on an empty dict. *)
Fixpoint max_visits_loop (h : heap Action) (items : list (Action * nat))
    (best : Action) (best_visits : nat) : result Action :=
  match items with
  | [] => Ok best
  | (a, c) :: rest =>
      cn ← deref h c;
      if bool_decide (best_visits < visits cn)%nat
      then max_visits_loop h rest a (visits cn)
      else max_visits_loop h rest best best_visits
  end.

Definition max_visits (h : heap Action) (items : list (Action * nat))
    : result Action :=
  match items with
  | [] => Err ValueError
  | (a, c) :: rest =>
      cn ← deref h c;
      max_visits_loop h rest a (visits cn)
  end.

(** The steps of [think] up to the rollout, which differ between the
    files only in the functions called. *)
Definition simulate
    (traverse : heap Action -> nat -> State -> Z -> result (nat * State))
    (rollout : State -> rng -> result (State * rng))
    (h : heap Action) (root : nat) (state : State) (identity : Z) (r : rng)
    : result (heap Action * nat * State * rng) :=
  '(node, current_state) ← traverse h root state identity;
  '(h1, node, current_state, r1) ←
    (if negb (is_ended board current_state)
     then expand_leaf h node current_state r
     else Ok (h, node, current_state, r));
  '(final_state, r2) ← rollout current_state r1;
  Ok (h1, node, final_state, r2).
End Shared.

(** ** [mcts_vanilla.py] *)

Module Vanilla.
Section Vanilla.
Context {State Action : Type} `{EqDecision Action}.
Variable board : Board State Action.

Definition explore_faction : R := sqrt 2.

(** [ucb(node, parent, identity)]. *)
Definition ucb (node parent : MCTSNode Action) (identity : Z) : result float :=
  if bool_decide (visits node = O) then Ok PosInf
  else
    let win_rate := wins node / INR (visits node) in
    let win_rate :=
      if bool_decide ((Z.of_nat (visits parent) mod 2)%Z ≠ (identity - 1)%Z)
      then 1 - win_rate else win_rate in
    l ← py_log (visits parent);
    s ← py_sqrt (2 * l / INR (visits node));
    Ok (Fin (win_rate + explore_faction * s)).

(** The [for action, child in node.child_nodes.items()] loop of
    [traverse_nodes]. *)
Fixpoint best_child_loop (h : heap Action) (node : MCTSNode Action)
    (identity : Z) (items : list (Action * nat))
    (best_child : option nat) (best_ucb : float) : result (option nat) :=
  match items with
  | [] => Ok best_child
  | (_, child) :: rest =>
      cn ← deref h child;
      child_ucb ← ucb cn node identity;
      if float_gt child_ucb best_ucb
      then best_child_loop h node identity rest (Some child) child_ucb
      else best_child_loop h node identity rest best_child best_ucb
  end.

(** The child [traverse_nodes] moves to and the action it advances the
    state by: [best_child.parent_action] of [None] is an
    [AttributeError], and an action of [None] is handed to the board,
    which has no successor state for it. *)
Definition select_child (h : heap Action) (n : MCTSNode Action)
    (identity : Z) : result (nat * Action) :=
  best ← best_child_loop h n identity (child_nodes n) None NegInf;
  match best with
  | None => Err AttributeError
  | Some best_child =>
      cn ← deref h best_child;
      match parent_action cn with
      | None => Err TypeError
      | Some a => Ok (best_child, a)
      end
  end.

(** [traverse_nodes(node, board, state, identity)]; one unit of fuel a
    recursive call. *)
Fixpoint traverse_nodes (fuel : nat) (h : heap Action) (node : nat)
    (state : State) (identity : Z) : result (nat * State) :=
  n ← deref h node;
  if is_ended board state || bool_decide (0 < length (untried_actions n))%nat
  then Ok (node, state)
  else
    '(best_child, a) ← select_child h n identity;
    match fuel with
    | O => Err OutOfFuel
    | S fuel' =>
        traverse_nodes fuel' h best_child (next_state board state a) identity
    end.

(** The [for move in legal_moves] loop of [rollout]: the state to
    return at once, if a move wins. *)
Fixpoint winning_state (rollout_state : State) (moves : list Action)
    : result (option State) :=
  match moves with
  | [] => Ok None
  | move :: rest =>
      let next := next_state board rollout_state move in
      if is_ended board next then
        match points_values board next with
        | None => Err TypeError
        | Some points =>
            match points (current_player board rollout_state) with
            | None => Err KeyError
            | Some v =>
                if bool_decide (v = 1%Z) then Ok (Some next)
                else winning_state rollout_state rest
            end
        end
      else winning_state rollout_state rest
  end.

(** [rollout(board, state)]; one unit of fuel a turn of the loop. *)
Fixpoint rollout (fuel : nat) (rollout_state : State) (r : rng)
    : result (State * rng) :=
  if is_ended board rollout_state then Ok (rollout_state, r)
  else
    let legal_moves := legal_actions board rollout_state in
    w ← winning_state rollout_state legal_moves;
    match w with
    | Some next => Ok (next, r)
    | None =>
        '(action, r') ← choice legal_moves r;
        match fuel with
        | O => Err OutOfFuel
        | S fuel' => rollout fuel' (next_state board rollout_state action) r'
        end
    end.

(** [is_win(board, state, identity)]: false where the board has no
    points, else whether the identity's points are 1. *)
Definition is_win (state : State) (identity : Z) : result bool :=
  match points_values board state with
  | None => Ok false
  | Some points =>
      match points identity with
      | None => Err KeyError
      | Some v => Ok (bool_decide (v = 1%Z))
      end
  end.

(** The scoring loop of [get_best_action]. *)
Fixpoint best_score_loop (h : heap Action) (items : list (Action * nat))
    (best_action : option Action) (best_score : float)
    : result (option Action) :=
  match items with
  | [] => Ok best_action
  | (action, child) :: rest =>
      cn ← deref h child;
      if bool_decide (visits cn = O)
      then best_score_loop h rest best_action best_score
      else
        s ← py_sqrt (INR (visits cn));
        let score := Fin (wins cn / INR (visits cn) + 0.1 * s) in
        if float_gt score best_score
        then best_score_loop h rest (Some action) score
        else best_score_loop h rest best_action best_score
  end.

(** [get_best_action(node)]. *)
Definition get_best_action (h : heap Action) (node : nat) : result Action :=
  n ← deref h node;
  best ← best_score_loop h (child_nodes n) None NegInf;
  match best with
  | Some a => Ok a
  | None => max_visits h (child_nodes n)
  end.

(** The [if points[identity_of_bot] == 1 ... elif ... else] of [think]:
    the value handed to [backpropagate]. *)
Definition outcome (final_state : State) (identity_of_bot : Z) : result R :=
  match points_values board final_state with
  | None => Err TypeError
  | Some points =>
      match points identity_of_bot with
      | None => Err KeyError
      | Some v =>
          if bool_decide (v = 1%Z) then Ok 1
          else if bool_decide (v = (-1)%Z) then Ok 0
          else Ok 0.5
      end
  end.

(** One turn of the [for _ in range(num_nodes)] loop of [think]. *)
Definition think_iteration (fuel : nat) (h : heap Action) (root : nat)
    (state : State) (identity_of_bot : Z) (r : rng)
    : result (heap Action * rng) :=
  '(h1, node, final_state, r') ←
    simulate board (traverse_nodes fuel) (rollout fuel)
      h root state identity_of_bot r;
  won ← outcome final_state identity_of_bot;
  h2 ← backpropagate fuel h1 (Some node) won;
  Ok (h2, r').

Fixpoint think_loop (fuel num_nodes : nat) (h : heap Action) (root : nat)
    (state : State) (identity_of_bot : Z) (r : rng)
    : result (heap Action * rng) :=
  match num_nodes with
  | O => Ok (h, r)
  | S k =>
      '(h', r') ← think_iteration fuel h root state identity_of_bot r;
      think_loop fuel k h' root state identity_of_bot r'
  end.

(** [think(board, state)]: the root is node 0 of a fresh arena. *)
Definition think (fuel num_nodes : nat) (state : State) (r : rng)
    : result Action :=
  let identity_of_bot := current_player board state in
  let root_node := new_node None None (legal_actions board state) in
  '(h, _) ← think_loop fuel num_nodes [root_node] O state identity_of_bot r;
  get_best_action h O.
End Vanilla.
End Vanilla.

(** ** [mcts_modified.py] *)

Module Modified.
Section Modified.
Context {State Action : Type} `{EqDecision Action}.
Variable board : Board State Action.

Definition explore_factor : R := 0.9.

(** [identity != parent.parent_action]: [None] differs from every
    identity. *)
Definition differs (identity : Z) (a : option Action) : bool :=
  match a with
  | None => true
  | Some a => negb (action_is board a identity)
  end.

(** [ucb(node, parent, identity)]. *)
Definition ucb (node parent : MCTSNode Action) (identity : Z) : result float :=
  if bool_decide (visits node = O) then Ok PosInf
  else
    let win_rate := wins node / INR (visits node) in
    let win_rate :=
      if differs identity (parent_action parent)
      then 1 - win_rate else win_rate in
    l ← py_log (visits parent);
    s ← py_sqrt (l / INR (visits node));
    let exploration_term := explore_factor * s in
    Ok (Fin (win_rate + exploration_term)).

(** [max(values, key=...)] after its first item: a later child replaces
    the best one only on a strictly larger key. *)
Fixpoint max_ucb_loop (h : heap Action) (node : MCTSNode Action)
    (identity : Z) (items : list (Action * nat))
    (best_child : nat) (best_ucb : float) : result nat :=
  match items with
  | [] => Ok best_child
  | (_, child) :: rest =>
      cn ← deref h child;
      child_ucb ← ucb cn node identity;
      if float_gt child_ucb best_ucb
      then max_ucb_loop h node identity rest child child_ucb
      else max_ucb_loop h node identity rest best_child best_ucb
  end.

(** The child the loop of [traverse_nodes] moves to and the action it
    advances the state by; [max] of no children is a [ValueError]. *)
Definition select_child (h : heap Action) (n : MCTSNode Action)
    (identity : Z) : result (nat * Action) :=
  match child_nodes n with
  | [] => Err ValueError
  | (_, child) :: rest =>
      cn ← deref h child;
      child_ucb ← ucb cn n identity;
      best_child ← max_ucb_loop h n identity rest child child_ucb;
      bn ← deref h best_child;
      match parent_action bn with
      | None => Err TypeError
      | Some a => Ok (best_child, a)
      end
  end.

(** [traverse_nodes(node, board, state, identity)]; one unit of fuel a
    turn of the loop. *)
Fixpoint traverse_nodes (fuel : nat) (h : heap Action) (node : nat)
    (state : State) (identity : Z) : result (nat * State) :=
  n ← deref h node;
  if negb (is_ended board state) && bool_decide (untried_actions n = [])
  then
    '(best_child, a) ← select_child h n identity;
    match fuel with
    | O => Err OutOfFuel
    | S fuel' =>
        traverse_nodes fuel' h best_child (next_state board state a) identity
    end
  else Ok (node, state).

(** [next((move for move in legal_moves if ...), None)]. *)
Definition winning_move (state : State) (legal_moves : list Action)
    : option Action :=
  List.find (fun move => is_ended board (next_state board state move))
    legal_moves.

(** [rollout(board, state)]; one unit of fuel a turn of the loop.  A
    move that Python counts as false is passed over for a random one. *)
Fixpoint rollout (fuel : nat) (state : State) (r : rng)
    : result (State * rng) :=
  if is_ended board state then Ok (state, r)
  else
    let legal_moves := legal_actions board state in
    '(action, r') ←
      match winning_move state legal_moves with
      | Some m => if truthy board m then Ok (m, r) else choice legal_moves r
      | None => choice legal_moves r
      end;
    match fuel with
    | O => Err OutOfFuel
    | S fuel' => rollout fuel' (next_state board state action) r'
    end.

(** [get_best_action(node)]. *)
Definition get_best_action (h : heap Action) (node : nat) : result Action :=
  n ← deref h node;
  max_visits h (child_nodes n).

(** [points.get(identity_of_bot, 0)]: the value handed to
    [backpropagate]. *)
Definition bot_score (final_state : State) (identity_of_bot : Z) : result R :=
  match points_values board final_state with
  | None => Err AttributeError
  | Some points =>
      match points identity_of_bot with
      | None => Ok 0
      | Some v => Ok (IZR v)
      end
  end.

(** One turn of the [for _ in range(num_nodes)] loop of [think]. *)
Definition think_iteration (fuel : nat) (h : heap Action) (root : nat)
    (state : State) (identity_of_bot : Z) (r : rng)
    : result (heap Action * rng) :=
  '(h1, node, final_state, r') ←
    simulate board (traverse_nodes fuel) (rollout fuel)
      h root state identity_of_bot r;
  won ← bot_score final_state identity_of_bot;
  h2 ← backpropagate fuel h1 (Some node) won;
  Ok (h2, r').

Fixpoint think_loop (fuel num_nodes : nat) (h : heap Action) (root : nat)
    (state : State) (identity_of_bot : Z) (r : rng)
    : result (heap Action * rng) :=
  match num_nodes with
  | O => Ok (h, r)
  | S k =>
      '(h', r') ← think_iteration fuel h root state identity_of_bot r;
      think_loop fuel k h' root state identity_of_bot r'
  end.

(** [think(board, state)]: the root is node 0 of a fresh arena. *)
Definition think (fuel num_nodes : nat) (state : State) (r : rng)
    : result Action :=
  let identity_of_bot := current_player board state in
  let root_node := new_node None None (legal_actions board state) in
  '(h, _) ← think_loop fuel num_nodes [root_node] O state identity_of_bot r;
  get_best_action h O.
End Modified.
End Modified.

(** ** A small game for concrete runs *)

(** States and actions are numbers and an action names the state it
    leads to.  From state 0 player 1 can move to the ended states 1 (a
    draw), 2 (a win for player 1) and 3 (a loss for player 1); from state
    4 only to 3; from state 5 player 2 can move to 0 and 4.  Every other
    state is ended. *)
Definition loss_points : Z -> option Z :=
  fun p => if bool_decide (p = 1)%Z then Some (-1)%Z
           else if bool_decide (p = 2)%Z then Some 1%Z else None.

Definition toy_points (s : nat) : option (Z -> option Z) :=
  match s with
  | 1%nat => Some (fun p => if bool_decide (p = 1 \/ p = 2)%Z then Some 0%Z else None)
  | 2%nat => Some (fun p => if bool_decide (p = 1)%Z then Some 1%Z
                        else if bool_decide (p = 2)%Z then Some (-1)%Z else None)
  | 3%nat => Some loss_points
  | _ => None
  end.

Definition toy : Board nat nat :=
  {| is_ended := fun s => bool_decide (s <> 0 /\ s <> 4 /\ s <> 5)%nat;
     legal_actions := fun s =>
       match s with
       | 0%nat => [1; 2; 3]%nat
       | 4%nat => [3]%nat
       | 5%nat => [0; 4]%nat
       | _ => []
       end;
     next_state := fun _ a => a;
     current_player := fun s => if bool_decide (s = 5)%nat then 2%Z else 1%Z;
     points_values := toy_points;
     truthy := fun a => negb (bool_decide (a = 0%nat));
     action_is := fun a p => bool_decide (Z.of_nat a = p) |}.

(** ** Vocabulary of the statements *)

(** The rate each variant adds the exploration term to: the win rate of
    the child, or one minus it where the variant's own test says so. *)
Definition vanilla_rate {Action : Type} (c p : MCTSNode Action)
    (identity : Z) : R :=
  if bool_decide ((Z.of_nat (visits p) mod 2)%Z ≠ (identity - 1)%Z)
  then 1 - wins c / INR (visits c) else wins c / INR (visits c).

Definition modified_rate {State Action : Type} (board : Board State Action)
    (c p : MCTSNode Action) (identity : Z) : R :=
  if Modified.differs board identity (parent_action p)
  then 1 - wins c / INR (visits c) else wins c / INR (visits c).

(** The selection loop of both files with the score left open: it keeps
    the first child of the largest score, a later one replacing it only
    on a strictly larger score. *)
Fixpoint argmax_loop {Action : Type} (h : heap Action)
    (score : MCTSNode Action -> result float) (items : list (Action * nat))
    (best_child : option nat) (best : float) : result (option nat * float) :=
  match items with
  | [] => Ok (best_child, best)
  | (_, child) :: rest =>
      cn ← deref h child;
      s ← score cn;
      if float_gt s best
      then argmax_loop h score rest (Some child) s
      else argmax_loop h score rest best_child best
  end.

(** [c] is a child of [p] that no child of [p] outscores. *)
Definition best_scored {Action : Type} (h : heap Action)
    (score : MCTSNode Action -> result float) (p : MCTSNode Action)
    (c : nat) : Prop :=
  exists a cn u,
    (a, c) ∈ child_nodes p /\ h !! c = Some cn /\ score cn = Ok u /\
    forall a' c' cn' u',
      (a', c') ∈ child_nodes p -> h !! c' = Some cn' -> score cn' = Ok u' ->
      float_gt u' u = false.

(** Every child in [items] is in the arena and has a score. *)
Definition scorable {Action : Type} (h : heap Action)
    (score : MCTSNode Action -> result float) (items : list (Action * nat))
    : Prop :=
  Forall (fun ac => exists cn u, h !! ac.2 = Some cn /\ score cn = Ok u) items.

(** Every child of [p] is in the arena and was made by an action. *)
Definition children_linked {Action : Type} (h : heap Action)
    (p : MCTSNode Action) : Prop :=
  forall a c, (a, c) ∈ child_nodes p ->
    exists cn a', h !! c = Some cn /\ parent_action cn = Some a'.

(** What a selection returns. *)
Definition selects {Action : Type} (h : heap Action)
    (score : MCTSNode Action -> result float) (p : MCTSNode Action)
    (sel : result (nat * Action)) : Prop :=
  exists c a cn,
    sel = Ok (c, a) /\ best_scored h score p c
    /\ h !! c = Some cn /\ parent_action cn = Some a.

(** A tree of the small game at state 0 for concrete runs: the root with
    the children made by actions 1 and 2, the second one never visited. *)
Definition sample_root : MCTSNode nat :=
  {| parent := None; parent_action := None;
     child_nodes := [(1, 1); (2, 2)]%nat; untried_actions := [3%nat];
     wins := 1; visits := 1 |}.

Definition sample_heap : heap nat :=
  [ sample_root;
    credit 1 (new_node (Some O) (Some 1%nat) []);
    new_node (Some O) (Some 2%nat) [] ].

(** The chain of parent links from node [i] up to a node whose parent is
    none: [i] first, the root last. *)
Inductive ancestry {Action : Type} (h : heap Action) : nat -> list nat -> Prop :=
  | ancestry_root (i : nat) (n : MCTSNode Action) :
      h !! i = Some n -> parent n = None -> ancestry h i [i]
  | ancestry_step (i : nat) (n : MCTSNode Action) (p : nat) (l : list nat) :
      h !! i = Some n -> parent n = Some p -> ancestry h p l ->
      ancestry h i (i :: l).

(** A random source that always draws zero, the fresh tree of [think] at
    state 4 of the small game, and that tree after its first expansion. *)
Definition zero_rng : rng := fun _ => O.

Definition loss_root : heap nat := [new_node None None (legal_actions toy 4%nat)].

Definition loss_expanded : heap nat :=
  [ {| parent := None; parent_action := None; child_nodes := [(3, 1)]%nat;
       untried_actions := []; wins := 0; visits := 0 |};
    new_node (Some O) (Some 3%nat) [] ].

(** The points of player [p] at state [s], where the board has any. *)
Definition points_for {State Action : Type} (board : Board State Action)
    (s : State) (p : Z) : option Z :=
  match points_values board s with
  | Some points => points p
  | None => None
  end.

(** A root made at a state without legal actions: no child, no untried
    action, no parent. *)
Definition bare {Action : Type} (n : MCTSNode Action) : Prop :=
  child_nodes n = [] /\ untried_actions n = [] /\ parent n = None.

(** The traversal of both files with the selection left open. *)
Fixpoint descend_with {State Action : Type} (board : Board State Action)
    (select : heap Action -> MCTSNode Action -> Z -> result (nat * Action))
    (fuel : nat) (h : heap Action) (node : nat) (state : State) (identity : Z)
    : result (nat * State) :=
  n ← deref h node;
  if is_ended board state || bool_decide (untried_actions n <> [])
  then Ok (node, state)
  else
    '(best_child, a) ← select h n identity;
    match fuel with
    | O => Err OutOfFuel
    | S fuel' =>
        descend_with board select fuel' h best_child
          (next_state board state a) identity
    end.

(** The path of a traversal: from a node that is not to be expanded at a
    state where the game goes on, one step to a child that no child
    outscores, the state advanced by the child's [parent_action]. *)
Inductive descends {State Action : Type} (board : Board State Action)
    (h : heap Action) (score : MCTSNode Action -> MCTSNode Action -> result float)
    : nat * State -> nat * State -> Prop :=
  | descends_stop (i : nat) (s : State) : descends board h score (i, s) (i, s)
  | descends_step (i c : nat) (s : State) (n cn : MCTSNode Action) (a : Action)
      (k : nat * State) :
      h !! i = Some n ->
      is_ended board s = false ->
      untried_actions n = [] ->
      best_scored h (score n) n c ->
      h !! c = Some cn ->
      parent_action cn = Some a ->
      descends board h score (c, next_state board s a) k ->
      descends board h score (i, s) k.

(** The tree against the board.  [sts] gives every node of the arena the
    state it was created for.  At a node, the actions of the children
    and the untried ones are together the legal actions of its state;
    a child comes later in the arena, points back to the node, carries
    the action it is filed under, was created for the successor state
    and has no more visits than the node; the parent comes earlier. *)
Definition node_inv {State Action : Type} (board : Board State Action)
    (h : heap Action) (sts : list State) (i : nat) (n : MCTSNode Action)
    (s : State) : Prop :=
  (child_nodes n).*1 ++ untried_actions n ≡ₚ legal_actions board s
  /\ (forall a c, (a, c) ∈ child_nodes n ->
        (i < c)%nat
        /\ exists cn, h !! c = Some cn /\ parent cn = Some i
             /\ parent_action cn = Some a
             /\ sts !! c = Some (next_state board s a)
             /\ (visits cn <= visits n)%nat)
  /\ (forall p, parent n = Some p -> (p < i)%nat).

Definition tree_inv {State Action : Type} (board : Board State Action)
    (h : heap Action) (sts : list State) : Prop :=
  length sts = length h
  /\ forall i n s, h !! i = Some n -> sts !! i = Some s ->
       node_inv board h sts i n s.

(** A tree of the small game at state 5, two plies deep, with the states
    its nodes were created for. *)
Definition deep_heap : heap nat :=
  [ {| parent := None; parent_action := None;
       child_nodes := [(0, 1); (4, 2)]%nat; untried_actions := [];
       wins := 1; visits := 2 |};
    credit 1 (new_node (Some O) (Some 0%nat) [1; 2; 3]%nat);
    credit 0 (new_node (Some O) (Some 4%nat) [3%nat]) ].

Definition deep_states : list nat := [5; 0; 4]%nat.

(** Every node of the arena has as many children and untried actions
    together as its state has legal actions, and no action both as a
    child and untried. *)
Definition action_counts {State Action : Type} (board : Board State Action)
    (h : heap Action) (sts : list State) : Prop :=
  forall i n s, h !! i = Some n -> sts !! i = Some s ->
    (length (child_nodes n) + length (untried_actions n)
       = length (legal_actions board s))%nat
    /\ NoDup (child_nodes n).*1
    /\ (forall a, a ∈ (child_nodes n).*1 -> a ∉ untried_actions n).

(** A play of the game: from a state where the game goes on, legal
    action after legal action. *)
Inductive plays {State Action : Type} (board : Board State Action)
    : State -> State -> Prop :=
  | plays_here (s : State) : plays board s s
  | plays_move (s s' : State) (a : Action) :
      is_ended board s = false ->
      a ∈ legal_actions board s ->
      plays board (next_state board s a) s' ->
      plays board s s'.

(** A second small game, well-behaved throughout: a counter that a move
    lowers by 1 or 2, ended at zero, where player 1 has won; the player
    to move is 1 at odd counters and 2 at even ones. *)
Definition countdown : Board nat nat :=
  {| is_ended := fun s => bool_decide (s = O);
     legal_actions := fun s =>
       match s with
       | O => []
       | 1%nat => [1%nat]
       | _ => [1; 2]%nat
       end;
     next_state := fun s a => (s - a)%nat;
     current_player := fun s => if Nat.even s then 2%Z else 1%Z;
     points_values := fun s =>
       if bool_decide (s = O)
       then Some (fun p => if bool_decide (p = 1)%Z then Some 1%Z
                           else if bool_decide (p = 2)%Z then Some (-1)%Z
                           else None)
       else None;
     truthy := fun a => negb (bool_decide (a = O));
     action_is := fun a p => bool_decide (Z.of_nat a = p) |}.

(** A board that breaks the contract: the counter game without its end,
    so that state 0 goes on and has no legal action. *)
Definition unending : Board nat nat :=
  {| is_ended := fun _ => false;
     legal_actions := legal_actions countdown;
     next_state := next_state countdown;
     current_player := current_player countdown;
     points_values := fun _ => None;
     truthy := truthy countdown;
     action_is := action_is countdown |}.

(** The score [get_best_action] of the vanilla file gives a visited
    child. *)
Definition blended_score {Action : Type} (n : MCTSNode Action) : R :=
  wins n / INR (visits n) + 0.1 * sqrt (INR (visits n)).

(** The root of [deep_heap]. *)
Definition deep_root : MCTSNode nat :=
  {| parent := None; parent_action := None;
     child_nodes := [(0, 1); (4, 2)]%nat; untried_actions := [];
     wins := 1; visits := 2 |}.

(** One turn of the loop of [think] and the loop itself, with the
    functions that differ between the files left open. *)
Definition iteration_with {State Action : Type} `{EqDecision Action}
    (board : Board State Action)
    (traverse : heap Action -> nat -> State -> Z -> result (nat * State))
    (rollout : State -> rng -> result (State * rng))
    (outcome : State -> Z -> result R)
    (fuel : nat) (h : heap Action) (root : nat) (state : State)
    (identity : Z) (r : rng) : result (heap Action * rng) :=
  '(h1, node, final_state, r') ←
    simulate board traverse rollout h root state identity r;
  won ← outcome final_state identity;
  h2 ← backpropagate fuel h1 (Some node) won;
  Ok (h2, r').

Fixpoint loop_with {Action : Type}
    (iteration : heap Action -> rng -> result (heap Action * rng))
    (num_nodes : nat) (h : heap Action) (r : rng)
    : result (heap Action * rng) :=
  match num_nodes with
  | O => Ok (h, r)
  | S k => '(h', r') ← iteration h r; loop_with iteration k h' r'
  end.

(** The tree of a search in progress: it stands against the board, the
    states of its nodes satisfy [P], the root is the node created for
    the state of the search, and it is the only node without parent. *)
Definition search_inv {State Action : Type} (board : Board State Action)
    (P : State -> Prop) (h : heap Action) (sts : list State) (root : nat)
    (state : State) : Prop :=
  tree_inv board h sts
  /\ Forall P sts
  /\ sts !! root = Some state
  /\ (forall i n, h !! i = Some n -> parent n = None -> i = root).

(** [c] is the first child in [items] of the best score: the ones before
    it score strictly less, the ones after it no more. *)
Definition first_best {Action : Type} (h : heap Action)
    (score : MCTSNode Action -> result float) (items : list (Action * nat))
    (c : nat) : Prop :=
  exists l1 a l2 cn u,
    items = l1 ++ (a, c) :: l2 /\ h !! c = Some cn /\ score cn = Ok u
    /\ (forall a1 c1 cn1 u1, (a1, c1) ∈ l1 -> h !! c1 = Some cn1 ->
          score cn1 = Ok u1 -> float_gt u u1 = true)
    /\ (forall a2 c2 cn2 u2, (a2, c2) ∈ l2 -> h !! c2 = Some cn2 ->
          score cn2 = Ok u2 -> float_gt u2 u = false).

(** The visits of the children in a dict, summed up. *)
Definition visits_of {Action : Type} (h : heap Action) (c : nat) : nat :=
  match h !! c with
  | Some cn => visits cn
  | None => O
  end.

Definition child_visits {Action : Type} (h : heap Action)
    (items : list (Action * nat)) : nat :=
  sum_list_with (fun ac => visits_of h ac.2) items.

(** The account of visits: a node created for an ended state has no
    child; at a state where the game goes on, the visits of a node are
    those of its children, and one more for the rollout that created it
    unless it is the root.  A node just expanded and not yet credited,
    [pending], has neither visit nor child. *)
Definition visit_inv {State Action : Type} (board : Board State Action)
    (h : heap Action) (sts : list State) (root : nat) (pending : option nat)
    : Prop :=
  forall i n s, h !! i = Some n -> sts !! i = Some s ->
    if decide (pending = Some i) then visits n = O /\ child_nodes n = []
    else if is_ended board s then child_nodes n = []
    else visits n
         = ((if decide (i = root) then 0 else 1)
            + child_visits h (child_nodes n))%nat.

(** Every node with a parent is filed in the parent's dict. *)
Definition registered {Action : Type} (h : heap Action) : Prop :=
  forall c cn p, h !! c = Some cn -> parent cn = Some p ->
    exists pn a, h !! p = Some pn /\ (a, c) ∈ child_nodes pn.

(** The tree of the modified search of the small game from state 0
    after three iterations, the random source drawing zeros. *)
Definition toy_tree : heap nat :=
  Eval vm_compute in
    match Modified.think_loop toy 3 3 [new_node None None (legal_actions toy O)]
            O O 1 zero_rng with
    | Ok (h, _) => h
    | Err _ => []
    end.

(** * Properties *)

(** ** Arithmetic of the exploration term *)

Lemma ln_INR_nonneg (n : nat) : (0 < n)%nat -> 0 <= ln (INR n).
Proof.
  intros Hn.
  assert (H1 : 1 <= INR n) by (change 1 with (INR 1); apply le_INR; lia).
  destruct H1 as [H1 | H1].
  - left. rewrite <- ln_1. apply ln_increasing; lra.
  - rewrite <- H1, ln_1. lra.
Qed.

Lemma py_log_pos (n : nat) : (0 < n)%nat -> py_log n = Ok (ln (INR n)).
Proof. destruct n; [lia | reflexivity]. Qed.

Lemma py_sqrt_nonneg (x : R) : 0 <= x -> py_sqrt x = Ok (sqrt x).
Proof.
  intros Hx. unfold py_sqrt. rewrite bool_decide_eq_false_2; [reflexivity | lra].
Qed.

Lemma exploration_nonneg (k : R) (pv cv : nat) :
  0 <= k -> (0 < pv)%nat -> (0 < cv)%nat -> 0 <= k * ln (INR pv) / INR cv.
Proof.
  intros Hk Hp Hc.
  assert (0 < INR cv) by (apply lt_0_INR; lia).
  pose proof (ln_INR_nonneg pv Hp).
  apply Rmult_le_pos; [apply Rmult_le_pos; assumption |].
  left. apply Rinv_0_lt_compat. assumption.
Qed.

Section UcbFacts.
Context {State Action : Type} (board : Board State Action).
Implicit Types c p : MCTSNode Action.

Lemma vanilla_ucb_unvisited c p identity :
  visits c = O -> Vanilla.ucb c p identity = Ok PosInf.
Proof. intros Hv. unfold Vanilla.ucb. rewrite bool_decide_eq_true_2; done. Qed.

Lemma modified_ucb_unvisited c p identity :
  visits c = O -> Modified.ucb board c p identity = Ok PosInf.
Proof. intros Hv. unfold Modified.ucb. rewrite bool_decide_eq_true_2; done. Qed.

Lemma vanilla_ucb_visited c p identity :
  (0 < visits c)%nat -> (0 < visits p)%nat ->
  Vanilla.ucb c p identity =
    Ok (Fin (vanilla_rate c p identity
             + Vanilla.explore_faction
               * sqrt (2 * ln (INR (visits p)) / INR (visits c)))).
Proof.
  intros Hc Hp. unfold Vanilla.ucb, vanilla_rate.
  rewrite bool_decide_eq_false_2 by lia.
  rewrite py_log_pos by assumption. cbn.
  rewrite py_sqrt_nonneg by (apply exploration_nonneg; [lra | assumption ..]).
  reflexivity.
Qed.

Lemma modified_ucb_visited c p identity :
  (0 < visits c)%nat -> (0 < visits p)%nat ->
  Modified.ucb board c p identity =
    Ok (Fin (modified_rate board c p identity
             + Modified.explore_factor
               * sqrt (ln (INR (visits p)) / INR (visits c)))).
Proof.
  intros Hc Hp. unfold Modified.ucb, modified_rate.
  rewrite bool_decide_eq_false_2 by lia.
  rewrite py_log_pos by assumption. cbn.
  rewrite py_sqrt_nonneg.
  - reflexivity.
  - replace (ln (INR (visits p)) / INR (visits c))
      with (1 * ln (INR (visits p)) / INR (visits c)) by lra.
    apply exploration_nonneg; [lra | assumption ..].
Qed.
End UcbFacts.

(** ** The UCB score *)

(** C3 (as amended).  For a visited child under a visited parent both
    variants return a rate plus an exploration term.  The rate is the
    child's win rate, inverted where the variant's test holds (the parity
    of the parent's visits against the identity in the vanilla file, the
    identity against the parent's action in the modified one).  The term
    is [sqrt 2 * sqrt (2 * log p.visits / c.visits)] in the vanilla file
    and [0.9 * sqrt (log p.visits / c.visits)] in the modified file. *)
Theorem ucb_visited_formula {State Action : Type} (board : Board State Action)
    (c p : MCTSNode Action) (identity : Z) :
  (0 < visits c)%nat -> (0 < visits p)%nat ->
  Vanilla.ucb c p identity =
    Ok (Fin (vanilla_rate c p identity
             + sqrt 2 * sqrt (2 * ln (INR (visits p)) / INR (visits c))))
  /\ Modified.ucb board c p identity =
    Ok (Fin (modified_rate board c p identity
             + 0.9 * sqrt (ln (INR (visits p)) / INR (visits c)))).
Proof.
  intros Hc Hp. split.
  - apply vanilla_ucb_visited; assumption.
  - apply (modified_ucb_visited board); assumption.
Qed.

Lemma ucb_visited_formula_witness :
  let c := {| parent := Some O; parent_action := Some 1%nat; child_nodes := [];
              untried_actions := []; wins := 1; visits := 2 |} in
  let p := credit 1 (credit 0 (credit 1 (new_node None None [2%nat]))) in
  Vanilla.ucb c p 1 =
    Ok (Fin (vanilla_rate c p 1
             + sqrt 2 * sqrt (2 * ln (INR (visits p)) / INR (visits c))))
  /\ Modified.ucb toy c p 1 =
    Ok (Fin (modified_rate toy c p 1
             + 0.9 * sqrt (ln (INR (visits p)) / INR (visits c)))).
Proof.
  intros c p. apply (ucb_visited_formula toy c p 1); simpl; lia.
Defined.

(** C3, the claim as written, fails on the vanilla file: a child of one
    visit and half a win under a parent of three visits is not scored
    [rate + C * sqrt (log 3 / 1)], whichever way the rate is read, for the
    configured [C = sqrt 2]. *)
Lemma ucb_vanilla_not_plain_formula :
  let c := {| parent := Some O; parent_action := Some 1%nat; child_nodes := [];
              untried_actions := @nil nat; wins := 1 / 2; visits := 1 |} in
  let p := credit 0 (credit 0 (credit 0 (new_node None None []))) in
  ~ exists rate : R,
      (rate = wins c / INR (visits c) \/ rate = 1 - wins c / INR (visits c))
      /\ Vanilla.ucb c p 2 =
         Ok (Fin (rate + Vanilla.explore_faction
                         * sqrt (ln (INR (visits p)) / INR (visits c)))).
Proof.
  intros c p [rate [Hrate Hucb]].
  rewrite vanilla_ucb_visited in Hucb by (simpl; lia).
  injection Hucb as Hucb.
  assert (Hr : vanilla_rate c p 2 = rate).
  { unfold vanilla_rate. destruct Hrate as [-> | ->];
      destruct (bool_decide _); simpl; lra. }
  rewrite Hr in Hucb.
  assert (Hs2 : 0 < Vanilla.explore_faction).
  { unfold Vanilla.explore_faction. apply sqrt_lt_R0. lra. }
  apply Rplus_eq_reg_l, Rmult_eq_reg_l in Hucb; [| lra].
  assert (Hln : 0 < ln (INR (visits p))).
  { rewrite <- ln_1. apply ln_increasing; [lra |]. simpl. lra. }
  simpl in Hucb, Hln.
  apply sqrt_inj in Hucb; lra.
Qed.

(** C10.  In the modified file a visited child of a node whose
    [parent_action] is none, as the root's is, is scored with the
    inverted rate whatever the identity. *)
Theorem modified_ucb_inverts_under_root {State Action : Type}
    (board : Board State Action) (c root : MCTSNode Action) (identity : Z) :
  parent_action root = None ->
  (0 < visits c)%nat -> (0 < visits root)%nat ->
  Modified.ucb board c root identity =
    Ok (Fin (1 - wins c / INR (visits c)
             + Modified.explore_factor
               * sqrt (ln (INR (visits root)) / INR (visits c)))).
Proof.
  intros Hroot Hc Hp.
  rewrite (modified_ucb_visited board) by assumption.
  unfold modified_rate. rewrite Hroot. reflexivity.
Qed.

Lemma modified_ucb_inverts_under_root_witness :
  let root := credit 1 (credit 0 (new_node None None [3%nat])) in
  let c := credit 1 (new_node (Some O) (Some 2%nat) []) in
  Modified.ucb toy c root 1 =
    Ok (Fin (1 - wins c / INR (visits c)
             + Modified.explore_factor
               * sqrt (ln (INR (visits root)) / INR (visits c)))).
Proof.
  intros root c.
  apply (modified_ucb_inverts_under_root toy c root 1);
    [reflexivity | simpl; lia | simpl; lia].
Defined.

(** ** Selection of a child *)

Lemma float_gt_trans_false (a b c : float) :
  float_gt a b = false -> float_gt b c = false -> float_gt a c = false.
Proof.
  destruct a, b, c; simpl; try done;
    rewrite ?bool_decide_eq_false; intros; lra.
Qed.

Lemma float_gt_irrefl (a : float) : float_gt a a = false.
Proof. destruct a; simpl; try done. rewrite bool_decide_eq_false. lra. Qed.

Lemma float_gt_asym (a b : float) : float_gt a b = true -> float_gt b a = false.
Proof.
  destruct a, b; simpl; try done.
  rewrite bool_decide_eq_true, bool_decide_eq_false. lra.
Qed.

Section ArgMax.
Context {Action : Type}.
Variable h : heap Action.
Variable score : MCTSNode Action -> result float.

Lemma argmax_loop_spec (items : list (Action * nat)) :
  scorable h score items ->
  forall best_child best,
  exists b u,
    argmax_loop h score items best_child best = Ok (b, u)
    /\ float_gt best u = false
    /\ (forall a c cn s, (a, c) ∈ items -> h !! c = Some cn ->
          score cn = Ok s -> float_gt s u = false)
    /\ ((b = best_child /\ u = best)
        \/ exists a c cn, b = Some c /\ (a, c) ∈ items /\ h !! c = Some cn
              /\ score cn = Ok u /\ float_gt u best = true).
Proof.
  induction 1 as [| [a c] items (cn & s & Hcn & Hs) Hitems IH];
    intros best_child best.
  - exists best_child, best. simpl. split; [done |].
    split; [apply float_gt_irrefl |].
    split; [| by left]. intros ? ? ? ? Hin. by apply elem_of_nil in Hin.
  - simpl in Hcn. simpl. unfold deref. rewrite Hcn. simpl. rewrite Hs. simpl.
    destruct (float_gt s best) eqn:Hgt.
    + destruct (IH (Some c) s) as (b & u & Hrun & Hle & Hmax & Hsel).
      exists b, u. split; [done |].
      split; [eapply float_gt_trans_false; [apply float_gt_asym|]; eassumption |].
      split.
      * intros a' c' cn' s' Hin Hc' Hs'.
        apply elem_of_cons in Hin as [Heq | Hin]; [| by eapply Hmax].
        injection Heq as -> ->. rewrite Hcn in Hc'. injection Hc' as <-.
        rewrite Hs in Hs'. injection Hs' as <-. done.
      * right. destruct Hsel as [[-> ->] | (a' & c' & cn' & -> & Hin & Hc' & Hs' & Hgt')].
        -- exists a, c, cn. repeat split; try done. apply elem_of_cons; by left.
        -- exists a', c', cn'. repeat split; try done.
           ++ apply elem_of_cons; by right.
           ++ destruct u, best, s; simpl in *; try done.
              rewrite bool_decide_eq_true in *. lra.
    + destruct (IH best_child best) as (b & u & Hrun & Hle & Hmax & Hsel).
      exists b, u. split; [done |]. split; [done |]. split.
      * intros a' c' cn' s' Hin Hc' Hs'.
        apply elem_of_cons in Hin as [Heq | Hin]; [| by eapply Hmax].
        injection Heq as -> ->. rewrite Hcn in Hc'. injection Hc' as <-.
        rewrite Hs in Hs'. injection Hs' as <-.
        eapply float_gt_trans_false; eassumption.
      * destruct Hsel as [[-> ->] | (a' & c' & cn' & -> & Hin & Hc' & Hs' & Hgt')].
        -- by left.
        -- right. exists a', c', cn'. repeat split; try done.
           apply elem_of_cons; by right.
Qed.
End ArgMax.

Lemma deref_some {Action : Type} (h : heap Action) (i : nat)
    (n : MCTSNode Action) :
  h !! i = Some n -> deref h i = Ok n.
Proof. intros Hn. unfold deref. by rewrite Hn. Qed.

(** The loops of the two files are this loop at their own score. *)
Lemma vanilla_loop_argmax {Action : Type} (h : heap Action)
    (p : MCTSNode Action) (identity : Z) (items : list (Action * nat)) :
  forall b u b' u',
    argmax_loop h (fun cn => Vanilla.ucb cn p identity) items b u = Ok (b', u') ->
    Vanilla.best_child_loop h p identity items b u = Ok b'.
Proof.
  induction items as [| [a c] items IH]; intros b u b' u'; simpl.
  - by intros [= -> ->].
  - destruct (deref h c) as [cn |]; simpl; [| done].
    destruct (Vanilla.ucb cn p identity) as [s |]; simpl; [| done].
    destruct (float_gt s u); apply IH.
Qed.

Lemma modified_loop_argmax {State Action : Type} (board : Board State Action)
    (h : heap Action) (p : MCTSNode Action) (identity : Z)
    (items : list (Action * nat)) :
  forall b u b' u',
    argmax_loop h (fun cn => Modified.ucb board cn p identity) items (Some b) u
      = Ok (Some b', u') ->
    Modified.max_ucb_loop board h p identity items b u = Ok b'.
Proof.
  induction items as [| [a c] items IH]; intros b u b' u'; simpl.
  - by intros [= -> ->].
  - destruct (deref h c) as [cn |]; simpl; [| done].
    destruct (Modified.ucb board cn p identity) as [s |]; simpl; [| done].
    destruct (float_gt s u); apply IH.
Qed.

Lemma vanilla_ucb_total {Action : Type} (c p : MCTSNode Action) (identity : Z) :
  (0 < visits p)%nat ->
  exists u, Vanilla.ucb c p identity = Ok u /\ u <> NegInf
            /\ (u = PosInf <-> visits c = O).
Proof.
  intros Hp. destruct (decide (visits c = O)) as [Hc | Hc].
  - exists PosInf. rewrite vanilla_ucb_unvisited by done. done.
  - eexists. rewrite vanilla_ucb_visited by lia. split; [done |]. split; [done |].
    split; [done | lia].
Qed.

Lemma modified_ucb_total {State Action : Type} (board : Board State Action)
    (c p : MCTSNode Action) (identity : Z) :
  (0 < visits p)%nat ->
  exists u, Modified.ucb board c p identity = Ok u /\ u <> NegInf
            /\ (u = PosInf <-> visits c = O).
Proof.
  intros Hp. destruct (decide (visits c = O)) as [Hc | Hc].
  - exists PosInf. rewrite (modified_ucb_unvisited board) by done. done.
  - eexists. rewrite (modified_ucb_visited board) by lia.
    split; [done |]. split; [done |]. split; [done | lia].
Qed.

Lemma float_gt_neginf (u : float) : u <> NegInf -> float_gt u NegInf = true.
Proof. by destruct u. Qed.

Section Select.
Context {State Action : Type} (board : Board State Action).
Variable h : heap Action.
Variable p : MCTSNode Action.
Variable identity : Z.
Hypothesis Hchildren : child_nodes p <> [].
Hypothesis Hlinked : children_linked h p.

Lemma vanilla_select_child_spec :
  let score := fun cn => Vanilla.ucb cn p identity in
  scorable h score (child_nodes p) ->
  (forall cn u, score cn = Ok u -> u <> NegInf) ->
  selects h score p (Vanilla.select_child h p identity).
Proof.
  intros score Hsc Hneg.
  destruct (argmax_loop_spec h score _ Hsc None NegInf)
    as (b & u & Hrun & _ & Hmax & Hsel).
  destruct Hsel as [[-> ->] | (a & c & cn & -> & Hin & Hc & Hs & Hgt)].
  - exfalso. destruct (child_nodes p) as [| [a c] items] eqn:Hitems; [done |].
    apply Forall_cons in Hsc as [(cn & s & Hcn & Hs) _]. simpl in Hcn.
    pose proof (Hmax a c cn s ltac:(left) Hcn Hs) as Hle.
    rewrite float_gt_neginf in Hle; [done | by eapply Hneg].
  - destruct (Hlinked a c Hin) as (cn' & a' & Hc' & Ha').
    rewrite Hc in Hc'. injection Hc' as <-.
    exists c, a', cn. unfold Vanilla.select_child.
    rewrite (vanilla_loop_argmax _ _ _ _ _ _ _ _ Hrun). simpl.
    rewrite (deref_some _ _ _ Hc). simpl. rewrite Ha'.
    split; [done |]. split; [| done].
    exists a, cn, u. repeat split; try done; intros; by eapply Hmax.
Qed.

Lemma modified_select_child_spec :
  let score := fun cn => Modified.ucb board cn p identity in
  scorable h score (child_nodes p) ->
  selects h score p (Modified.select_child board h p identity).
Proof.
  intros score Hsc. unfold Modified.select_child.
  destruct (child_nodes p) as [| [a0 c0] items] eqn:Hitems; [done |].
  apply Forall_cons in Hsc as [(cn0 & u0 & Hcn0 & Hu0) Hsc]. simpl in Hcn0.
  rewrite (deref_some _ _ _ Hcn0). simpl. fold (score cn0). rewrite Hu0. simpl.
  destruct (argmax_loop_spec h score _ Hsc (Some c0) u0)
    as (b & u & Hrun & Hle & Hmax & Hsel).
  assert (Hbest : exists a c cn, b = Some c /\ (a, c) ∈ child_nodes p
                    /\ h !! c = Some cn /\ score cn = Ok u).
  { rewrite Hitems.
    destruct Hsel as [[-> ->] | (a & c & cn & -> & Hin & Hc & Hs & Hgt)].
    - exists a0, c0, cn0. repeat split; try done. by left.
    - exists a, c, cn. repeat split; try done. by right. }
  destruct Hbest as (a & c & cn & -> & Hin & Hc & Hs).
  destruct (Hlinked a c Hin) as (cn' & a' & Hc' & Ha').
  rewrite Hc in Hc'. injection Hc' as <-.
  rewrite (modified_loop_argmax board _ _ _ _ _ _ _ _ Hrun). simpl.
  rewrite (deref_some _ _ _ Hc). simpl. rewrite Ha'.
  exists c, a', cn. split; [done |]. split; [| done].
  exists a, cn, u. repeat split; try done.
  intros a1 c1 cn1 u1 Hin1 Hc1 Hs1. rewrite Hitems in Hin1.
  apply elem_of_cons in Hin1 as [Heq | Hin1]; [| by eapply Hmax].
  injection Heq as -> ->. rewrite Hcn0 in Hc1. injection Hc1 as <-.
  fold (score cn0) in Hs1. rewrite Hu0 in Hs1. by injection Hs1 as <-.
Qed.
End Select.

(** ** Backpropagation *)

Section Ancestry.
Context {Action : Type}.
Implicit Types (h : heap Action) (l : list nat).

Lemma ancestry_deterministic h i l1 l2 :
  ancestry h i l1 -> ancestry h i l2 -> l1 = l2.
Proof.
  intros H1. revert l2.
  induction H1 as [i n Hn Hp | i n p l Hn Hp _ IH]; intros l2 H2;
    inversion H2 as [i' n' Hn' Hp' | i' n' p' l' Hn' Hp' Hl']; subst;
    rewrite Hn in Hn'; injection Hn' as <-; rewrite Hp in Hp'; try done.
  injection Hp' as <-. f_equal. by apply IH.
Qed.

Lemma ancestry_from_member h i l j :
  ancestry h i l -> j ∈ l ->
  exists l', ancestry h j l' /\ (length l' <= length l)%nat.
Proof.
  induction 1 as [i n Hn Hp | i n p l Hn Hp Hl IH]; intros Hj.
  - apply list_elem_of_singleton in Hj as ->. exists [i]. split; [| done].
    by eapply ancestry_root.
  - apply elem_of_cons in Hj as [-> | Hj].
    + exists (i :: l). split; [| done]. by eapply ancestry_step.
    + destruct (IH Hj) as (l' & Hl' & Hlen). exists l'. split; [done |].
      simpl. lia.
Qed.

(** A chain that ends has no node twice. *)
Lemma ancestry_NoDup h i l : ancestry h i l -> NoDup l.
Proof.
  induction 1 as [i n Hn Hp | i n p l Hn Hp Hl IH].
  - apply NoDup_singleton.
  - apply NoDup_cons. split; [| done]. intros Hi.
    destruct (ancestry_from_member h p l i Hl Hi) as (l' & Hl' & Hlen).
    assert (l' = i :: l) as ->.
    { eapply ancestry_deterministic; [done |]. by eapply ancestry_step. }
    simpl in Hlen. lia.
Qed.

Lemma ancestry_insert h i l k nk w :
  h !! k = Some nk -> ancestry h i l -> ancestry (<[k := credit w nk]> h) i l.
Proof.
  intros Hk. induction 1 as [i n Hn Hp | i n p l Hn Hp Hl IH].
  - destruct (decide (i = k)) as [-> | Hne].
    + rewrite Hk in Hn. injection Hn as <-.
      eapply (ancestry_root _ k (credit w nk)); [| done].
      apply list_lookup_insert_eq. by eapply lookup_lt_Some.
    + eapply ancestry_root; [| done]. by rewrite list_lookup_insert_ne.
  - destruct (decide (i = k)) as [-> | Hne].
    + rewrite Hk in Hn. injection Hn as <-.
      eapply (ancestry_step _ k (credit w nk)); [| done | done].
      apply list_lookup_insert_eq. by eapply lookup_lt_Some.
    + eapply ancestry_step; [| done | done]. by rewrite list_lookup_insert_ne.
Qed.

Lemma ancestry_cons_inv h i i0 l :
  ancestry h i (i0 :: l) ->
  i0 = i /\ exists n, h !! i = Some n
    /\ ((parent n = None /\ l = [])
        \/ exists p, parent n = Some p /\ ancestry h p l).
Proof.
  inversion 1 as [i' n Hn Hp | i' n p l' Hn Hp Hl']; subst;
    (split; [done |]); exists n; (split; [done |]).
  - by left.
  - right. by exists p.
Qed.

Lemma backpropagate_chain l : forall h i (w : R) (fuel : nat),
  ancestry h i l -> NoDup l -> (length l <= fuel)%nat ->
  exists h',
    backpropagate fuel h (Some i) w = Ok h'
    /\ length h' = length h
    /\ forall j n, h !! j = Some n ->
         h' !! j = Some (if decide (j ∈ l) then credit w n else n).
Proof.
  induction l as [| i0 l IH]; intros h i w fuel Hl Hnd Hfuel;
    [inversion Hl |].
  destruct fuel as [| fuel]; [simpl in Hfuel; lia |].
  apply NoDup_cons in Hnd as [Hi0 Hnd]. simpl in Hfuel.
  apply ancestry_cons_inv in Hl as (-> & n & Hn & Hcase). simpl.
  rewrite (deref_some _ _ _ Hn). simpl.
  destruct Hcase as [[Hp ->] | (p & Hp & Hl)]; rewrite Hp.
  - exists (<[i := credit w n]> h).
    split; [by destruct fuel |]. split; [by rewrite length_insert |].
    intros j nj Hj. destruct (decide (j = i)) as [-> | Hne].
    + rewrite Hn in Hj. injection Hj as <-.
      rewrite decide_True by (by left).
      apply list_lookup_insert_eq. by eapply lookup_lt_Some.
    + rewrite list_lookup_insert_ne by done.
      rewrite decide_False; [done |]. by rewrite list_elem_of_singleton.
  - destruct (IH (<[i := credit w n]> h) p w fuel) as (h' & Hrun & Hlen & Hall);
      [by apply ancestry_insert | done | lia |].
    exists h'. split; [done |]. split; [by rewrite Hlen, length_insert |].
    intros j nj Hj. destruct (decide (j = i)) as [-> | Hne].
    + rewrite Hn in Hj. injection Hj as <-.
      rewrite decide_True by (by left).
      rewrite (Hall i (credit w n)).
      * by rewrite decide_False.
      * apply list_lookup_insert_eq. by eapply lookup_lt_Some.
    + rewrite (Hall j nj) by (by rewrite list_lookup_insert_ne).
      destruct (decide (j ∈ l)) as [Hin | Hnin].
      * rewrite decide_True; [done | by right].
      * rewrite decide_False; [done |]. intros [-> | ?]%elem_of_cons; done.
Qed.
End Ancestry.

(** C7.  Where the parent links from a node reach a node without parent,
    over the chain [l], [backpropagate] ends within [length l] turns of
    its loop, and it leaves every node of the chain, the root included,
    with one more visit and [w] more wins and every other node as it
    was. *)
Theorem backpropagate_credits_ancestors {Action : Type} (h : heap Action)
    (i : nat) (l : list nat) (w : R) (fuel : nat) :
  ancestry h i l -> (length l <= fuel)%nat ->
  exists h',
    backpropagate fuel h (Some i) w = Ok h'
    /\ length h' = length h
    /\ forall j n, h !! j = Some n ->
         exists n', h' !! j = Some n'
           /\ parent n' = parent n /\ parent_action n' = parent_action n
           /\ child_nodes n' = child_nodes n
           /\ untried_actions n' = untried_actions n
           /\ (j ∈ l -> visits n' = S (visits n) /\ wins n' = wins n + w)
           /\ (j ∉ l -> n' = n).
Proof.
  intros Hl Hfuel.
  destruct (backpropagate_chain l h i w fuel Hl (ancestry_NoDup h i l Hl) Hfuel)
    as (h' & Hrun & Hlen & Hall).
  exists h'. split; [done |]. split; [done |].
  intros j n Hj. rewrite (Hall j n Hj).
  destruct (decide (j ∈ l)) as [Hin | Hnin]; eexists; (split; [done |]);
    repeat split; try done.
Qed.

Lemma backpropagate_credits_ancestors_witness :
  exists h',
    backpropagate 2 sample_heap (Some 1%nat) (1 / 2) = Ok h'
    /\ length h' = length sample_heap
    /\ forall j n, sample_heap !! j = Some n ->
         exists n', h' !! j = Some n'
           /\ parent n' = parent n /\ parent_action n' = parent_action n
           /\ child_nodes n' = child_nodes n
           /\ untried_actions n' = untried_actions n
           /\ (j ∈ [1; 0]%nat -> visits n' = S (visits n)
                                 /\ wins n' = wins n + 1 / 2)
           /\ (j ∉ [1; 0]%nat -> n' = n).
Proof.
  apply (backpropagate_credits_ancestors sample_heap 1 [1; 0]%nat (1 / 2) 2).
  - eapply ancestry_step; [reflexivity | reflexivity |].
    eapply ancestry_root; reflexivity.
  - simpl. lia.
Defined.

(** ** Expansion *)

Section ListFacts.
Context {A : Type} `{EqDecision A}.

Lemma list_remove_NoDup (x : A) (l : list A) :
  NoDup l -> x ∉ list_remove x l.
Proof.
  induction 1 as [| y l Hy Hl IH]; simpl; [apply not_elem_of_nil |].
  destruct (decide (y = x)) as [-> | Hne]; [done |].
  intros [-> | ?]%elem_of_cons; done.
Qed.

Lemma list_remove_subset (x y : A) (l : list A) :
  y ∈ list_remove x l -> y ∈ l.
Proof.
  induction l as [| z l IH]; simpl; [done |].
  destruct (decide (z = x)) as [-> | Hne].
  - intros ?. by right.
  - intros [-> | ?]%elem_of_cons; [by left | right; auto].
Qed.

Lemma list_remove_length (x : A) (l : list A) :
  x ∈ l -> S (length (list_remove x l)) = length l.
Proof.
  induction l as [| z l IH]; simpl; [by intros ?%elem_of_nil |].
  destruct (decide (z = x)) as [-> | Hne]; [done |].
  intros [-> | Hin]%elem_of_cons; [done |]. simpl. by rewrite IH.
Qed.

Lemma list_remove_Permutation (x : A) (l : list A) :
  x ∈ l -> l ≡ₚ x :: list_remove x l.
Proof.
  induction l as [| z l IH]; simpl; [by intros ?%elem_of_nil |].
  destruct (decide (z = x)) as [-> | Hne]; [done |].
  intros [-> | Hin]%elem_of_cons; [done |].
  rewrite (IH Hin) at 1. apply Permutation_swap.
Qed.

Context {V : Type}.

Lemma dict_set_elem (k : A) (v : V) (d : list (A * V)) :
  (k, v) ∈ dict_set k v d.
Proof.
  induction d as [| [k' v'] d IH]; simpl; [by left |].
  destruct (decide (k' = k)); [by left | by right].
Qed.

Lemma dict_set_fresh (k : A) (v : V) (d : list (A * V)) :
  k ∉ d.*1 -> dict_set k v d = d ++ [(k, v)].
Proof.
  induction d as [| [k' v'] d IH]; simpl; [done |].
  intros Hk. apply not_elem_of_cons in Hk as [Hne Hk].
  rewrite decide_False by done. by rewrite IH.
Qed.

Lemma choice_elem (l : list A) (r : rng) :
  l <> [] -> exists x, choice l r = Ok (x, rng_next r) /\ x ∈ l.
Proof.
  intros Hl. unfold choice.
  assert (Hlt : (r O mod length l < length l)%nat).
  { apply Nat.mod_upper_bound. by destruct l. }
  apply lookup_lt_is_Some in Hlt as [x Hx]. rewrite Hx.
  exists x. split; [done |]. by eapply list_elem_of_lookup_2.
Qed.
End ListFacts.

(** C6.  [expand_leaf] returns the node and the state as they are when
    the game has ended at the state or the node has no untried action.
    Otherwise it draws an action from [untried_actions], removes it
    there, allocates a child (parent, [parent_action], untried actions
    of the successor state, no children, no visits), sets it in the
    dict of children under the action, and returns the child with the
    successor state; the action is then in [child_nodes] and no longer
    in [untried_actions], a set kept as a list without duplicates. *)
Theorem expand_leaf_spec {State Action : Type} `{EqDecision Action}
    (board : Board State Action) (h : heap Action) (node : nat)
    (state : State) (r : rng) (n : MCTSNode Action) :
  h !! node = Some n ->
  NoDup (untried_actions n) ->
  (is_ended board state = true \/ untried_actions n = [] ->
     expand_leaf board h node state r = Ok (h, node, state, r))
  /\ (is_ended board state = false -> untried_actions n <> [] ->
      exists action n' cn h',
        action ∈ untried_actions n
        /\ (expand_leaf board h node state r
            = Ok (h', length h, next_state board state action, rng_next r))
        /\ h' !! node = Some n'
        /\ h' !! length h = Some cn
        /\ length h' = S (length h)
        /\ (forall j, j <> node -> (j < length h)%nat -> h' !! j = h !! j)
        /\ cn = new_node (Some node) (Some action)
                  (legal_actions board (next_state board state action))
        /\ (action, length h) ∈ child_nodes n'
        /\ (action ∉ untried_actions n')
        /\ untried_actions n' = list_remove action (untried_actions n)
        /\ child_nodes n' = dict_set action (length h) (child_nodes n)
        /\ parent n' = parent n /\ parent_action n' = parent_action n
        /\ visits n' = visits n /\ wins n' = wins n).
Proof.
  intros Hn Hnd.
  assert (Hlt : (node < length h)%nat) by by eapply lookup_lt_Some.
  unfold expand_leaf. rewrite (deref_some _ _ _ Hn). simpl. split.
  - intros [-> | ->]; [done |]. by rewrite orb_true_r.
  - intros -> Hne. rewrite bool_decide_eq_false_2 by done. simpl.
    destruct (choice_elem (untried_actions n) r Hne) as (action & -> & Hin).
    simpl. eexists action, _, _, _. split; [done |]. split; [reflexivity |].
    split; [| split; [| split; [| split]]].
    + rewrite lookup_app_l by (by rewrite length_insert).
      by apply list_lookup_insert_eq.
    + rewrite lookup_app_r by (by rewrite length_insert).
      by rewrite length_insert, Nat.sub_diag.
    + rewrite length_app, length_insert. simpl. lia.
    + intros j Hj Hjlt. rewrite lookup_app_l by (by rewrite length_insert).
      by rewrite list_lookup_insert_ne.
    + simpl. repeat split; try done.
      * apply dict_set_elem.
      * by apply list_remove_NoDup.
Qed.

Lemma expand_leaf_spec_witness :
  let r : rng := fun _ => O in
  (is_ended toy O = true \/ untried_actions sample_root = [] ->
     expand_leaf toy sample_heap O O r = Ok (sample_heap, O, O, r))
  /\ (is_ended toy O = false -> untried_actions sample_root <> [] ->
      exists action n' cn h',
        action ∈ untried_actions sample_root
        /\ (expand_leaf toy sample_heap O O r
            = Ok (h', length sample_heap, next_state toy O action, rng_next r))
        /\ h' !! O = Some n'
        /\ h' !! length sample_heap = Some cn
        /\ length h' = S (length sample_heap)
        /\ (forall j, j <> O -> (j < length sample_heap)%nat ->
              h' !! j = sample_heap !! j)
        /\ cn = new_node (Some O) (Some action)
                  (legal_actions toy (next_state toy O action))
        /\ (action, length sample_heap) ∈ child_nodes n'
        /\ (action ∉ untried_actions n')
        /\ untried_actions n' = list_remove action (untried_actions sample_root)
        /\ child_nodes n'
           = dict_set action (length sample_heap) (child_nodes sample_root)
        /\ parent n' = parent sample_root
        /\ parent_action n' = parent_action sample_root
        /\ visits n' = visits sample_root /\ wins n' = wins sample_root).
Proof.
  intros r.
  apply (expand_leaf_spec toy sample_heap O O r sample_root).
  - reflexivity.
  - simpl. apply NoDup_singleton.
Defined.

(** ** The outcome handed to backpropagation *)

(** C2 (as amended).  In an iteration of [think] whose rollout ends in
    [final], the vanilla file backpropagates 1 when the points of the
    searching identity are 1, 0 when they are -1 and 0.5 otherwise; the
    modified file backpropagates the points themselves (1 for a win, -1
    for a loss, the board's value for a draw), and 0 when the mapping
    has no entry for the identity. *)
Theorem think_backpropagated_outcome {State Action : Type} `{EqDecision Action}
    (board : Board State Action) (fuel : nat) (h : heap Action) (root : nat)
    (state : State) (identity : Z) (r : rng)
    (hv hm : heap Action) (nodev nodem : nat) (finalv finalm : State)
    (rv rm : rng) (ptsv ptsm : Z -> option Z) (v : Z) :
  simulate board (Vanilla.traverse_nodes board fuel) (Vanilla.rollout board fuel)
    h root state identity r = Ok (hv, nodev, finalv, rv) ->
  points_values board finalv = Some ptsv ->
  ptsv identity = Some v ->
  simulate board (Modified.traverse_nodes board fuel)
    (Modified.rollout board fuel) h root state identity r
    = Ok (hm, nodem, finalm, rm) ->
  points_values board finalm = Some ptsm ->
  Vanilla.think_iteration board fuel h root state identity r
    = (h2 ← backpropagate fuel hv (Some nodev)
              (if bool_decide (v = 1%Z) then 1
               else if bool_decide (v = (-1)%Z) then 0 else 0.5);
       Ok (h2, rv))
  /\ Modified.think_iteration board fuel h root state identity r
    = (h2 ← backpropagate fuel hm (Some nodem)
              (match ptsm identity with Some s => IZR s | None => 0 end);
       Ok (h2, rm)).
Proof.
  intros Hv Hptsv Hval Hm Hptsm. split.
  - unfold Vanilla.think_iteration, Vanilla.outcome.
    rewrite Hv. simpl. rewrite Hptsv, Hval.
    by repeat case_bool_decide.
  - unfold Modified.think_iteration, Modified.bot_score.
    rewrite Hm. simpl. rewrite Hptsm. by destruct (ptsm identity).
Qed.

Lemma think_backpropagated_outcome_witness :
  Vanilla.think_iteration toy 2 loss_root O 4%nat 1 zero_rng
    = (h2 ← backpropagate 2 loss_expanded (Some 1%nat)
              (if bool_decide ((-1)%Z = 1%Z) then 1
               else if bool_decide ((-1)%Z = (-1)%Z) then 0 else 0.5);
       Ok (h2, zero_rng))
  /\ Modified.think_iteration toy 2 loss_root O 4%nat 1 zero_rng
    = (h2 ← backpropagate 2 loss_expanded (Some 1%nat)
              (match loss_points 1 with Some s => IZR s | None => 0 end);
       Ok (h2, zero_rng)).
Proof.
  apply (think_backpropagated_outcome toy 2 loss_root O 4%nat 1 zero_rng
           loss_expanded loss_expanded 1 1 3%nat 3%nat zero_rng zero_rng
           loss_points loss_points (-1)%Z); reflexivity.
Defined.

(** C2, the claim as written, fails on the modified file: from state 4
    of the small game the rollout ends in state 3, a loss for the
    searching identity 1, and the iteration backpropagates -1, not 0. *)
Lemma modified_backpropagates_minus_one_on_loss :
  simulate toy (Modified.traverse_nodes toy 2) (Modified.rollout toy 2)
    loss_root O 4%nat 1 zero_rng = Ok (loss_expanded, 1%nat, 3%nat, zero_rng)
  /\ points_for toy 3%nat 1 = Some (-1)%Z
  /\ Modified.think_iteration toy 2 loss_root O 4%nat 1 zero_rng
     = (h2 ← backpropagate 2 loss_expanded (Some 1%nat) (-1); Ok (h2, zero_rng))
  /\ Modified.think_iteration toy 2 loss_root O 4%nat 1 zero_rng
     <> (h2 ← backpropagate 2 loss_expanded (Some 1%nat) 0; Ok (h2, zero_rng)).
Proof.
  split; [reflexivity |]. split; [reflexivity |]. split; [reflexivity |].
  intros Heq. vm_compute in Heq. injection Heq as Heq _.
  assert (H01 : R0 + - R1 = -1) by (change R0 with 0; change R1 with 1; lra).
  assert (H00 : R0 + R0 = 0) by (change R0 with 0; lra).
  rewrite H01, H00 in Heq. lra.
Qed.

(** ** Rollout *)

Section VanillaRollout.
Context {State Action : Type} `{EqDecision Action}.
Variable board : Board State Action.

(** The state the vanilla loop returns at once is the successor of a
    legal move, ended and worth 1 to the player to move. *)
Lemma vanilla_winning_state_some (s w : State) (moves : list Action) :
  Vanilla.winning_state board s moves = Ok (Some w) ->
  exists m, m ∈ moves /\ w = next_state board s m
            /\ is_ended board w = true
            /\ points_for board w (current_player board s) = Some 1%Z.
Proof.
  induction moves as [| m moves IH]; simpl; [done |].
  destruct (is_ended board (next_state board s m)) eqn:Hend.
  - unfold points_for in *.
    destruct (points_values board (next_state board s m)) as [pts |] eqn:Hpts;
      [| done].
    destruct (pts (current_player board s)) as [v |] eqn:Hv; [| done].
    case_bool_decide as Hone.
    + intros [= <-]. exists m. rewrite Hend, Hpts, Hv, Hone.
      split; [by left | done].
    + intros Hw. destruct (IH Hw) as (m' & Hin & Hrest).
      exists m'. split; [by right | done].
  - intros Hw. destruct (IH Hw) as (m' & Hin & Hrest).
    exists m'. split; [by right | done].
Qed.

(** Where it returns none, no legal move ends the game on a win. *)
Lemma vanilla_winning_state_none (s : State) (moves : list Action) :
  Vanilla.winning_state board s moves = Ok None ->
  forall m, m ∈ moves ->
    is_ended board (next_state board s m) = true ->
    points_for board (next_state board s m) (current_player board s)
      <> Some 1%Z.
Proof.
  induction moves as [| m0 moves IH]; simpl; [by intros _ m ?%elem_of_nil |].
  intros Hw m Hin Hend.
  apply elem_of_cons in Hin as [-> | Hin].
  - rewrite Hend in Hw. unfold points_for.
    destruct (points_values board (next_state board s m0)) as [pts |]; [| done].
    destruct (pts (current_player board s)) as [v |]; [| done].
    case_bool_decide; [done |]. by intros [= ->].
  - apply IH; [| done | done].
    destruct (is_ended board (next_state board s m0)); [| done].
    destruct (points_values board (next_state board s m0)) as [pts |]; [| done].
    destruct (pts (current_player board s)) as [v |]; [| done].
    by case_bool_decide.
Qed.

(** The vanilla rollout: a winning successor is returned at once, on
    every call; without one the move is drawn from all legal moves. *)
Lemma vanilla_rollout_step (fuel : nat) (s : State) (r : rng) :
  is_ended board s = false ->
  (forall w, Vanilla.winning_state board s (legal_actions board s) = Ok (Some w) ->
     Vanilla.rollout board fuel s r = Ok (w, r))
  /\ (Vanilla.winning_state board s (legal_actions board s) = Ok None ->
      Vanilla.rollout board (S fuel) s r
      = ('(action, r') ← choice (legal_actions board s) r;
         Vanilla.rollout board fuel (next_state board s action) r')).
Proof.
  intros Hend. split.
  - intros w Hw. destruct fuel; simpl; rewrite Hend, Hw; done.
  - intros Hw. simpl. rewrite Hend, Hw. simpl.
    by destruct (choice (legal_actions board s) r) as [[a r'] |].
Qed.

Lemma vanilla_winning_state_total (s : State) (moves : list Action) :
  (forall m, m ∈ moves -> is_ended board (next_state board s m) = true ->
     is_Some (points_for board (next_state board s m) (current_player board s))) ->
  exists res, Vanilla.winning_state board s moves = Ok res.
Proof.
  induction moves as [| m moves IH]; intros Hpts; simpl; [by eexists |].
  destruct IH as [res Hres]; [intros m' Hin; apply Hpts; by right |].
  destruct (is_ended board (next_state board s m)) eqn:Hend; [| by eexists].
  destruct (Hpts m ltac:(left) Hend) as [v Hv]. unfold points_for in Hv.
  destruct (points_values board (next_state board s m)) as [pts |]; [| done].
  rewrite Hv. case_bool_decide; by eexists.
Qed.

(** X5.  One ply from a win, with points on every ended successor, the
    vanilla rollout returns one winning state on every call, whatever
    the fuel and the random source. *)
Lemma vanilla_rollout_takes_win (s : State) :
  is_ended board s = false ->
  (forall m, m ∈ legal_actions board s ->
     is_ended board (next_state board s m) = true ->
     is_Some (points_for board (next_state board s m) (current_player board s))) ->
  (exists m, m ∈ legal_actions board s
     /\ is_ended board (next_state board s m) = true
     /\ points_for board (next_state board s m) (current_player board s)
        = Some 1%Z) ->
  exists w, is_ended board w = true
    /\ points_for board w (current_player board s) = Some 1%Z
    /\ forall fuel r, Vanilla.rollout board fuel s r = Ok (w, r).
Proof.
  intros Hend Hpts (m & Hin & Hmend & Hwin).
  destruct (vanilla_winning_state_total s _ Hpts) as [[w |] Hres].
  - destruct (vanilla_winning_state_some s w _ Hres) as (m' & _ & _ & Hw & Hp).
    exists w. split; [done |]. split; [done |].
    intros fuel r. by apply vanilla_rollout_step.
  - by destruct (vanilla_winning_state_none s _ Hres m Hin Hmend).
Qed.
End VanillaRollout.

(** C1, on the failing input.  At state 0 of the small game the legal
    moves are 1, 2 and 3; move 2 ends the game on a win for the player
    to move and move 1, listed before it, on a draw.  The vanilla
    rollout returns the winning state on every call; the modified one
    returns the drawn state on every call: it takes the first move that
    ends the game without looking at its points. *)
Theorem modified_rollout_takes_first_ending_move (fuel : nat) (r : rng) :
  is_ended toy O = false
  /\ legal_actions toy O = [1; 2; 3]%nat
  /\ is_ended toy (next_state toy O 2%nat) = true
  /\ points_for toy (next_state toy O 2%nat) (current_player toy O) = Some 1%Z
  /\ Vanilla.rollout toy fuel O r = Ok (2%nat, r)
  /\ Modified.rollout toy (S fuel) O r = Ok (1%nat, r)
  /\ points_for toy 1%nat (current_player toy O) = Some 0%Z.
Proof.
  repeat split; try reflexivity.
  - by destruct fuel.
  - by destruct fuel.
Qed.

(** ** The search on a state without legal actions *)

Lemma raises_bind {A B : Type} (m : result A) (k : A -> result B) :
  raises m -> raises (m ≫= k).
Proof. by destruct m. Qed.

Lemma bare_credit {Action : Type} (w : R) (n : MCTSNode Action) :
  bare n -> bare (credit w n).
Proof. by intros (? & ? & ?). Qed.

Section BareRoot.
Context {State Action : Type} `{EqDecision Action}.
Variable board : Board State Action.
Variables (fuel : nat) (state : State) (identity : Z).

Lemma backpropagate_bare (n0 : MCTSNode Action) (w : R) :
  bare n0 -> backpropagate (S fuel) [n0] (Some O) w = Ok [credit w n0].
Proof.
  destruct n0 as [p a cs us ws vs]. unfold bare. simpl.
  intros (_ & _ & ->). by destruct fuel.
Qed.

Lemma vanilla_traverse_bare (n0 : MCTSNode Action) :
  bare n0 ->
  Vanilla.traverse_nodes board (S fuel) [n0] O state identity
  = if is_ended board state then Ok (O, state) else Err AttributeError.
Proof.
  intros (Hc & Hu & _). simpl. rewrite Hu. simpl.
  destruct (is_ended board state); [done |]. simpl.
  unfold Vanilla.select_child. by rewrite Hc.
Qed.

Lemma modified_traverse_bare (n0 : MCTSNode Action) :
  bare n0 ->
  Modified.traverse_nodes board (S fuel) [n0] O state identity
  = if is_ended board state then Ok (O, state) else Err ValueError.
Proof.
  intros (Hc & Hu & _). simpl. rewrite Hu. simpl.
  destruct (is_ended board state); [done |]. simpl.
  unfold Modified.select_child. by rewrite Hc.
Qed.

Lemma vanilla_rollout_ended (k : nat) (r : rng) :
  is_ended board state = true ->
  Vanilla.rollout board k state r = Ok (state, r).
Proof. intros Hend. destruct k; simpl; by rewrite Hend. Qed.

Lemma modified_rollout_ended (k : nat) (r : rng) :
  is_ended board state = true ->
  Modified.rollout board k state r = Ok (state, r).
Proof. intros Hend. destruct k; simpl; by rewrite Hend. Qed.

Lemma vanilla_iteration_bare (n0 : MCTSNode Action) (r : rng) :
  bare n0 ->
  let run := Vanilla.think_iteration board (S fuel) [n0] O state identity r in
  ((exists w, run = Ok ([credit w n0], r)) \/ raises run)
  /\ (is_ended board state = true ->
      is_Some (points_for board state identity) ->
      exists w, run = Ok ([credit w n0], r)).
Proof.
  intros Hbare run.
  unfold run, Vanilla.think_iteration, simulate, points_for.
  rewrite (vanilla_traverse_bare n0 Hbare).
  destruct (is_ended board state) eqn:Hend; [| split; [by right | done]].
  cbn [mbind result_bind negb]. rewrite Hend. cbn [mbind result_bind negb].
  rewrite (vanilla_rollout_ended _ r Hend). cbn [mbind result_bind].
  unfold Vanilla.outcome.
  destruct (points_values board state) as [pts |];
    [| split; [by right | by intros _ [? ?]]].
  destruct (pts identity) as [v |];
    [| split; [by right | by intros _ [? ?]]].
  assert (Hrun : exists w : R,
    (won ← (if bool_decide (v = 1%Z) then Ok 1
            else if bool_decide (v = (-1)%Z) then Ok 0 else Ok 0.5);
     h2 ← backpropagate (S fuel) [n0] (Some O) won; Ok (h2, r))
    = Ok ([credit w n0], r)).
  { repeat case_bool_decide; cbn [mbind result_bind];
      rewrite (backpropagate_bare n0 _ Hbare); by eexists. }
  split; [by left | done].
Qed.

Lemma modified_iteration_bare (n0 : MCTSNode Action) (r : rng) :
  bare n0 ->
  let run := Modified.think_iteration board (S fuel) [n0] O state identity r in
  ((exists w, run = Ok ([credit w n0], r)) \/ raises run)
  /\ (is_ended board state = true ->
      is_Some (points_values board state) ->
      exists w, run = Ok ([credit w n0], r)).
Proof.
  intros Hbare run.
  unfold run, Modified.think_iteration, simulate.
  rewrite (modified_traverse_bare n0 Hbare).
  destruct (is_ended board state) eqn:Hend; [| split; [by right | done]].
  cbn [mbind result_bind negb]. rewrite Hend. cbn [mbind result_bind negb].
  rewrite (modified_rollout_ended _ r Hend). cbn [mbind result_bind].
  unfold Modified.bot_score.
  destruct (points_values board state) as [pts |];
    [| split; [by right | by intros _ [? ?]]].
  assert (Hrun : exists w : R,
    (won ← (match pts identity with Some v => Ok (IZR v) | None => Ok 0 end);
     h2 ← backpropagate (S fuel) [n0] (Some O) won; Ok (h2, r))
    = Ok ([credit w n0], r)).
  { destruct (pts identity); cbn [mbind result_bind];
      rewrite (backpropagate_bare n0 _ Hbare); by eexists. }
  split; [by left | done].
Qed.

Lemma vanilla_loop_bare (num_nodes : nat) :
  forall (n0 : MCTSNode Action) (r : rng),
  bare n0 ->
  let run := Vanilla.think_loop board (S fuel) num_nodes [n0] O state identity r in
  ((exists n1, run = Ok ([n1], r) /\ bare n1) \/ raises run)
  /\ (is_ended board state = true ->
      is_Some (points_for board state identity) ->
      exists n1, run = Ok ([n1], r) /\ bare n1).
Proof.
  induction num_nodes as [| k IH]; intros n0 r Hbare; simpl.
  - split; [left |]; by exists n0.
  - destruct (vanilla_iteration_bare n0 r Hbare) as [Hiter Hgood]. split.
    + destruct Hiter as [[w ->] | Hraise]; [| right; by apply raises_bind].
      simpl. apply IH. by apply bare_credit.
    + intros Hend Hpts. destruct (Hgood Hend Hpts) as [w ->]. simpl.
      apply IH; [by apply bare_credit | done | done].
Qed.

Lemma modified_loop_bare (num_nodes : nat) :
  forall (n0 : MCTSNode Action) (r : rng),
  bare n0 ->
  let run := Modified.think_loop board (S fuel) num_nodes [n0] O state identity r in
  ((exists n1, run = Ok ([n1], r) /\ bare n1) \/ raises run)
  /\ (is_ended board state = true ->
      is_Some (points_values board state) ->
      exists n1, run = Ok ([n1], r) /\ bare n1).
Proof.
  induction num_nodes as [| k IH]; intros n0 r Hbare; simpl.
  - split; [left |]; by exists n0.
  - destruct (modified_iteration_bare n0 r Hbare) as [Hiter Hgood]. split.
    + destruct Hiter as [[w ->] | Hraise]; [| right; by apply raises_bind].
      simpl. apply IH. by apply bare_credit.
    + intros Hend Hpts. destruct (Hgood Hend Hpts) as [w ->]. simpl.
      apply IH; [by apply bare_credit | done | done].
Qed.

Lemma vanilla_best_action_bare (n1 : MCTSNode Action) :
  bare n1 -> Vanilla.get_best_action [n1] O = Err ValueError.
Proof. intros (Hc & _). unfold Vanilla.get_best_action. simpl. by rewrite Hc. Qed.

Lemma modified_best_action_bare (n1 : MCTSNode Action) :
  bare n1 -> Modified.get_best_action [n1] O = Err ValueError.
Proof. intros (Hc & _). unfold Modified.get_best_action. simpl. by rewrite Hc. Qed.
End BareRoot.

(** C9.  On a state without legal actions [think] ends in an exception
    in both files, whatever the budget and the random source.  Where the
    state is ended and the board has its points, every iteration
    returns, the root is still the only node and has no child, and the
    exception is the [ValueError] of [max] over the empty dict in
    [get_best_action]. *)
Theorem think_without_legal_actions_raises {State Action : Type}
    `{EqDecision Action} (board : Board State Action)
    (fuel num_nodes : nat) (state : State) (r : rng) :
  legal_actions board state = [] ->
  let identity := current_player board state in
  let root := new_node None None (legal_actions board state) in
  raises (Vanilla.think board (S fuel) num_nodes state r)
  /\ raises (Modified.think board (S fuel) num_nodes state r)
  /\ (is_ended board state = true ->
      is_Some (points_for board state identity) ->
      (exists n1, Vanilla.think_loop board (S fuel) num_nodes [root] O state
                    identity r = Ok ([n1], r) /\ child_nodes n1 = [])
      /\ Vanilla.think board (S fuel) num_nodes state r = Err ValueError)
  /\ (is_ended board state = true ->
      is_Some (points_values board state) ->
      (exists n1, Modified.think_loop board (S fuel) num_nodes [root] O state
                    identity r = Ok ([n1], r) /\ child_nodes n1 = [])
      /\ Modified.think board (S fuel) num_nodes state r = Err ValueError).
Proof.
  intros Hlegal identity root.
  assert (Hbare : bare root) by (unfold root; by rewrite Hlegal).
  destruct (vanilla_loop_bare board fuel state identity num_nodes root r Hbare)
    as [Hv Hvgood].
  destruct (modified_loop_bare board fuel state identity num_nodes root r Hbare)
    as [Hm Hmgood].
  unfold Vanilla.think, Modified.think. fold identity root.
  split; [| split; [| split]].
  - destruct Hv as [(n1 & -> & Hn1) | Hraise]; [| by apply raises_bind].
    cbn [mbind result_bind]. by rewrite vanilla_best_action_bare.
  - destruct Hm as [(n1 & -> & Hn1) | Hraise]; [| by apply raises_bind].
    cbn [mbind result_bind]. by rewrite modified_best_action_bare.
  - intros Hend Hpts. destruct (Hvgood Hend Hpts) as (n1 & -> & Hn1).
    split; [exists n1; split; [done | apply Hn1] |].
    cbn [mbind result_bind]. by rewrite vanilla_best_action_bare.
  - intros Hend Hpts. destruct (Hmgood Hend Hpts) as (n1 & -> & Hn1).
    split; [exists n1; split; [done | apply Hn1] |].
    cbn [mbind result_bind]. by rewrite modified_best_action_bare.
Qed.

Lemma think_without_legal_actions_raises_witness :
  let identity := current_player toy 1%nat in
  let root := new_node None None (legal_actions toy 1%nat) in
  raises (Vanilla.think toy 1 5 1%nat zero_rng)
  /\ raises (Modified.think toy 1 5 1%nat zero_rng)
  /\ (is_ended toy 1%nat = true ->
      is_Some (points_for toy 1%nat identity) ->
      (exists n1, Vanilla.think_loop toy 1 5 [root] O 1%nat
                    identity zero_rng = Ok ([n1], zero_rng) /\ child_nodes n1 = [])
      /\ Vanilla.think toy 1 5 1%nat zero_rng = Err ValueError)
  /\ (is_ended toy 1%nat = true ->
      is_Some (points_values toy 1%nat) ->
      (exists n1, Modified.think_loop toy 1 5 [root] O 1%nat
                    identity zero_rng = Ok ([n1], zero_rng) /\ child_nodes n1 = [])
      /\ Modified.think toy 1 5 1%nat zero_rng = Err ValueError).
Proof.
  apply (think_without_legal_actions_raises toy 0 5 1%nat zero_rng).
  reflexivity.
Defined.

(** ** Traversal *)

Lemma vanilla_ucb_not_neginf {Action : Type} (c p : MCTSNode Action)
    (identity : Z) (u : float) :
  Vanilla.ucb c p identity = Ok u -> u <> NegInf.
Proof.
  unfold Vanilla.ucb. case_bool_decide; [by intros [= <-] |].
  destruct (py_log (visits p)) as [l |]; [| done]. simpl.
  destruct (py_sqrt _) as [x |]; [| done]. by intros [= <-].
Qed.

Lemma vanilla_loop_in {Action : Type} (h : heap Action) (p : MCTSNode Action)
    (identity : Z) (items : list (Action * nat)) :
  forall b u c,
    Vanilla.best_child_loop h p identity items b u = Ok (Some c) ->
    b = Some c \/ exists a, (a, c) ∈ items.
Proof.
  induction items as [| [a c0] items IH]; intros b u c; simpl.
  - intros [= ->]. by left.
  - destruct (deref h c0) as [cn |]; simpl; [| done].
    destruct (Vanilla.ucb cn p identity) as [s |]; simpl; [| done].
    destruct (float_gt s u); intros Hrun; apply IH in Hrun as [Hb | [a' Hin]].
    + injection Hb as ->. right. exists a. by left.
    + right. exists a'. by right.
    + by left.
    + right. exists a'. by right.
Qed.

Lemma modified_loop_in {State Action : Type} (board : Board State Action)
    (h : heap Action) (p : MCTSNode Action) (identity : Z)
    (items : list (Action * nat)) :
  forall b u c,
    Modified.max_ucb_loop board h p identity items b u = Ok c ->
    b = c \/ exists a, (a, c) ∈ items.
Proof.
  induction items as [| [a c0] items IH]; intros b u c; simpl.
  - intros [= ->]. by left.
  - destruct (deref h c0) as [cn |]; simpl; [| done].
    destruct (Modified.ucb board cn p identity) as [s |]; simpl; [| done].
    destruct (float_gt s u); intros Hrun; apply IH in Hrun as [Hb | [a' Hin]].
    + subst. right. exists a. by left.
    + right. exists a'. by right.
    + by left.
    + right. exists a'. by right.
Qed.

Lemma deref_ok {Action : Type} (h : heap Action) (i : nat) (n : MCTSNode Action) :
  deref h i = Ok n -> h !! i = Some n.
Proof. unfold deref. destruct (h !! i); [by intros [= ->] | done]. Qed.

Lemma vanilla_select_child_in {Action : Type} (h : heap Action)
    (n : MCTSNode Action) (identity : Z) (c : nat) (a : Action) :
  Vanilla.select_child h n identity = Ok (c, a) ->
  exists a0 cn, (a0, c) ∈ child_nodes n /\ h !! c = Some cn
                /\ parent_action cn = Some a.
Proof.
  unfold Vanilla.select_child.
  destruct (Vanilla.best_child_loop h n identity (child_nodes n) None NegInf)
    as [[b |] |] eqn:Hloop; simpl; try done.
  destruct (deref h b) as [cn |] eqn:Hcn; simpl; [| done].
  destruct (parent_action cn) as [a' |] eqn:Ha; [| done].
  intros [= -> ->]. apply vanilla_loop_in in Hloop as [? | [a0 Hin]]; [done |].
  exists a0, cn. split; [done |]. split; [by apply deref_ok | done].
Qed.

Lemma modified_select_child_in {State Action : Type} (board : Board State Action)
    (h : heap Action) (n : MCTSNode Action) (identity : Z) (c : nat) (a : Action) :
  Modified.select_child board h n identity = Ok (c, a) ->
  exists a0 cn, (a0, c) ∈ child_nodes n /\ h !! c = Some cn
                /\ parent_action cn = Some a.
Proof.
  unfold Modified.select_child.
  destruct (child_nodes n) as [| [a0 c0] items]; [done |].
  destruct (deref h c0) as [cn0 |]; simpl; [| done].
  destruct (Modified.ucb board cn0 n identity) as [u0 |]; simpl; [| done].
  destruct (Modified.max_ucb_loop board h n identity items c0 u0)
    as [b |] eqn:Hloop; simpl; [| done].
  destruct (deref h b) as [cn |] eqn:Hcn; simpl; [| done].
  destruct (parent_action cn) as [a' |] eqn:Ha; [| done].
  intros [= -> ->]. apply deref_ok in Hcn.
  apply modified_loop_in in Hloop as [-> | [a1 Hin]].
  - exists a0, cn. split; [by left | done].
  - exists a1, cn. split; [by right | done].
Qed.

Lemma nonempty_test {A : Type} `{EqDecision A} (l : list A) :
  bool_decide (0 < length l)%nat = bool_decide (l <> [])
  /\ bool_decide (l = []) = negb (bool_decide (l <> [])).
Proof.
  split.
  - apply bool_decide_ext. destruct l; simpl; split; intros; try lia; done.
  - destruct (decide (l = [])) as [-> | Hne].
    + rewrite bool_decide_eq_true_2 by done.
      rewrite (bool_decide_eq_false_2 ([] <> [])); [done |].
      intros Hn. by apply Hn.
    + rewrite bool_decide_eq_false_2 by done.
      by rewrite bool_decide_eq_true_2.
Qed.

(** The traversals of the two files are the open one at their own
    selection. *)
Lemma vanilla_traverse_descend {State Action : Type} `{EqDecision Action}
    (board : Board State Action) (fuel : nat) (h : heap Action) :
  forall node state identity,
    Vanilla.traverse_nodes board fuel h node state identity
    = descend_with board Vanilla.select_child fuel h node state identity.
Proof.
  induction fuel as [| fuel IH]; intros node state identity; simpl;
    destruct (deref h node) as [n |]; simpl; try done;
    rewrite (proj1 (nonempty_test (untried_actions n)));
    destruct (is_ended board state || _); try done;
    destruct (Vanilla.select_child h n identity) as [[c a] |]; simpl; try done.
Qed.

Lemma modified_traverse_descend {State Action : Type} `{EqDecision Action}
    (board : Board State Action) (fuel : nat) (h : heap Action) :
  forall node state identity,
    Modified.traverse_nodes board fuel h node state identity
    = descend_with board (Modified.select_child board) fuel h node state identity.
Proof.
  induction fuel as [| fuel IH]; intros node state identity; simpl;
    destruct (deref h node) as [n |]; simpl; try done;
    rewrite (proj2 (nonempty_test (untried_actions n)));
    destruct (is_ended board state); simpl;
    destruct (bool_decide (untried_actions n <> [])); simpl; try done;
    destruct (Modified.select_child board h n identity) as [[c a] |];
    simpl; try done.
Qed.

Section Descend.
Context {State Action : Type} (board : Board State Action).
Variable select : heap Action -> MCTSNode Action -> Z -> result (nat * Action).
Variable score : Z -> MCTSNode Action -> MCTSNode Action -> result float.

Hypothesis select_in : forall h n identity c a,
  select h n identity = Ok (c, a) ->
  exists a0 cn, (a0, c) ∈ child_nodes n /\ h !! c = Some cn
                /\ parent_action cn = Some a.
Hypothesis select_best : forall h n identity,
  child_nodes n <> [] -> children_linked h n ->
  scorable h (score identity n) (child_nodes n) ->
  selects h (score identity n) n (select h n identity).
Hypothesis score_total : forall identity p c,
  visits c = O \/ (0 < visits p)%nat -> exists u, score identity p c = Ok u.

Variables (h : heap Action) (sts : list State) (identity : Z).
Hypothesis Hinv : tree_inv board h sts.

(** What a traversal returns is a node of the tree with the state it
    was created for, and the traversal has stopped rightly there. *)
Lemma descend_sound (fuel : nat) :
  forall node s node' s',
    sts !! node = Some s ->
    descend_with board select fuel h node s identity = Ok (node', s') ->
    sts !! node' = Some s'
    /\ exists n', h !! node' = Some n'
         /\ (is_ended board s' = true \/ untried_actions n' <> []).
Proof.
  induction fuel as [| fuel IH]; intros node s node' s' Hs; simpl;
    destruct (deref h node) as [n |] eqn:Hn; simpl; try done;
    apply deref_ok in Hn;
    destruct (is_ended board s) eqn:Hend; simpl.
  1, 3: intros [= <- <-]; split; [done |]; exists n; split; [done | by left].
  all: case_bool_decide as Hun; simpl.
  1, 3: intros [= <- <-]; split; [done |]; exists n; split; [done | by right].
  all: destruct (select h n identity) as [[c a] |] eqn:Hsel; simpl; try done.
  intros Hrun.
  destruct (select_in _ _ _ _ _ Hsel) as (a0 & cn & Hin & Hc & Ha).
  destruct Hinv as [_ Hnodes].
  destruct (Hnodes node n s Hn Hs) as (_ & Hkids & _).
  destruct (Hkids a0 c Hin) as (_ & cn' & Hc' & _ & Ha' & Hst & _).
  rewrite Hc in Hc'. injection Hc' as <-. rewrite Ha in Ha'.
  injection Ha' as ->. by eapply IH.
Qed.

Hypothesis Hmoves : forall s,
  is_ended board s = false -> legal_actions board s <> [].

(** With fuel for the depth of the arena, the traversal returns, and
    the way to what it returns is a way of best-scored children. *)
Lemma descend_total (fuel : nat) :
  forall node s n,
    h !! node = Some n -> sts !! node = Some s ->
    (length h - node <= fuel)%nat ->
    exists node' s',
      descend_with board select fuel h node s identity = Ok (node', s')
      /\ descends board h (score identity) (node, s) (node', s').
Proof.
  induction fuel as [| fuel IH]; intros node s n Hn Hs Hfuel.
  { apply lookup_lt_Some in Hn. lia. }
  simpl. rewrite (deref_some _ _ _ Hn). simpl.
  destruct (is_ended board s) eqn:Hend; simpl.
  { exists node, s. split; [done | apply descends_stop]. }
  case_bool_decide as Hun; simpl.
  { exists node, s. split; [done | apply descends_stop]. }
  destruct Hinv as [Hlen Hnodes].
  destruct (Hnodes node n s Hn Hs) as (Hperm & Hkids & _).
  assert (Hne : child_nodes n <> []).
  { intros Hnil. rewrite Hnil, Hun in Hperm. simpl in Hperm.
    apply Permutation_nil_l in Hperm. by eapply Hmoves. }
  assert (Hlinked : children_linked h n).
  { intros a c Hin. destruct (Hkids a c Hin) as (_ & cn & Hc & _ & Ha & _).
    by exists cn, a. }
  assert (Hsc : scorable h (score identity n) (child_nodes n)).
  { apply Forall_forall. intros [a c] Hin.
    destruct (Hkids a c Hin) as (_ & cn & Hc & _ & _ & _ & Hv).
    destruct (score_total identity n cn) as [u Hu]; [lia |].
    by exists cn, u. }
  destruct (select_best h n identity Hne Hlinked Hsc)
    as (c & a & cn & -> & Hbest & Hc & Ha).
  simpl.
  pose proof Hbest as (a0 & cn0 & u & Hin & _).
  destruct (Hkids a0 c Hin) as (Hlt & cn' & Hc' & _ & Ha' & Hst & _).
  rewrite Hc in Hc'. injection Hc' as <-. rewrite Ha in Ha'.
  injection Ha' as <-.
  destruct (IH c (next_state board s a) cn Hc Hst) as (node' & s' & Hrun & Hpath).
  { apply lookup_lt_Some in Hc. lia. }
  exists node', s'. split; [done |].
  by eapply descends_step.
Qed.
End Descend.

Lemma vanilla_ucb_scores {Action : Type} (identity : Z) (p c : MCTSNode Action) :
  visits c = O \/ (0 < visits p)%nat ->
  exists u, Vanilla.ucb c p identity = Ok u.
Proof.
  intros [Hc | Hp].
  - exists PosInf. by apply vanilla_ucb_unvisited.
  - destruct (vanilla_ucb_total c p identity Hp) as (u & Hu & _). by exists u.
Qed.

Lemma modified_ucb_scores {State Action : Type} (board : Board State Action)
    (identity : Z) (p c : MCTSNode Action) :
  visits c = O \/ (0 < visits p)%nat ->
  exists u, Modified.ucb board c p identity = Ok u.
Proof.
  intros [Hc | Hp].
  - exists PosInf. by apply modified_ucb_unvisited.
  - destruct (modified_ucb_total board c p identity Hp) as (u & Hu & _).
    by exists u.
Qed.

Lemma vanilla_ucb_inf {Action : Type} (c p : MCTSNode Action) (identity : Z) :
  Vanilla.ucb c p identity = Ok PosInf -> visits c = O.
Proof.
  unfold Vanilla.ucb. case_bool_decide; [done |].
  destruct (py_log (visits p)) as [l |]; [| done]. simpl.
  by destruct (py_sqrt _) as [x |].
Qed.

Lemma modified_ucb_inf {State Action : Type} (board : Board State Action)
    (c p : MCTSNode Action) (identity : Z) :
  Modified.ucb board c p identity = Ok PosInf -> visits c = O.
Proof.
  unfold Modified.ucb. case_bool_decide; [done |].
  destruct (py_log (visits p)) as [l |]; [| done]. simpl.
  by destruct (py_sqrt _) as [x |].
Qed.

Lemma scorable_within_visits {Action : Type} (h : heap Action)
    (score : MCTSNode Action -> result float) (p : MCTSNode Action) :
  children_linked h p ->
  (forall a c cn, (a, c) ∈ child_nodes p -> h !! c = Some cn ->
     (visits cn <= visits p)%nat) ->
  (forall cn, visits cn = O \/ (0 < visits p)%nat -> exists u, score cn = Ok u) ->
  scorable h score (child_nodes p).
Proof.
  intros Hlinked Hvisits Htotal. apply Forall_forall. intros [a c] Hin.
  destruct (Hlinked a c Hin) as (cn & _ & Hc & _).
  destruct (Htotal cn) as [u Hu]; [| by exists cn, u].
  specialize (Hvisits a c cn Hin Hc). lia.
Qed.

Lemma best_scored_unvisited {Action : Type} (h : heap Action)
    (score : MCTSNode Action -> result float) (p : MCTSNode Action) (c : nat) :
  (forall cn, visits cn = O -> score cn = Ok PosInf) ->
  (forall cn, score cn = Ok PosInf -> visits cn = O) ->
  (exists a c' cn', (a, c') ∈ child_nodes p /\ h !! c' = Some cn'
                    /\ visits cn' = O) ->
  best_scored h score p c ->
  exists cn, h !! c = Some cn /\ visits cn = O.
Proof.
  intros Hun Hinf (a' & c' & cn' & Hin' & Hc' & Hv')
    (a & cn & u & Hin & Hc & Hu & Hmax).
  exists cn. split; [done |]. apply Hinf.
  specialize (Hmax a' c' cn' PosInf Hin' Hc' (Hun cn' Hv')).
  by destruct u.
Qed.

(** C4.  A node of no visits is scored plus infinity by both variants;
    and where a node has an unvisited child, the child both selections
    move to is an unvisited one, whatever the win rates of the visited
    children.  The children are nodes of the tree and none has more
    visits than the node, as in every tree the search builds. *)
Theorem unvisited_child_selected {State Action : Type}
    (board : Board State Action) (h : heap Action) (p : MCTSNode Action)
    (identity : Z) :
  children_linked h p ->
  (forall a c cn, (a, c) ∈ child_nodes p -> h !! c = Some cn ->
     (visits cn <= visits p)%nat) ->
  (exists a c cn, (a, c) ∈ child_nodes p /\ h !! c = Some cn /\ visits cn = O) ->
  (forall n q : MCTSNode Action, visits n = O ->
     Vanilla.ucb n q identity = Ok PosInf
     /\ Modified.ucb board n q identity = Ok PosInf)
  /\ (exists c a cn, Vanilla.select_child h p identity = Ok (c, a)
                     /\ h !! c = Some cn /\ visits cn = O)
  /\ (exists c a cn, Modified.select_child board h p identity = Ok (c, a)
                     /\ h !! c = Some cn /\ visits cn = O).
Proof.
  intros Hlinked Hvisits Hun.
  assert (Hne : child_nodes p <> []).
  { destruct Hun as (a & c & _ & Hin & _). intros Hnil. rewrite Hnil in Hin.
    by apply elem_of_nil in Hin. }
  split; [| split].
  - intros n q Hn. split;
      [by apply vanilla_ucb_unvisited | by apply modified_ucb_unvisited].
  - set (score := fun cn : MCTSNode Action => Vanilla.ucb cn p identity).
    destruct (vanilla_select_child_spec h p identity Hne Hlinked)
      as (c & a & cn & Hsel & Hbest & Hc & _).
    + apply scorable_within_visits; [done | done |].
      intros cn Hcn. by apply vanilla_ucb_scores.
    + intros cn u. apply vanilla_ucb_not_neginf.
    + destruct (best_scored_unvisited h score p c) as (cn' & Hc' & Hv);
        [by intros; apply vanilla_ucb_unvisited
        | by intros; eapply vanilla_ucb_inf | done | done |].
      by exists c, a, cn'.
  - set (score := fun cn : MCTSNode Action => Modified.ucb board cn p identity).
    destruct (modified_select_child_spec board h p identity Hne Hlinked)
      as (c & a & cn & Hsel & Hbest & Hc & _).
    + apply scorable_within_visits; [done | done |].
      intros cn Hcn. by apply modified_ucb_scores.
    + destruct (best_scored_unvisited h score p c) as (cn' & Hc' & Hv);
        [by intros; apply modified_ucb_unvisited
        | by intros; eapply modified_ucb_inf | done | done |].
      by exists c, a, cn'.
Qed.

Lemma sample_root_linked : children_linked sample_heap sample_root.
Proof.
  intros a c Hin. simpl in Hin.
  repeat (apply elem_of_cons in Hin as [[= -> ->] | Hin]).
  - by eexists _, _.
  - by eexists _, _.
  - by apply elem_of_nil in Hin.
Defined.

Lemma unvisited_child_selected_witness :
  (forall n q : MCTSNode nat, visits n = O ->
     Vanilla.ucb n q 1 = Ok PosInf /\ Modified.ucb toy n q 1 = Ok PosInf)
  /\ (exists c a cn, Vanilla.select_child sample_heap sample_root 1 = Ok (c, a)
                     /\ sample_heap !! c = Some cn /\ visits cn = O)
  /\ (exists c a cn, Modified.select_child toy sample_heap sample_root 1 = Ok (c, a)
                     /\ sample_heap !! c = Some cn /\ visits cn = O).
Proof.
  apply (unvisited_child_selected toy sample_heap sample_root 1).
  - exact sample_root_linked.
  - intros a c cn Hin. simpl in Hin.
    repeat (apply elem_of_cons in Hin as [[= -> ->] | Hin]).
    + intros [= <-]. simpl. lia.
    + intros [= <-]. simpl. lia.
    + by apply elem_of_nil in Hin.
  - exists 2%nat, 2%nat, (new_node (Some O) (Some 2%nat) []).
    split; [| split; reflexivity].
    simpl. apply elem_of_cons. right. apply elem_of_cons. by left.
Defined.

(** C5.  On a tree that stands in [tree_inv] to the board, from a node
    and the state it was created for, both traversals return within as
    many steps as the arena has nodes; the node returned is in the tree,
    the game has ended at the state returned or the node has an untried
    action, and the way there goes from child to child of best UCB
    score, the state advancing by the child's [parent_action]. *)
Theorem traverse_nodes_reaches_expandable {State Action : Type}
    `{EqDecision Action} (board : Board State Action)
    (h : heap Action) (sts : list State) (root : nat) (n : MCTSNode Action)
    (state : State) (identity : Z) (fuel : nat) :
  (forall s, is_ended board s = false -> legal_actions board s <> []) ->
  tree_inv board h sts ->
  h !! root = Some n -> sts !! root = Some state ->
  (length h <= fuel)%nat ->
  (exists node s nd,
     Vanilla.traverse_nodes board fuel h root state identity = Ok (node, s)
     /\ h !! node = Some nd
     /\ (is_ended board s = true \/ untried_actions nd <> [])
     /\ descends board h (fun p c => Vanilla.ucb c p identity)
          (root, state) (node, s))
  /\ (exists node s nd,
     Modified.traverse_nodes board fuel h root state identity = Ok (node, s)
     /\ h !! node = Some nd
     /\ (is_ended board s = true \/ untried_actions nd <> [])
     /\ descends board h (fun p c => Modified.ucb board c p identity)
          (root, state) (node, s)).
Proof.
  intros Hmoves Hinv Hn Hs Hfuel. split.
  - rewrite vanilla_traverse_descend.
    set (score := fun (i : Z) (p c : MCTSNode Action) => Vanilla.ucb c p i).
    assert (Hin : forall (h : heap Action) (n : MCTSNode Action) (i : Z)
                    (c : nat) (a : Action),
              Vanilla.select_child h n i = Ok (c, a) ->
              exists a0 cn, (a0, c) ∈ child_nodes n /\ h !! c = Some cn
                            /\ parent_action cn = Some a)
      by (intros; by eapply vanilla_select_child_in).
    assert (Hbest : forall (h : heap Action) (n : MCTSNode Action) (i : Z),
              child_nodes n <> [] -> children_linked h n ->
              scorable h (score i n) (child_nodes n) ->
              selects h (score i n) n (Vanilla.select_child h n i)).
    { intros h0 n0 i Hne Hl Hsc. apply vanilla_select_child_spec; try done.
      intros cn u. apply vanilla_ucb_not_neginf. }
    destruct (descend_total board Vanilla.select_child score Hbest
                (fun i p c => vanilla_ucb_scores i p c)
                h sts identity Hinv Hmoves fuel root state n Hn Hs)
      as (node & s & Hrun & Hpath); [lia |].
    destruct (descend_sound board Vanilla.select_child Hin h sts identity Hinv
                fuel root state node s Hs Hrun) as (_ & nd & Hnd & Hstop).
    by exists node, s, nd.
  - rewrite modified_traverse_descend.
    set (score := fun (i : Z) (p c : MCTSNode Action) => Modified.ucb board c p i).
    assert (Hin : forall (h : heap Action) (n : MCTSNode Action) (i : Z)
                    (c : nat) (a : Action),
              Modified.select_child board h n i = Ok (c, a) ->
              exists a0 cn, (a0, c) ∈ child_nodes n /\ h !! c = Some cn
                            /\ parent_action cn = Some a)
      by (intros; by eapply modified_select_child_in).
    assert (Hbest : forall (h : heap Action) (n : MCTSNode Action) (i : Z),
              child_nodes n <> [] -> children_linked h n ->
              scorable h (score i n) (child_nodes n) ->
              selects h (score i n) n (Modified.select_child board h n i)).
    { intros h0 n0 i Hne Hl Hsc. by apply modified_select_child_spec. }
    destruct (descend_total board (Modified.select_child board) score Hbest
                (fun i p c => modified_ucb_scores board i p c)
                h sts identity Hinv Hmoves fuel root state n Hn Hs)
      as (node & s & Hrun & Hpath); [lia |].
    destruct (descend_sound board (Modified.select_child board) Hin h sts
                identity Hinv fuel root state node s Hs Hrun)
      as (_ & nd & Hnd & Hstop).
    by exists node, s, nd.
Qed.

Lemma toy_has_moves (s : nat) :
  is_ended toy s = false -> legal_actions toy s <> [].
Proof. do 6 (destruct s as [| s]; [done |]). done. Defined.

Lemma deep_tree_inv : tree_inv toy deep_heap deep_states.
Proof.
  split; [reflexivity |]. intros i n s Hn Hs.
  destruct i as [| [| [| i]]]; simpl in Hn, Hs; try done;
    injection Hn as <-; injection Hs as <-;
    (split; [done |]); (split; [| by intros p [= <-]; lia]);
    intros a c Hin; simpl in Hin; try (by apply elem_of_nil in Hin).
  repeat (apply elem_of_cons in Hin as [[= -> ->] | Hin]).
  - split; [lia |]. eexists. repeat split; simpl; lia.
  - split; [lia |]. eexists. repeat split; simpl; lia.
  - by apply elem_of_nil in Hin.
Defined.

Lemma traverse_nodes_reaches_expandable_witness :
  (exists node s nd,
     Vanilla.traverse_nodes toy 3 deep_heap O 5%nat 2 = Ok (node, s)
     /\ deep_heap !! node = Some nd
     /\ (is_ended toy s = true \/ untried_actions nd <> [])
     /\ descends toy deep_heap (fun p c => Vanilla.ucb c p 2)
          (O, 5%nat) (node, s))
  /\ (exists node s nd,
     Modified.traverse_nodes toy 3 deep_heap O 5%nat 2 = Ok (node, s)
     /\ deep_heap !! node = Some nd
     /\ (is_ended toy s = true \/ untried_actions nd <> [])
     /\ descends toy deep_heap (fun p c => Modified.ucb toy c p 2)
          (O, 5%nat) (node, s)).
Proof.
  eapply (traverse_nodes_reaches_expandable toy deep_heap deep_states O).
  - exact toy_has_moves.
  - exact deep_tree_inv.
  - reflexivity.
  - reflexivity.
  - simpl. lia.
Defined.

(** ** The tree against the board, kept by the search *)

Section TreeInv.
Context {State Action : Type} `{EqDecision Action}.
Variable board : Board State Action.
Implicit Types (h : heap Action) (sts : list State) (n : MCTSNode Action).

(** A node whose lists and parent stay, among children that keep their
    links and stay within its visits, keeps its invariant. *)
Lemma node_inv_frame h sts h' sts' i n n' (s : State) :
  node_inv board h sts i n s ->
  child_nodes n' = child_nodes n ->
  untried_actions n' = untried_actions n ->
  parent n' = parent n ->
  (forall a c cn, (a, c) ∈ child_nodes n -> h !! c = Some cn ->
     parent cn = Some i ->
     exists cn', h' !! c = Some cn' /\ parent cn' = parent cn
       /\ parent_action cn' = parent_action cn
       /\ ((visits cn <= visits n)%nat -> (visits cn' <= visits n')%nat)) ->
  (forall c sc, sts !! c = Some sc -> sts' !! c = Some sc) ->
  node_inv board h' sts' i n' s.
Proof.
  intros (Hperm & Hkids & Hpar) Hc Hu Hp Hheap Hsts.
  split; [by rewrite Hc, Hu |]. split; [| by rewrite Hp].
  intros a c Hin. rewrite Hc in Hin.
  destruct (Hkids a c Hin) as (Hlt & cn & Hcn & Hpc & Hac & Hsc & Hv).
  split; [done |].
  destruct (Hheap a c cn Hin Hcn Hpc) as (cn' & Hcn' & Hpc' & Hac' & Hv').
  exists cn'. rewrite Hpc', Hac'. repeat split; auto.
Qed.

Lemma fresh_root_inv (state : State) :
  tree_inv board [new_node None None (legal_actions board state)] [state].
Proof.
  split; [done |]. intros i n s Hn Hs.
  destruct i as [| i]; [| done]. injection Hn as <-. injection Hs as <-.
  split; [done |]. split; [| done].
  intros a c Hin. by apply elem_of_nil in Hin.
Qed.

Hypothesis Hnodup : forall s, NoDup (legal_actions board s).

Lemma tree_inv_counts h sts i n (s : State) :
  tree_inv board h sts -> h !! i = Some n -> sts !! i = Some s ->
  (length (child_nodes n) + length (untried_actions n)
     = length (legal_actions board s))%nat
  /\ NoDup (child_nodes n).*1
  /\ NoDup (untried_actions n)
  /\ (forall a, a ∈ (child_nodes n).*1 -> a ∉ untried_actions n).
Proof.
  intros [_ Hnodes] Hn Hs. destruct (Hnodes i n s Hn Hs) as (Hperm & _).
  pose proof (Hnodup s) as Hnd. rewrite <- Hperm in Hnd.
  apply NoDup_app in Hnd as (Hk & Hdisj & Hu).
  split; [| done].
  apply Permutation_length in Hperm.
  by rewrite length_app, length_fmap in Hperm.
Qed.

(** Expansion keeps the tree against the board: the arena grows by the
    child, created for the successor state. *)
Lemma tree_inv_expand h sts node (s : State) (r : rng) h1 node1 s1 r1 :
  tree_inv board h sts ->
  is_Some (h !! node) -> sts !! node = Some s ->
  expand_leaf board h node s r = Ok (h1, node1, s1, r1) ->
  exists sts', tree_inv board h1 (sts ++ sts')
    /\ is_Some (h1 !! node1) /\ (sts ++ sts') !! node1 = Some s1.
Proof.
  intros Hinv [n Hn] Hs. unfold expand_leaf.
  rewrite (deref_some _ _ _ Hn). simpl.
  destruct (is_ended board s || bool_decide (untried_actions n = []))
    eqn:Hstop.
  { intros [= <- <- <- <-]. exists []. rewrite app_nil_r. by eauto. }
  apply orb_false_elim in Hstop as [Hend Hun].
  apply bool_decide_eq_false in Hun.
  destruct (choice_elem (untried_actions n) r Hun) as (action & -> & Hact).
  simpl. intros [= <- <- <- <-].
  set (s1 := next_state board s action).
  set (n' := {| parent := parent n; parent_action := parent_action n;
                child_nodes := dict_set action (length h) (child_nodes n);
                untried_actions := list_remove action (untried_actions n);
                wins := wins n; visits := visits n |}).
  set (cn := new_node (Some node) (Some action) (legal_actions board s1)).
  pose proof Hinv as [Hlen Hnodes].
  assert (Hlt : (node < length h)%nat) by by eapply lookup_lt_Some.
  destruct (tree_inv_counts h sts node n s Hinv Hn Hs)
    as (_ & _ & _ & Hdisj).
  assert (Hfresh : action ∉ (child_nodes n).*1)
    by (intros Hk; by apply (Hdisj action)).
  assert (Hkids' : child_nodes n' = child_nodes n ++ [(action, length h)])
    by by apply dict_set_fresh.
  assert (Hnew : (<[node := n']> h ++ [cn]) !! length h = Some cn).
  { rewrite lookup_app_r by (by rewrite length_insert).
    by rewrite length_insert, Nat.sub_diag. }
  assert (Hold : forall c sc, sts !! c = Some sc ->
                   (sts ++ [s1]) !! c = Some sc)
    by (intros c sc Hc; by apply lookup_app_l_Some).
  assert (Hkeep : forall j nj, h !! j = Some nj ->
            exists nj', (<[node := n']> h ++ [cn]) !! j = Some nj'
              /\ parent nj' = parent nj /\ parent_action nj' = parent_action nj
              /\ visits nj' = visits nj
              /\ (j <> node -> nj' = nj)).
  { intros j nj Hj.
    assert ((j < length h)%nat) by by eapply lookup_lt_Some.
    rewrite lookup_app_l by (by rewrite length_insert).
    destruct (decide (j = node)) as [-> | Hne].
    - rewrite Hn in Hj. injection Hj as <-. exists n'.
      by rewrite list_lookup_insert_eq.
    - exists nj. by rewrite list_lookup_insert_ne. }
  exists [s1]. split; [| split].
  - split; [rewrite !length_app, length_insert; simpl; lia |].
    intros i ni si Hi Hsi.
    destruct (decide (i = length h)) as [-> | Hinew].
    { rewrite Hnew in Hi. injection Hi as <-.
      rewrite lookup_app_r in Hsi by lia.
      rewrite Hlen, Nat.sub_diag in Hsi. injection Hsi as <-.
      split; [done |]. split.
      - intros a c Hin. by apply elem_of_nil in Hin.
      - intros p [= <-]. done. }
    assert (Hilt : (i < length h)%nat).
    { apply lookup_lt_Some in Hi.
      rewrite length_app, length_insert in Hi. simpl in Hi. lia. }
    rewrite lookup_app_l in Hsi by lia.
    rewrite lookup_app_l in Hi by (by rewrite length_insert).
    destruct (decide (i = node)) as [-> | Hne].
    + rewrite list_lookup_insert_eq in Hi by done. injection Hi as <-.
      rewrite Hs in Hsi. injection Hsi as <-.
      destruct (Hnodes node n s Hn Hs) as (Hperm & Hkids & Hpar).
      split; [| split; [| done]].
      * rewrite Hkids', fmap_app. simpl. rewrite <- Hperm.
        rewrite <- app_assoc. simpl. apply Permutation_app_head.
        symmetry. by apply list_remove_Permutation.
      * intros a c Hin. rewrite Hkids' in Hin.
        apply elem_of_app in Hin as [Hin | Hin].
        -- destruct (Hkids a c Hin) as (Hc & cn0 & Hcn0 & Hp0 & Ha0 & Hs0 & Hv0).
           split; [done |].
           destruct (Hkeep c cn0 Hcn0) as (cn1 & Hcn1 & Hp1 & Ha1 & Hv1 & _).
           exists cn1. rewrite Hp1, Ha1, Hv1. repeat split; auto.
        -- apply list_elem_of_singleton in Hin. injection Hin as -> ->.
           split; [done |]. exists cn. repeat split; try done.
           ++ rewrite lookup_app_r by lia. by rewrite Hlen, Nat.sub_diag.
           ++ simpl. lia.
    + rewrite list_lookup_insert_ne in Hi by done.
      eapply node_inv_frame; [by apply (Hnodes i ni si) | done .. | | done].
      intros a c cn0 Hin Hcn0 Hp0.
      destruct (Hkeep c cn0 Hcn0) as (cn1 & Hcn1 & Hp1 & Ha1 & Hv1 & _).
      exists cn1. rewrite Hv1. by repeat split.
  - by exists cn.
  - rewrite lookup_app_r by lia. by rewrite Hlen, Nat.sub_diag.
Qed.
End TreeInv.

Section TreeInvCredit.
Context {State Action : Type} `{EqDecision Action}.
Variable board : Board State Action.
Implicit Types (h : heap Action) (sts : list State) (n : MCTSNode Action).

Lemma ancestry_head h i (l : list nat) : ancestry h i l -> i ∈ l.
Proof. destruct 1; by left. Qed.

Lemma ancestry_parent_closed h i (l : list nat) :
  ancestry h i l ->
  forall j n p, j ∈ l -> h !! j = Some n -> parent n = Some p -> p ∈ l.
Proof.
  induction 1 as [i n0 Hn0 Hp0 | i n0 p0 l Hn0 Hp0 Hl IH];
    intros j n p Hj Hn Hp.
  - apply list_elem_of_singleton in Hj as ->.
    rewrite Hn0 in Hn. injection Hn as <-. by rewrite Hp0 in Hp.
  - apply elem_of_cons in Hj as [-> | Hj].
    + rewrite Hn0 in Hn. injection Hn as <-. rewrite Hp0 in Hp.
      injection Hp as <-. right. by eapply ancestry_head.
    + right. by eapply IH.
Qed.

(** The chain depends on the parent links only. *)
Lemma ancestry_ext h h' i (l : list nat) :
  (forall j, parent <$> h !! j = parent <$> h' !! j) ->
  ancestry h i l -> ancestry h' i l.
Proof.
  intros Hext. induction 1 as [i n Hn Hp | i n p l Hn Hp Hl IH].
  - pose proof (Hext i) as Hi. rewrite Hn in Hi. simpl in Hi.
    destruct (h' !! i) as [n' |] eqn:Hn'; [| done]. simpl in Hi.
    injection Hi as Hi.
    apply (ancestry_root h' i n' Hn'). by rewrite <- Hi.
  - pose proof (Hext i) as Hi. rewrite Hn in Hi. simpl in Hi.
    destruct (h' !! i) as [n' |] eqn:Hn'; [| done]. simpl in Hi.
    injection Hi as Hi.
    apply (ancestry_step h' i n' p l Hn'); [by rewrite <- Hi | done].
Qed.

(** A backpropagation that returns has walked a chain of parents to
    its end. *)
Lemma backpropagate_ok_ancestry (fuel : nat) :
  forall h i (w : R) h',
    backpropagate fuel h (Some i) w = Ok h' ->
    exists l, ancestry h i l /\ (length l <= fuel)%nat.
Proof.
  induction fuel as [| fuel IH]; intros h i w h'; simpl; [done |].
  destruct (deref h i) as [n |] eqn:Hn; simpl; [| done].
  apply deref_ok in Hn.
  destruct (parent n) as [p |] eqn:Hp.
  - intros Hrun. destruct (IH _ _ _ _ Hrun) as (l & Hl & Hlen).
    exists (i :: l). split; [| simpl; lia].
    eapply ancestry_step; [done | done |].
    eapply ancestry_ext; [| done].
    intros j. destruct (decide (j = i)) as [-> | Hne].
    + rewrite list_lookup_insert_eq by (by eapply lookup_lt_Some).
      by rewrite Hn.
    + by rewrite list_lookup_insert_ne.
  - intros _. exists [i]. split; [by eapply ancestry_root | simpl; lia].
Qed.

(** Crediting a chain of parents keeps the tree against the board. *)
Lemma tree_inv_credit h sts i (l : list nat) (w : R) h' :
  tree_inv board h sts ->
  ancestry h i l ->
  length h' = length h ->
  (forall j n, h !! j = Some n ->
     h' !! j = Some (if decide (j ∈ l) then credit w n else n)) ->
  tree_inv board h' sts.
Proof.
  intros [Hlen Hnodes] Hl Hlen' Hall. split; [congruence |].
  intros j n' s Hj Hs.
  assert (Hjlt : (j < length h)%nat)
    by (rewrite <- Hlen'; by eapply lookup_lt_Some).
  apply lookup_lt_is_Some in Hjlt as [n Hn].
  rewrite (Hall j n Hn) in Hj. injection Hj as <-.
  eapply (node_inv_frame board h sts h' sts j n);
    [by apply Hnodes | by destruct (decide (j ∈ l)) .. | | done].
  intros a c cn Hin Hcn Hpc. rewrite (Hall c cn Hcn).
  eexists. split; [done |].
  destruct (decide (c ∈ l)) as [Hcl | Hcl].
  - rewrite decide_True by (by eapply ancestry_parent_closed).
    repeat split; simpl; lia.
  - repeat split; try done. destruct (decide (j ∈ l)); simpl; lia.
Qed.

Lemma tree_inv_backpropagate (fuel : nat) h sts i (w : R) h' :
  tree_inv board h sts ->
  backpropagate fuel h (Some i) w = Ok h' ->
  tree_inv board h' sts /\ length h' = length h.
Proof.
  intros Hinv Hrun.
  destruct (backpropagate_ok_ancestry fuel h i w h' Hrun) as (l & Hl & Hfuel).
  destruct (backpropagate_chain l h i w fuel Hl (ancestry_NoDup h i l Hl) Hfuel)
    as (h2 & Hrun2 & Hlen & Hall).
  rewrite Hrun in Hrun2. injection Hrun2 as <-.
  split; [by eapply tree_inv_credit | done].
Qed.
End TreeInvCredit.

Section SearchInv.
Context {State Action : Type} `{EqDecision Action}.
Variable board : Board State Action.
Hypothesis Hnodup : forall s, NoDup (legal_actions board s).
Implicit Types (h : heap Action) (sts : list State).

Lemma vanilla_traverse_sound (fuel : nat) h sts node (s : State)
    (identity : Z) node' s' :
  tree_inv board h sts -> sts !! node = Some s ->
  Vanilla.traverse_nodes board fuel h node s identity = Ok (node', s') ->
  sts !! node' = Some s' /\ is_Some (h !! node').
Proof.
  intros Hinv Hs. rewrite vanilla_traverse_descend. intros Hrun.
  destruct (descend_sound board Vanilla.select_child
              (fun h n i c a => vanilla_select_child_in h n i c a)
              h sts identity Hinv fuel node s node' s' Hs Hrun)
    as (Hs' & n' & Hn' & _).
  by eauto.
Qed.

Lemma modified_traverse_sound (fuel : nat) h sts node (s : State)
    (identity : Z) node' s' :
  tree_inv board h sts -> sts !! node = Some s ->
  Modified.traverse_nodes board fuel h node s identity = Ok (node', s') ->
  sts !! node' = Some s' /\ is_Some (h !! node').
Proof.
  intros Hinv Hs. rewrite modified_traverse_descend. intros Hrun.
  destruct (descend_sound board (Modified.select_child board)
              (fun h n i c a => modified_select_child_in board h n i c a)
              h sts identity Hinv fuel node s node' s' Hs Hrun)
    as (Hs' & n' & Hn' & _).
  by eauto.
Qed.

(** Selection and rollout leave the tree alone; expansion keeps it
    against the board. *)
Lemma simulate_inv
    (traverse : heap Action -> nat -> State -> Z -> result (nat * State))
    (rollout : State -> rng -> result (State * rng))
    h sts root (state : State) (identity : Z) (r : rng) h1 node final r' :
  (forall node s node' s', sts !! node = Some s ->
     traverse h node s identity = Ok (node', s') ->
     sts !! node' = Some s' /\ is_Some (h !! node')) ->
  tree_inv board h sts -> sts !! root = Some state ->
  simulate board traverse rollout h root state identity r
    = Ok (h1, node, final, r') ->
  exists sts', tree_inv board h1 (sts ++ sts') /\ is_Some (h1 !! node).
Proof.
  intros Hsound Hinv Hs. unfold simulate.
  destruct (traverse h root state identity) as [[nd cs] |] eqn:Htr;
    simpl; [| done].
  destruct (Hsound _ _ _ _ Hs Htr) as [Hcs Hnd].
  destruct (is_ended board cs); simpl.
  - destruct (rollout cs r) as [[fs r2] |]; simpl; [| done].
    intros [= <- <- <- <-]. exists []. by rewrite app_nil_r.
  - destruct (expand_leaf board h nd cs r) as [[[[h2 nd2] cs2] r2] |] eqn:Hex;
      simpl; [| done].
    destruct (rollout cs2 r2) as [[fs r3] |]; simpl; [| done].
    intros [= <- <- <- <-].
    destruct (tree_inv_expand board Hnodup h sts nd cs r h2 nd2 cs2 r2
                Hinv Hnd Hcs Hex) as (sts' & Hinv' & Hnd' & _).
    by exists sts'.
Qed.

Lemma vanilla_iteration_inv (fuel : nat) h sts root (state : State)
    (identity : Z) (r : rng) h' r' :
  tree_inv board h sts -> sts !! root = Some state ->
  Vanilla.think_iteration board fuel h root state identity r = Ok (h', r') ->
  exists sts', tree_inv board h' (sts ++ sts') /\ (length h <= length h')%nat.
Proof.
  intros Hinv Hs. unfold Vanilla.think_iteration.
  destruct (simulate _ _ _ _ _ _ _ _) as [[[[h1 nd] fs] r1] |] eqn:Hsim;
    simpl; [| done].
  destruct (Vanilla.outcome board fs identity) as [w |]; simpl; [| done].
  destruct (backpropagate fuel h1 (Some nd) w) as [h2 |] eqn:Hbp;
    simpl; [| done].
  intros [= <- <-].
  destruct (simulate_inv _ _ h sts root state identity r h1 nd fs r1
              (fun node s node' s' => vanilla_traverse_sound fuel h sts node s
                                        identity node' s' Hinv)
              Hinv Hs Hsim) as (sts' & Hinv1 & _).
  destruct (tree_inv_backpropagate board fuel h1 _ nd w h2 Hinv1 Hbp)
    as [Hinv2 Hlen].
  exists sts'. split; [done |].
  destruct Hinv as [Hl _]. destruct Hinv2 as [Hl2 _].
  rewrite <- Hl, <- Hl2, length_app. lia.
Qed.

Lemma modified_iteration_inv (fuel : nat) h sts root (state : State)
    (identity : Z) (r : rng) h' r' :
  tree_inv board h sts -> sts !! root = Some state ->
  Modified.think_iteration board fuel h root state identity r = Ok (h', r') ->
  exists sts', tree_inv board h' (sts ++ sts') /\ (length h <= length h')%nat.
Proof.
  intros Hinv Hs. unfold Modified.think_iteration.
  destruct (simulate _ _ _ _ _ _ _ _) as [[[[h1 nd] fs] r1] |] eqn:Hsim;
    simpl; [| done].
  destruct (Modified.bot_score board fs identity) as [w |]; simpl; [| done].
  destruct (backpropagate fuel h1 (Some nd) w) as [h2 |] eqn:Hbp;
    simpl; [| done].
  intros [= <- <-].
  destruct (simulate_inv _ _ h sts root state identity r h1 nd fs r1
              (fun node s node' s' => modified_traverse_sound fuel h sts node s
                                        identity node' s' Hinv)
              Hinv Hs Hsim) as (sts' & Hinv1 & _).
  destruct (tree_inv_backpropagate board fuel h1 _ nd w h2 Hinv1 Hbp)
    as [Hinv2 Hlen].
  exists sts'. split; [done |].
  destruct Hinv as [Hl _]. destruct Hinv2 as [Hl2 _].
  rewrite <- Hl, <- Hl2, length_app. lia.
Qed.

Lemma vanilla_loop_inv (fuel num_nodes : nat) :
  forall h sts root (state : State) (identity : Z) (r : rng) h' r',
    tree_inv board h sts -> sts !! root = Some state ->
    Vanilla.think_loop board fuel num_nodes h root state identity r
      = Ok (h', r') ->
    exists sts', tree_inv board h' (sts ++ sts').
Proof.
  induction num_nodes as [| k IH];
    intros h sts root state identity r h' r' Hinv Hs; simpl.
  - intros [= <- <-]. exists []. by rewrite app_nil_r.
  - destruct (Vanilla.think_iteration board fuel h root state identity r)
      as [[h1 r1] |] eqn:Hit; simpl; [| done].
    intros Hloop.
    destruct (vanilla_iteration_inv _ _ _ _ _ _ _ _ _ Hinv Hs Hit)
      as (sts1 & Hinv1 & _).
    destruct (IH h1 (sts ++ sts1) root state identity r1 h' r' Hinv1
                ltac:(by apply lookup_app_l_Some) Hloop) as (sts2 & Hinv2).
    exists (sts1 ++ sts2). by rewrite app_assoc.
Qed.

Lemma modified_loop_inv (fuel num_nodes : nat) :
  forall h sts root (state : State) (identity : Z) (r : rng) h' r',
    tree_inv board h sts -> sts !! root = Some state ->
    Modified.think_loop board fuel num_nodes h root state identity r
      = Ok (h', r') ->
    exists sts', tree_inv board h' (sts ++ sts').
Proof.
  induction num_nodes as [| k IH];
    intros h sts root state identity r h' r' Hinv Hs; simpl.
  - intros [= <- <-]. exists []. by rewrite app_nil_r.
  - destruct (Modified.think_iteration board fuel h root state identity r)
      as [[h1 r1] |] eqn:Hit; simpl; [| done].
    intros Hloop.
    destruct (modified_iteration_inv _ _ _ _ _ _ _ _ _ Hinv Hs Hit)
      as (sts1 & Hinv1 & _).
    destruct (IH h1 (sts ++ sts1) root state identity r1 h' r' Hinv1
                ltac:(by apply lookup_app_l_Some) Hloop) as (sts2 & Hinv2).
    exists (sts1 ++ sts2). by rewrite app_assoc.
Qed.
End SearchInv.

Lemma tree_inv_action_counts {State Action : Type} `{EqDecision Action}
    (board : Board State Action) (h : heap Action) (sts : list State) :
  (forall s, NoDup (legal_actions board s)) ->
  tree_inv board h sts -> action_counts board h sts.
Proof.
  intros Hnodup Hinv i n s Hn Hs.
  destruct (tree_inv_counts board Hnodup h sts i n s Hinv Hn Hs)
    as (Hcount & Hk & _ & Hdisj).
  done.
Qed.

(** C8.  Let the board list the legal actions of a state without
    duplicates and let the tree stand in [tree_inv] to it, [sts] giving
    every node the state it was created for.  Then an expansion, a
    backpropagation and any number of iterations of [think] in either
    file (selection and rollout return no tree) leave a tree in which
    every node, old or new, has [len(children) + len(untried_actions)]
    equal to the number of legal actions of the state it was created
    for, with the keys of the children apart from the untried actions;
    the states of the old nodes are the ones they had. *)
Theorem action_count_kept_by_search {State Action : Type} `{EqDecision Action}
    (board : Board State Action) (h : heap Action) (sts : list State) :
  (forall s, NoDup (legal_actions board s)) ->
  tree_inv board h sts ->
  action_counts board h sts
  /\ (forall node s r h1 node1 s1 r1,
       is_Some (h !! node) -> sts !! node = Some s ->
       expand_leaf board h node s r = Ok (h1, node1, s1, r1) ->
       exists sts', tree_inv board h1 (sts ++ sts')
                    /\ action_counts board h1 (sts ++ sts'))
  /\ (forall fuel i w h1,
       backpropagate fuel h (Some i) w = Ok h1 ->
       tree_inv board h1 sts /\ action_counts board h1 sts)
  /\ (forall fuel num_nodes root state identity r h1 r1,
       sts !! root = Some state ->
       Vanilla.think_loop board fuel num_nodes h root state identity r
         = Ok (h1, r1)
       \/ Modified.think_loop board fuel num_nodes h root state identity r
         = Ok (h1, r1) ->
       exists sts', tree_inv board h1 (sts ++ sts')
                    /\ action_counts board h1 (sts ++ sts')).
Proof.
  intros Hnodup Hinv. split; [by apply tree_inv_action_counts |].
  split; [| split].
  - intros node s r h1 node1 s1 r1 Hnode Hs Hex.
    destruct (tree_inv_expand board Hnodup h sts node s r h1 node1 s1 r1
                Hinv Hnode Hs Hex) as (sts' & Hinv' & _).
    exists sts'. split; [done | by apply tree_inv_action_counts].
  - intros fuel i w h1 Hbp.
    destruct (tree_inv_backpropagate board fuel h sts i w h1 Hinv Hbp)
      as [Hinv' _].
    split; [done | by apply tree_inv_action_counts].
  - intros fuel num_nodes root state identity r h1 r1 Hs [Hloop | Hloop].
    + destruct (vanilla_loop_inv board Hnodup fuel num_nodes h sts root state
                  identity r h1 r1 Hinv Hs Hloop) as (sts' & Hinv').
      exists sts'. split; [done | by apply tree_inv_action_counts].
    + destruct (modified_loop_inv board Hnodup fuel num_nodes h sts root state
                  identity r h1 r1 Hinv Hs Hloop) as (sts' & Hinv').
      exists sts'. split; [done | by apply tree_inv_action_counts].
Qed.

Lemma toy_legal_NoDup (s : nat) : NoDup (legal_actions toy s).
Proof.
  do 6 (destruct s as [| s]; [by apply (bool_decide_unpack _) |]).
  apply NoDup_nil_2.
Defined.

Lemma action_count_kept_by_search_witness :
  let h := [new_node None None (legal_actions toy O)] in
  let sts := [O] in
  action_counts toy h sts
  /\ (forall node s r h1 node1 s1 r1,
       is_Some (h !! node) -> sts !! node = Some s ->
       expand_leaf toy h node s r = Ok (h1, node1, s1, r1) ->
       exists sts', tree_inv toy h1 (sts ++ sts')
                    /\ action_counts toy h1 (sts ++ sts'))
  /\ (forall fuel i w h1,
       backpropagate fuel h (Some i) w = Ok h1 ->
       tree_inv toy h1 sts /\ action_counts toy h1 sts)
  /\ (forall fuel num_nodes root state identity r h1 r1,
       sts !! root = Some state ->
       Vanilla.think_loop toy fuel num_nodes h root state identity r
         = Ok (h1, r1)
       \/ Modified.think_loop toy fuel num_nodes h root state identity r
         = Ok (h1, r1) ->
       exists sts', tree_inv toy h1 (sts ++ sts')
                    /\ action_counts toy h1 (sts ++ sts')).
Proof.
  intros h sts.
  apply (action_count_kept_by_search toy h sts).
  - exact toy_legal_NoDup.
  - exact (fresh_root_inv toy O).
Defined.

(** The search of the small game from state 0 does return: three
    iterations expand the three moves. *)
Lemma toy_search_returns :
  (exists h r, Vanilla.think_loop toy 3 3 [new_node None None (legal_actions toy O)]
                 O O 1 zero_rng = Ok (h, r) /\ length h = 4%nat)
  /\ (exists h r, Modified.think_loop toy 3 3 [new_node None None (legal_actions toy O)]
                    O O 1 zero_rng = Ok (h, r) /\ length h = 4%nat).
Proof. split; eexists _, _; split; vm_compute; reflexivity. Qed.


(** * Further properties of the code *)

(** ** Rollout *)

Lemma choice_ok {A : Type} (l : list A) (r r' : rng) (x : A) :
  choice l r = Ok (x, r') -> x ∈ l /\ r' = rng_next r.
Proof.
  unfold choice. destruct (l !! _) as [y |] eqn:Hy; [| done].
  intros [= <- <-]. split; [by eapply list_elem_of_lookup_2 | done].
Qed.

Lemma choice_empty {A : Type} (r : rng) : choice (@nil A) r = Err IndexError.
Proof. done. Qed.

Section RolloutFacts.
Context {State Action : Type} `{EqDecision Action}.
Variable board : Board State Action.

Lemma vanilla_rollout_sound (fuel : nat) :
  forall (s s' : State) (r r' : rng),
    Vanilla.rollout board fuel s r = Ok (s', r') ->
    is_ended board s' = true /\ plays board s s'.
Proof.
  induction fuel as [| fuel IH]; intros s s' r r'; simpl;
    destruct (is_ended board s) eqn:Hend;
    try (intros [= <- <-]; split; [done | apply plays_here]);
    destruct (Vanilla.winning_state board s (legal_actions board s))
      as [[w |] |] eqn:Hw; simpl; try done;
    try (intros [= <- <-];
         destruct (vanilla_winning_state_some board s w _ Hw)
           as (m & Hin & -> & Hwend & _);
         split; [done | by eapply plays_move; [| | apply plays_here]]);
    destruct (choice (legal_actions board s) r) as [[a r1] |] eqn:Hch;
    simpl; try done.
  intros Hrun. apply choice_ok in Hch as [Hin _].
  destruct (IH _ _ _ _ Hrun) as [Hs' Hplay].
  split; [done | by eapply plays_move].
Qed.

Lemma modified_winning_move_some (s : State) (moves : list Action) (m : Action) :
  Modified.winning_move board s moves = Some m ->
  m ∈ moves /\ is_ended board (next_state board s m) = true.
Proof.
  unfold Modified.winning_move. intros Hf. apply find_some in Hf as [Hin Hm].
  split; [by apply list_elem_of_In | done].
Qed.

Lemma modified_rollout_sound (fuel : nat) :
  forall (s s' : State) (r r' : rng),
    Modified.rollout board fuel s r = Ok (s', r') ->
    is_ended board s' = true /\ plays board s s'.
Proof.
  induction fuel as [| fuel IH]; intros s s' r r'; simpl;
    destruct (is_ended board s) eqn:Hend;
    try (intros [= <- <-]; split; [done | apply plays_here]).
  - destruct (match Modified.winning_move board s (legal_actions board s) with
              | Some m => _ | None => _ end) as [[a r1] |]; done.
  - destruct (Modified.winning_move board s (legal_actions board s))
      as [m |] eqn:Hm.
    + apply modified_winning_move_some in Hm as [Hin _].
      destruct (truthy board m).
      * simpl. intros Hrun. destruct (IH _ _ _ _ Hrun) as [Hs' Hplay].
        split; [done | by eapply plays_move].
      * destruct (choice (legal_actions board s) r) as [[a r1] |] eqn:Hch;
          simpl; [| done].
        intros Hrun. apply choice_ok in Hch as [Hina _].
        destruct (IH _ _ _ _ Hrun) as [Hs' Hplay].
        split; [done | by eapply plays_move].
    + destruct (choice (legal_actions board s) r) as [[a r1] |] eqn:Hch;
        simpl; [| done].
      intros Hrun. apply choice_ok in Hch as [Hina _].
      destruct (IH _ _ _ _ Hrun) as [Hs' Hplay].
      split; [done | by eapply plays_move].
Qed.
End RolloutFacts.

(** X1.  A rollout that returns, in either file, returns a state at
    which the game has ended and which a play of legal actions reaches
    from the state it was given. *)
Theorem rollout_returns_ended_play {State Action : Type} `{EqDecision Action}
    (board : Board State Action) (fuel : nat) (s s' : State) (r r' : rng) :
  Vanilla.rollout board fuel s r = Ok (s', r')
  \/ Modified.rollout board fuel s r = Ok (s', r') ->
  is_ended board s' = true /\ plays board s s'.
Proof.
  intros [Hrun | Hrun];
    [by eapply vanilla_rollout_sound | by eapply modified_rollout_sound].
Qed.

Lemma rollout_returns_ended_play_witness :
  is_ended toy 3%nat = true /\ plays toy 4%nat 3%nat.
Proof.
  apply (rollout_returns_ended_play toy 1 4%nat 3%nat zero_rng zero_rng).
  left. reflexivity.
Defined.

Lemma rollout_total_aux {State Action : Type} `{EqDecision Action}
    (board : Board State Action) (rank : State -> nat) :
  (forall s a, is_ended board s = false -> a ∈ legal_actions board s ->
     (rank (next_state board s a) < rank s)%nat) ->
  (forall s, is_ended board s = false -> legal_actions board s <> []) ->
  (forall s s', is_ended board s' = true ->
     is_Some (points_for board s' (current_player board s))) ->
  forall (fuel : nat) (s : State) (r : rng),
    (rank s <= fuel)%nat ->
    (exists s' r', Vanilla.rollout board fuel s r = Ok (s', r'))
    /\ (exists s' r', Modified.rollout board fuel s r = Ok (s', r')).
Proof.
  intros Hrank Hmoves Hpoints fuel.
  induction fuel as [| fuel IH]; intros s r Hfuel.
  - assert (Hend : is_ended board s = true).
    { destruct (is_ended board s) eqn:Hend; [done |].
      destruct (legal_actions board s) as [| a l] eqn:Hl;
        [by destruct (Hmoves s Hend) |].
      pose proof (Hrank s a Hend ltac:(rewrite Hl; by left)). lia. }
    simpl. rewrite Hend. split; by eauto.
  - simpl. destruct (is_ended board s) eqn:Hend; [split; by eauto |].
    destruct (choice_elem (legal_actions board s) r (Hmoves s Hend))
      as (a & Hch & Hin).
    assert (Hnext : forall m, m ∈ legal_actions board s ->
              (rank (next_state board s m) <= fuel)%nat).
    { intros m Hm. pose proof (Hrank s m Hend Hm). lia. }
    split.
    + destruct (vanilla_winning_state_total board s (legal_actions board s))
        as [[w |] ->]; [by intros; apply Hpoints | by simpl; eauto |].
      simpl. rewrite Hch. simpl. apply IH. by apply Hnext.
    + destruct (Modified.winning_move board s (legal_actions board s))
        as [m |] eqn:Hm.
      * apply modified_winning_move_some in Hm as [Hmin _].
        destruct (truthy board m); simpl.
        -- apply IH. by apply Hnext.
        -- rewrite Hch. simpl. apply IH. by apply Hnext.
      * rewrite Hch. simpl. apply IH. by apply Hnext.
Qed.

(** X2.  On a board whose plays are bounded (a rank that every legal
    action lowers), whose unfinished states have a legal action and
    which has points for the players to move at every ended state, a
    rollout in either file returns once the fuel reaches the rank of
    the state. *)
Theorem rollout_terminates {State Action : Type} `{EqDecision Action}
    (board : Board State Action) (rank : State -> nat) :
  (forall s a, is_ended board s = false -> a ∈ legal_actions board s ->
     (rank (next_state board s a) < rank s)%nat) ->
  (forall s, is_ended board s = false -> legal_actions board s <> []) ->
  (forall s s', is_ended board s' = true ->
     is_Some (points_for board s' (current_player board s))) ->
  forall (fuel : nat) (s : State) (r : rng),
    (rank s <= fuel)%nat ->
    (exists s' r', Vanilla.rollout board fuel s r = Ok (s', r'))
    /\ (exists s' r', Modified.rollout board fuel s r = Ok (s', r')).
Proof. apply rollout_total_aux. Qed.

Lemma countdown_rank (s a : nat) :
  is_ended countdown s = false -> a ∈ legal_actions countdown s ->
  (next_state countdown s a < s)%nat.
Proof.
  destruct s as [| [| s]]; [done | |]; simpl; intros _ Hin;
    repeat (apply elem_of_cons in Hin as [-> | Hin]; [lia |]);
    by apply elem_of_nil in Hin.
Defined.

Lemma countdown_moves (s : nat) :
  is_ended countdown s = false -> legal_actions countdown s <> [].
Proof. by destruct s as [| [| s]]. Defined.

Lemma countdown_points (s s' : nat) :
  is_ended countdown s' = true ->
  is_Some (points_for countdown s' (current_player countdown s)).
Proof.
  destruct s' as [| s']; [| done]. intros _.
  unfold points_for. simpl. by destruct (Nat.even s).
Defined.

Lemma countdown_NoDup (s : nat) : NoDup (legal_actions countdown s).
Proof.
  destruct s as [| [| s]]; simpl.
  - apply NoDup_nil_2.
  - apply NoDup_singleton.
  - by apply (bool_decide_unpack _).
Defined.

Lemma rollout_terminates_witness :
  (exists s' r', Vanilla.rollout countdown 5 5%nat zero_rng = Ok (s', r'))
  /\ (exists s' r', Modified.rollout countdown 5 5%nat zero_rng = Ok (s', r')).
Proof.
  apply (rollout_terminates countdown (fun s => s)
           countdown_rank countdown_moves countdown_points 5 5%nat zero_rng).
  lia.
Defined.

Lemma vanilla_rollout_takes_win_witness :
  exists w, is_ended toy w = true
    /\ points_for toy w (current_player toy O) = Some 1%Z
    /\ forall fuel r, Vanilla.rollout toy fuel O r = Ok (w, r).
Proof.
  apply (vanilla_rollout_takes_win toy O).
  - reflexivity.
  - intros m Hin _. simpl in Hin.
    repeat (apply elem_of_cons in Hin as [-> | Hin]; [by eexists |]).
    by apply elem_of_nil in Hin.
  - exists 2%nat. split; [| split; reflexivity].
    simpl. apply elem_of_cons. right. apply elem_of_cons. by left.
Defined.

(** X3.  At a state where the game goes on but no action is legal, the
    rollout of either file ends in the [IndexError] of [choice] on the
    empty list. *)
Theorem rollout_without_moves_raises {State Action : Type} `{EqDecision Action}
    (board : Board State Action) (fuel : nat) (s : State) (r : rng) :
  is_ended board s = false -> legal_actions board s = [] ->
  Vanilla.rollout board fuel s r = Err IndexError
  /\ Modified.rollout board fuel s r = Err IndexError.
Proof.
  intros Hend Hl. unfold Modified.rollout, Vanilla.rollout.
  destruct fuel; simpl; rewrite Hend, Hl; done.
Qed.

Lemma rollout_without_moves_raises_witness :
  Vanilla.rollout unending 3 O zero_rng = Err IndexError
  /\ Modified.rollout unending 3 O zero_rng = Err IndexError.
Proof.
  apply (rollout_without_moves_raises unending 3 O zero_rng); reflexivity.
Defined.

Lemma find_first {A : Type} (f : A -> bool) (l1 l2 : list A) (m : A) :
  (forall x, x ∈ l1 -> f x = false) -> f m = true ->
  List.find f (l1 ++ m :: l2) = Some m.
Proof.
  intros Hl1 Hm. induction l1 as [| x l1 IH]; simpl; [by rewrite Hm |].
  rewrite (Hl1 x) by (by left). apply IH. intros y Hy. apply Hl1. by right.
Qed.

(** X4.  The modified rollout looks at no points: where the game goes
    on and [m] is the first legal move whose successor is ended, it
    returns that successor at once if Python counts [m] as true, and
    draws a move from all legal moves, as if none ended the game, if
    not. *)
Theorem modified_rollout_first_ending_move {State Action : Type}
    `{EqDecision Action} (board : Board State Action) (fuel : nat)
    (s : State) (r : rng) (before after : list Action) (m : Action) :
  is_ended board s = false ->
  legal_actions board s = before ++ m :: after ->
  (forall x, x ∈ before -> is_ended board (next_state board s x) = false) ->
  is_ended board (next_state board s m) = true ->
  (truthy board m = true ->
     Modified.rollout board (S fuel) s r = Ok (next_state board s m, r))
  /\ (truthy board m = false ->
      Modified.rollout board (S fuel) s r
      = ('(a, r') ← choice (legal_actions board s) r;
         Modified.rollout board fuel (next_state board s a) r')).
Proof.
  intros Hend Hl Hbefore Hm.
  assert (Hfind : Modified.winning_move board s (legal_actions board s) = Some m).
  { unfold Modified.winning_move. rewrite Hl. by apply find_first. }
  split; intros Htruthy; simpl; rewrite Hend, Hfind, Htruthy.
  - simpl. by destruct fuel; simpl; rewrite Hm.
  - by destruct (choice (legal_actions board s) r) as [[a r'] |].
Qed.

Lemma modified_rollout_first_ending_move_witness :
  (truthy toy 1%nat = true ->
     Modified.rollout toy 1 O zero_rng = Ok (next_state toy O 1%nat, zero_rng))
  /\ (truthy toy 1%nat = false ->
      Modified.rollout toy 1 O zero_rng
      = ('(a, r') ← choice (legal_actions toy O) zero_rng;
         Modified.rollout toy 0 (next_state toy O a) r')).
Proof.
  apply (modified_rollout_first_ending_move toy 0 O zero_rng [] [2; 3]%nat 1%nat).
  - reflexivity.
  - reflexivity.
  - intros x Hx. by apply elem_of_nil in Hx.
  - reflexivity.
Defined.

(** ** The UCB score at its edges *)

(** X6.  A visited child under a parent without visits: both variants
    end in the [ValueError] of [math.log] at zero. *)
Theorem ucb_unvisited_parent_raises {State Action : Type}
    (board : Board State Action) (c p : MCTSNode Action) (identity : Z) :
  (0 < visits c)%nat -> visits p = O ->
  Vanilla.ucb c p identity = Err ValueError
  /\ Modified.ucb board c p identity = Err ValueError.
Proof.
  intros Hc Hp. unfold Vanilla.ucb, Modified.ucb.
  rewrite bool_decide_eq_false_2 by lia. by rewrite Hp.
Qed.

Lemma ucb_unvisited_parent_raises_witness :
  Vanilla.ucb (credit 1 (new_node (Some O) (Some 1%nat) []))
    (new_node None None [2%nat]) 1 = Err ValueError
  /\ Modified.ucb toy (credit 1 (new_node (Some O) (Some 1%nat) []))
    (new_node None None [2%nat]) 1 = Err ValueError.
Proof.
  apply (ucb_unvisited_parent_raises toy); [simpl; lia | reflexivity].
Defined.

(** X7.  The opponent test of the vanilla file is a test of parity: for
    a visited child under a visited parent, identity 1 is scored with
    the plain win rate when the parent's visits are even and identity 2
    when they are odd, the other one with the inverted rate; an
    identity other than 1 and 2 always with the inverted rate. *)
Theorem vanilla_ucb_parity {Action : Type} (c p : MCTSNode Action)
    (identity : Z) :
  (0 < visits c)%nat -> (0 < visits p)%nat ->
  let rate := wins c / INR (visits c) in
  let term := Vanilla.explore_faction
              * sqrt (2 * ln (INR (visits p)) / INR (visits c)) in
  let plain := Ok (Fin (rate + term)) in
  let inverted := Ok (Fin (1 - rate + term)) in
  (Nat.even (visits p) = true ->
     Vanilla.ucb c p 1 = plain /\ Vanilla.ucb c p 2 = inverted)
  /\ (Nat.even (visits p) = false ->
      Vanilla.ucb c p 1 = inverted /\ Vanilla.ucb c p 2 = plain)
  /\ (identity <> 1%Z -> identity <> 2%Z -> Vanilla.ucb c p identity = inverted).
Proof.
  intros Hc Hp rate term plain inverted.
  assert (Hmod : (Z.of_nat (visits p) mod 2
                  = if Nat.even (visits p) then 0 else 1)%Z).
  { destruct (Nat.even (visits p)) eqn:Heven.
    - apply Nat.even_spec in Heven as [k ->]. rewrite Nat2Z.inj_mul.
      rewrite Z.mul_comm. by apply Z.mod_mul.
    - assert (Hodd : Nat.odd (visits p) = true)
        by (by rewrite <- Nat.negb_even, Heven).
      apply Nat.odd_spec in Hodd as [k ->].
      rewrite Nat2Z.inj_add, Nat2Z.inj_mul, Z.add_comm, Z.mul_comm.
      by rewrite Z.mod_add. }
  assert (Hmod2 : (0 <= Z.of_nat (visits p) mod 2 < 2)%Z)
    by (by apply Z.mod_pos_bound).
  unfold plain, inverted, term, rate.
  repeat split; intros;
    rewrite vanilla_ucb_visited by done; unfold vanilla_rate;
    case_bool_decide as Htest; try done; exfalso;
    rewrite Hmod in *; destruct (Nat.even (visits p)); try done; lia.
Qed.

Lemma vanilla_ucb_parity_witness :
  let c := credit 1 (new_node (Some O) (Some 1%nat) (@nil nat)) in
  let p := credit 1 (credit 0 (new_node None None [1%nat])) in
  let rate := wins c / INR (visits c) in
  let term := Vanilla.explore_faction
              * sqrt (2 * ln (INR (visits p)) / INR (visits c)) in
  let plain := Ok (Fin (rate + term)) in
  let inverted := Ok (Fin (1 - rate + term)) in
  (Nat.even (visits p) = true ->
     Vanilla.ucb c p 1 = plain /\ Vanilla.ucb c p 2 = inverted)
  /\ (Nat.even (visits p) = false ->
      Vanilla.ucb c p 1 = inverted /\ Vanilla.ucb c p 2 = plain)
  /\ (3%Z <> 1%Z -> 3%Z <> 2%Z -> Vanilla.ucb c p 3 = inverted).
Proof.
  intros c p. apply (vanilla_ucb_parity c p 3); simpl; lia.
Defined.

(** ** Traversal and expansion at their edges *)

(** X8.  At a node without child and without untried action, at a state
    where the game goes on, the vanilla traversal ends in the
    [AttributeError] of [best_child.parent_action] on [None] and the
    modified one in the [ValueError] of [max] on no children. *)
Theorem traverse_exhausted_leaf_raises {State Action : Type}
    `{EqDecision Action} (board : Board State Action) (fuel : nat)
    (h : heap Action) (node : nat) (n : MCTSNode Action) (s : State)
    (identity : Z) :
  h !! node = Some n ->
  is_ended board s = false ->
  untried_actions n = [] -> child_nodes n = [] ->
  Vanilla.traverse_nodes board fuel h node s identity = Err AttributeError
  /\ Modified.traverse_nodes board fuel h node s identity = Err ValueError.
Proof.
  intros Hn Hend Hu Hc.
  destruct fuel; simpl; rewrite (deref_some _ _ _ Hn); simpl;
    rewrite Hend, Hu; simpl;
    unfold Vanilla.select_child, Modified.select_child; by rewrite Hc.
Qed.

Lemma traverse_exhausted_leaf_raises_witness :
  let h := [new_node None None (legal_actions unending O)] in
  Vanilla.traverse_nodes unending 2 h O O 1 = Err AttributeError
  /\ Modified.traverse_nodes unending 2 h O O 1 = Err ValueError.
Proof.
  intros h.
  apply (traverse_exhausted_leaf_raises unending 2 h O
           (new_node None None (legal_actions unending O)) O 1); reflexivity.
Defined.

(** X9.  No untried action is out of reach of the expansion: where the
    game goes on, for every untried action of the node there is a draw
    of the random source on which [expand_leaf] makes the child of that
    action. *)
Theorem expand_leaf_reaches_every_untried {State Action : Type}
    `{EqDecision Action} (board : Board State Action) (h : heap Action)
    (node : nat) (n : MCTSNode Action) (s : State) (a : Action) :
  h !! node = Some n ->
  is_ended board s = false ->
  a ∈ untried_actions n ->
  exists (r : rng) h' cn,
    expand_leaf board h node s r
      = Ok (h', length h, next_state board s a, rng_next r)
    /\ h' !! length h = Some cn
    /\ parent_action cn = Some a /\ parent cn = Some node.
Proof.
  intros Hn Hend Hin.
  apply list_elem_of_lookup_1 in Hin as [i Hi].
  assert (Hlt : (i < length (untried_actions n))%nat)
    by by eapply lookup_lt_Some.
  exists (fun _ => i). unfold expand_leaf.
  rewrite (deref_some _ _ _ Hn). simpl. rewrite Hend.
  rewrite bool_decide_eq_false_2
    by (intros Hnil; rewrite Hnil in Hlt; simpl in Hlt; lia).
  simpl. unfold choice. rewrite Nat.mod_small by done. rewrite Hi. simpl.
  eexists _, _. split; [reflexivity |]. split.
  - rewrite lookup_app_r by (by rewrite length_insert).
    by rewrite length_insert, Nat.sub_diag.
  - done.
Qed.

Lemma expand_leaf_reaches_every_untried_witness :
  let h := [new_node None None (legal_actions toy O)] in
  exists (r : rng) h' cn,
    expand_leaf toy h O O r = Ok (h', length h, next_state toy O 3%nat, rng_next r)
    /\ h' !! length h = Some cn
    /\ parent_action cn = Some 3%nat /\ parent cn = Some O.
Proof.
  intros h.
  apply (expand_leaf_reaches_every_untried toy h O
           (new_node None None (legal_actions toy O)) O 3%nat).
  - reflexivity.
  - reflexivity.
  - simpl. do 2 (apply elem_of_cons; right). apply elem_of_cons. by left.
Defined.

(** ** [is_win] *)

(** X10.  [is_win] answers false, without an exception, where the board
    has no points, and where [think] of the same file would end in a
    [TypeError]; where [think] finds an outcome to backpropagate, it is
    1 exactly when [is_win] answers true. *)
Theorem is_win_agrees_with_outcome {State Action : Type} `{EqDecision Action}
    (board : Board State Action) (s : State) (identity : Z) :
  (points_values board s = None ->
     Vanilla.is_win board s identity = Ok false
     /\ Vanilla.outcome board s identity = Err TypeError)
  /\ (forall w, Vanilla.outcome board s identity = Ok w ->
       exists b, Vanilla.is_win board s identity = Ok b
                 /\ (b = true <-> w = 1)).
Proof.
  unfold Vanilla.is_win, Vanilla.outcome. split.
  - by intros ->.
  - intros w. destruct (points_values board s) as [pts |]; [| done].
    destruct (pts identity) as [v |]; [| done].
    repeat case_bool_decide; intros [= <-]; eexists; (split; [done |]);
      split; try done; intros; lra.
Qed.

(** ** The final choice of an action *)

(** X11.  With a budget of no iteration [think] has made no child, and
    it ends in the [ValueError] of [max] over the empty dict, in both
    files and at every state. *)
Theorem think_without_budget_raises {State Action : Type} `{EqDecision Action}
    (board : Board State Action) (fuel : nat) (s : State) (r : rng) :
  Vanilla.think board fuel O s r = Err ValueError
  /\ Modified.think board fuel O s r = Err ValueError.
Proof. done. Qed.

Lemma is_win_agrees_with_outcome_witness :
  exists b, Vanilla.is_win toy 2%nat 1 = Ok b /\ (b = true <-> 1 = 1).
Proof.
  apply (proj2 (is_win_agrees_with_outcome toy 2%nat 1) 1). reflexivity.
Defined.

Section BestAction.
Context {Action : Type}.
Variable h : heap Action.

Lemma max_visits_loop_spec (items : list (Action * nat)) :
  (forall a c, (a, c) ∈ items -> is_Some (h !! c)) ->
  forall best bv,
  exists a v,
    max_visits_loop h items best bv = Ok a
    /\ (bv <= v)%nat
    /\ (forall a' c' cn', (a', c') ∈ items -> h !! c' = Some cn' ->
          (visits cn' <= v)%nat)
    /\ ((a = best /\ v = bv)
        \/ exists c cn, (a, c) ∈ items /\ h !! c = Some cn /\ visits cn = v).
Proof.
  induction items as [| [a0 c0] items IH]; intros Hvalid best bv.
  - exists best, bv. split; [done |]. split; [done |]. split; [| by left].
    intros ? ? ? Hin. by apply elem_of_nil in Hin.
  - destruct (Hvalid a0 c0 ltac:(left)) as [cn0 Hcn0].
    assert (Hrest : forall a c, (a, c) ∈ items -> is_Some (h !! c))
      by (intros a c Hin; apply (Hvalid a c); by right).
    simpl. rewrite (deref_some _ _ _ Hcn0). simpl.
    case_bool_decide as Hlt.
    + destruct (IH Hrest a0 (visits cn0)) as (a & v & Hrun & Hle & Hmax & Hsel).
      exists a, v. split; [done |]. split; [lia |]. split.
      * intros a' c' cn' Hin Hc'.
        apply elem_of_cons in Hin as [[= -> ->] | Hin]; [| by eapply Hmax].
        rewrite Hcn0 in Hc'. injection Hc' as <-. done.
      * right. destruct Hsel as [[-> ->] | (c & cn & Hin & Hc & Hv)].
        -- exists c0, cn0. split; [by left | done].
        -- exists c, cn. split; [by right | done].
    + destruct (IH Hrest best bv) as (a & v & Hrun & Hle & Hmax & Hsel).
      exists a, v. split; [done |]. split; [done |]. split.
      * intros a' c' cn' Hin Hc'.
        apply elem_of_cons in Hin as [[= -> ->] | Hin]; [| by eapply Hmax].
        rewrite Hcn0 in Hc'. injection Hc' as <-. lia.
      * destruct Hsel as [[-> ->] | (c & cn & Hin & Hc & Hv)]; [by left |].
        right. exists c, cn. split; [by right | done].
Qed.

Lemma max_visits_spec (items : list (Action * nat)) :
  items <> [] ->
  (forall a c, (a, c) ∈ items -> is_Some (h !! c)) ->
  exists a c cn,
    max_visits h items = Ok a
    /\ (a, c) ∈ items /\ h !! c = Some cn
    /\ forall a' c' cn', (a', c') ∈ items -> h !! c' = Some cn' ->
         (visits cn' <= visits cn)%nat.
Proof.
  destruct items as [| [a0 c0] items]; [done |]. intros _ Hvalid.
  destruct (Hvalid a0 c0 ltac:(left)) as [cn0 Hcn0].
  simpl. rewrite (deref_some _ _ _ Hcn0). simpl.
  destruct (max_visits_loop_spec items
              (fun a c Hin => Hvalid a c ltac:(by right)) a0 (visits cn0))
    as (a & v & Hrun & Hle & Hmax & Hsel).
  destruct Hsel as [[-> ->] | (c & cn & Hin & Hc & <-)].
  - exists a0, c0, cn0. split; [done |]. split; [by left |]. split; [done |].
    intros a' c' cn' Hin Hc'.
    apply elem_of_cons in Hin as [[= -> ->] | Hin]; [| by eapply Hmax].
    rewrite Hcn0 in Hc'. by injection Hc' as <-.
  - exists a, c, cn. split; [done |]. split; [by right |]. split; [done |].
    intros a' c' cn' Hin' Hc'.
    apply elem_of_cons in Hin' as [[= -> ->] | Hin']; [| by eapply Hmax].
    rewrite Hcn0 in Hc'. by injection Hc' as <-.
Qed.

Lemma py_sqrt_INR (v : nat) : py_sqrt (INR v) = Ok (sqrt (INR v)).
Proof. apply py_sqrt_nonneg, pos_INR. Qed.

Lemma best_score_loop_spec (items : list (Action * nat)) :
  (forall a c, (a, c) ∈ items -> is_Some (h !! c)) ->
  forall best bs,
  exists b u,
    Vanilla.best_score_loop h items best bs = Ok b
    /\ float_gt bs u = false
    /\ (forall a' c' cn', (a', c') ∈ items -> h !! c' = Some cn' ->
          (0 < visits cn')%nat -> float_gt (Fin (blended_score cn')) u = false)
    /\ ((b = best /\ u = bs)
        \/ exists a c cn, b = Some a /\ (a, c) ∈ items /\ h !! c = Some cn
             /\ (0 < visits cn)%nat /\ u = Fin (blended_score cn)).
Proof.
  induction items as [| [a0 c0] items IH]; intros Hvalid best bs.
  - exists best, bs. split; [done |]. split; [apply float_gt_irrefl |].
    split; [| by left]. intros ? ? ? Hin. by apply elem_of_nil in Hin.
  - destruct (Hvalid a0 c0 ltac:(left)) as [cn0 Hcn0].
    assert (Hrest : forall a c, (a, c) ∈ items -> is_Some (h !! c))
      by (intros a c Hin; apply (Hvalid a c); by right).
    cbn [Vanilla.best_score_loop]. rewrite (deref_some _ _ _ Hcn0).
    cbn [mbind result_bind].
    case_bool_decide as Hzero.
    { destruct (IH Hrest best bs) as (b & u & Hrun & Hle & Hmax & Hsel).
      exists b, u. split; [done |]. split; [done |]. split.
      - intros a' c' cn' Hin Hc' Hv.
        apply elem_of_cons in Hin as [[= -> ->] | Hin]; [| by eapply Hmax].
        rewrite Hcn0 in Hc'. injection Hc' as <-. lia.
      - destruct Hsel as [? | (a & c & cn & ? & Hin & ?)]; [by left |].
        right. exists a, c, cn. split; [done |]. split; [by right | done]. }
    rewrite py_sqrt_INR. cbn [mbind result_bind]. fold (blended_score cn0).
    destruct (float_gt (Fin (blended_score cn0)) bs) eqn:Hgt.
    + destruct (IH Hrest (Some a0) (Fin (blended_score cn0)))
        as (b & u & Hrun & Hle & Hmax & Hsel).
      exists b, u. split; [done |].
      split; [eapply float_gt_trans_false; [by apply float_gt_asym | done] |].
      split.
      * intros a' c' cn' Hin Hc' Hv.
        apply elem_of_cons in Hin as [[= -> ->] | Hin]; [| by eapply Hmax].
        rewrite Hcn0 in Hc'. by injection Hc' as <-.
      * right. destruct Hsel as [[-> ->] | (a & c & cn & -> & Hin & Hrest')].
        -- exists a0, c0, cn0. split; [done |]. split; [by left |].
           split; [done |]. split; [lia | done].
        -- exists a, c, cn. split; [done |]. split; [by right | done].
    + destruct (IH Hrest best bs) as (b & u & Hrun & Hle & Hmax & Hsel).
      exists b, u. split; [done |]. split; [done |]. split.
      * intros a' c' cn' Hin Hc' Hv.
        apply elem_of_cons in Hin as [[= -> ->] | Hin]; [| by eapply Hmax].
        rewrite Hcn0 in Hc'. injection Hc' as <-.
        by eapply float_gt_trans_false.
      * destruct Hsel as [? | (a & c & cn & ? & Hin & ?)]; [by left |].
        right. exists a, c, cn. split; [done |]. split; [by right | done].
Qed.
End BestAction.

Lemma children_linked_valid {Action : Type} (h : heap Action)
    (n : MCTSNode Action) :
  children_linked h n ->
  forall a c, (a, c) ∈ child_nodes n -> is_Some (h !! c).
Proof.
  intros Hl a c Hin. destruct (Hl a c Hin) as (cn & _ & Hc & _). by exists cn.
Qed.

Lemma max_visits_loop_first {Action : Type} (h : heap Action)
    (items : list (Action * nat)) :
  (forall a c, (a, c) ∈ items -> is_Some (h !! c)) ->
  forall best bv,
  exists a,
    max_visits_loop h items best bv = Ok a
    /\ ((a = best
         /\ forall a' c' cn', (a', c') ∈ items -> h !! c' = Some cn' ->
              (visits cn' <= bv)%nat)
        \/ exists l1 c l2 cn,
             items = l1 ++ (a, c) :: l2 /\ h !! c = Some cn
             /\ (bv < visits cn)%nat
             /\ (forall a1 c1 cn1, (a1, c1) ∈ l1 -> h !! c1 = Some cn1 ->
                   (visits cn1 < visits cn)%nat)
             /\ (forall a2 c2 cn2, (a2, c2) ∈ l2 -> h !! c2 = Some cn2 ->
                   (visits cn2 <= visits cn)%nat)).
Proof.
  induction items as [| [a0 c0] items IH]; intros Hvalid best bv.
  - exists best. split; [done |]. left. split; [done |].
    intros ? ? ? Hin. by apply elem_of_nil in Hin.
  - destruct (Hvalid a0 c0 ltac:(left)) as [cn0 Hcn0].
    assert (Hrest : forall a c, (a, c) ∈ items -> is_Some (h !! c))
      by (intros a c Hin; apply (Hvalid a c); by right).
    simpl. rewrite (deref_some _ _ _ Hcn0). cbn [mbind result_bind].
    case_bool_decide as Hlt.
    + destruct (IH Hrest a0 (visits cn0)) as (a & Hrun & Hcase).
      exists a. split; [done |]. right.
      destruct Hcase as [(-> & Hall)
                        | (l1 & c & l2 & cn & -> & Hcn & Hgt & Hl1 & Hl2)].
      * exists [], c0, items, cn0. split; [done |]. split; [done |].
        split; [done |]. split; [| done].
        intros ? ? ? Hin. by apply elem_of_nil in Hin.
      * exists ((a0, c0) :: l1), c, l2, cn. split; [done |]. split; [done |].
        split; [lia |]. split; [| done].
        intros a1 c1 cn1 Hin Hc1.
        apply elem_of_cons in Hin as [[= -> ->] | Hin]; [| by eapply Hl1].
        rewrite Hcn0 in Hc1. by injection Hc1 as <-.
    + destruct (IH Hrest best bv) as (a & Hrun & Hcase).
      exists a. split; [done |].
      destruct Hcase as [(-> & Hall)
                        | (l1 & c & l2 & cn & -> & Hcn & Hgt & Hl1 & Hl2)].
      * left. split; [done |]. intros a' c' cn' Hin Hc'.
        apply elem_of_cons in Hin as [[= -> ->] | Hin]; [| by eapply Hall].
        rewrite Hcn0 in Hc'. injection Hc' as <-. lia.
      * right. exists ((a0, c0) :: l1), c, l2, cn. split; [done |].
        split; [done |]. split; [done |]. split; [| done].
        intros a1 c1 cn1 Hin Hc1.
        apply elem_of_cons in Hin as [[= -> ->] | Hin]; [| by eapply Hl1].
        rewrite Hcn0 in Hc1. injection Hc1 as <-. lia.
Qed.

(** X12.  [get_best_action] of the modified file, on a node that has
    children, returns the action of the first of the most visited
    children: every child before it in the dict has strictly fewer
    visits, every child after it no more. *)
Theorem modified_best_action_most_visited {Action : Type} (h : heap Action)
    (node : nat) (n : MCTSNode Action) :
  h !! node = Some n ->
  child_nodes n <> [] ->
  children_linked h n ->
  exists l1 a c l2 cn,
    Modified.get_best_action h node = Ok a
    /\ child_nodes n = l1 ++ (a, c) :: l2 /\ h !! c = Some cn
    /\ (forall a1 c1 cn1, (a1, c1) ∈ l1 -> h !! c1 = Some cn1 ->
          (visits cn1 < visits cn)%nat)
    /\ (forall a2 c2 cn2, (a2, c2) ∈ l2 -> h !! c2 = Some cn2 ->
          (visits cn2 <= visits cn)%nat).
Proof.
  intros Hn Hne Hl. unfold Modified.get_best_action.
  rewrite (deref_some _ _ _ Hn). cbn [mbind result_bind].
  pose proof (children_linked_valid h n Hl) as Hvalid.
  destruct (child_nodes n) as [| [a0 c0] items]; [done |].
  destruct (Hvalid a0 c0 ltac:(left)) as [cn0 Hcn0].
  simpl. rewrite (deref_some _ _ _ Hcn0). cbn [mbind result_bind].
  destruct (max_visits_loop_first h items
              (fun a c Hin => Hvalid a c ltac:(by right)) a0 (visits cn0))
    as (a & -> & Hcase).
  destruct Hcase as [(-> & Hall)
                    | (l1 & c & l2 & cn & -> & Hcn & Hgt & Hl1 & Hl2)].
  - exists [], a0, c0, items, cn0. split; [done |]. split; [done |].
    split; [done |]. split; [| done].
    intros ? ? ? Hin. by apply elem_of_nil in Hin.
  - exists ((a0, c0) :: l1), a, c, l2, cn. split; [done |]. split; [done |].
    split; [done |]. split; [| done].
    intros a1 c1 cn1 Hin Hc1.
    apply elem_of_cons in Hin as [[= -> ->] | Hin]; [| by eapply Hl1].
    rewrite Hcn0 in Hc1. by injection Hc1 as <-.
Qed.

Lemma modified_best_action_most_visited_witness :
  exists l1 a c l2 cn,
    Modified.get_best_action deep_heap O = Ok a
    /\ child_nodes deep_root = l1 ++ (a, c) :: l2 /\ deep_heap !! c = Some cn
    /\ (forall a1 c1 cn1, (a1, c1) ∈ l1 -> deep_heap !! c1 = Some cn1 ->
          (visits cn1 < visits cn)%nat)
    /\ (forall a2 c2 cn2, (a2, c2) ∈ l2 -> deep_heap !! c2 = Some cn2 ->
          (visits cn2 <= visits cn)%nat).
Proof.
  apply (modified_best_action_most_visited deep_heap O deep_root).
  - reflexivity.
  - done.
  - intros a c Hin. simpl in Hin.
    repeat (apply elem_of_cons in Hin as [[= -> ->] | Hin]).
    + by eexists _, _.
    + by eexists _, _.
    + by apply elem_of_nil in Hin.
Defined.



(** ** The whole search *)

Section ThinkLegal.
Context {State Action : Type} `{EqDecision Action}.
Variable board : Board State Action.
Hypothesis Hnodup : forall s, NoDup (legal_actions board s).

Lemma tree_inv_linked (h : heap Action) (sts : list State) (i : nat)
    (n : MCTSNode Action) (s : State) :
  tree_inv board h sts -> h !! i = Some n -> sts !! i = Some s ->
  children_linked h n.
Proof.
  intros [_ Hnodes] Hn Hs a c Hin.
  destruct (Hnodes i n s Hn Hs) as (_ & Hkids & _).
  destruct (Hkids a c Hin) as (_ & cn & Hc & _ & Ha & _). by exists cn, a.
Qed.

Lemma tree_inv_child_legal (h : heap Action) (sts : list State) (i : nat)
    (n : MCTSNode Action) (s : State) (a : Action) (c : nat) :
  tree_inv board h sts -> h !! i = Some n -> sts !! i = Some s ->
  (a, c) ∈ child_nodes n -> a ∈ legal_actions board s.
Proof.
  intros [_ Hnodes] Hn Hs Hin.
  destruct (Hnodes i n s Hn Hs) as (Hperm & _).
  rewrite <- Hperm. apply elem_of_app. left.
  apply list_elem_of_fmap. by exists (a, c).
Qed.

(** What [get_best_action] returns, when it returns, is a key of the
    children. *)
Lemma best_action_is_child (h : heap Action) (node : nat)
    (n : MCTSNode Action) (a : Action) :
  h !! node = Some n -> children_linked h n ->
  Vanilla.get_best_action h node = Ok a
  \/ Modified.get_best_action h node = Ok a ->
  exists c, (a, c) ∈ child_nodes n.
Proof.
  intros Hn Hl Hrun.
  pose proof (children_linked_valid h n Hl) as Hvalid.
  destruct (decide (child_nodes n = [])) as [Hnil | Hne].
  { exfalso. unfold Vanilla.get_best_action, Modified.get_best_action in Hrun.
    rewrite (deref_some _ _ _ Hn) in Hrun. cbn [mbind result_bind] in Hrun.
    rewrite Hnil in Hrun. by destruct Hrun. }
  destruct (max_visits_spec h (child_nodes n) Hne Hvalid)
    as (a1 & c1 & cn1 & Hmax & Hin1 & _).
  destruct Hrun as [Hrun | Hrun].
  - unfold Vanilla.get_best_action in Hrun.
    rewrite (deref_some _ _ _ Hn) in Hrun. cbn [mbind result_bind] in Hrun.
    destruct (best_score_loop_spec h (child_nodes n) Hvalid None NegInf)
      as (b & u & Hloop & _ & _ & Hsel).
    rewrite Hloop in Hrun. cbn [mbind result_bind] in Hrun.
    destruct Hsel as [[-> ->] | (a2 & c2 & cn2 & -> & Hin2 & _)].
    + rewrite Hmax in Hrun. injection Hrun as <-. by exists c1.
    + injection Hrun as <-. by exists c2.
  - unfold Modified.get_best_action in Hrun.
    rewrite (deref_some _ _ _ Hn) in Hrun. cbn [mbind result_bind] in Hrun.
    rewrite Hmax in Hrun. injection Hrun as <-. by exists c1.
Qed.

Lemma think_legal_aux (h : heap Action) (sts : list State) (state : State)
    (a : Action) :
  tree_inv board h ([state] ++ sts) ->
  Vanilla.get_best_action h O = Ok a \/ Modified.get_best_action h O = Ok a ->
  a ∈ legal_actions board state.
Proof.
  intros Hinv Hrun.
  assert (Hroot : is_Some (h !! O)).
  { apply lookup_lt_is_Some. destruct Hinv as [<- _]. simpl. lia. }
  destruct Hroot as [n Hn].
  destruct (best_action_is_child h O n a Hn) as [c Hin]; [| done |].
  - by eapply (tree_inv_linked h _ O n state).
  - by eapply (tree_inv_child_legal h _ O n state).
Qed.
End ThinkLegal.

(** X14.  On a board that lists the legal actions of a state without
    duplicates, an action that [think] returns, in either file, is a
    legal action of the state it was given. *)
Theorem think_returns_legal_action {State Action : Type} `{EqDecision Action}
    (board : Board State Action) (fuel num_nodes : nat) (state : State)
    (r : rng) (a : Action) :
  (forall s, NoDup (legal_actions board s)) ->
  Vanilla.think board fuel num_nodes state r = Ok a
  \/ Modified.think board fuel num_nodes state r = Ok a ->
  a ∈ legal_actions board state.
Proof.
  intros Hnodup [Hrun | Hrun].
  - unfold Vanilla.think in Hrun.
    destruct (Vanilla.think_loop _ _ _ _ _ _ _ _) as [[h r'] |] eqn:Hloop;
      [| done].
    cbn [mbind result_bind] in Hrun.
    destruct (vanilla_loop_inv board Hnodup fuel num_nodes _ [state] O state
                _ r h r' (fresh_root_inv board state) eq_refl Hloop)
      as (sts & Hinv).
    eapply think_legal_aux; [done | by left].
  - unfold Modified.think in Hrun.
    destruct (Modified.think_loop _ _ _ _ _ _ _ _) as [[h r'] |] eqn:Hloop;
      [| done].
    cbn [mbind result_bind] in Hrun.
    destruct (modified_loop_inv board Hnodup fuel num_nodes _ [state] O state
                _ r h r' (fresh_root_inv board state) eq_refl Hloop)
      as (sts & Hinv).
    eapply think_legal_aux; [done | by right].
Qed.

Lemma think_returns_legal_action_witness :
  1%nat ∈ legal_actions toy O.
Proof.
  apply (think_returns_legal_action toy 3 3 O zero_rng 1%nat toy_legal_NoDup).
  right. vm_compute. reflexivity.
Defined.

Section Progress.
Context {State Action : Type} `{EqDecision Action}.
Variable board : Board State Action.
Implicit Types (h : heap Action) (sts : list State) (n : MCTSNode Action).

(** The two ways [expand_leaf] returns. *)
Lemma expand_leaf_cases h node n (s : State) (r : rng) h1 node1 s1 r1 :
  h !! node = Some n ->
  expand_leaf board h node s r = Ok (h1, node1, s1, r1) ->
  (h1 = h /\ node1 = node /\ s1 = s
   /\ (is_ended board s = true \/ untried_actions n = []))
  \/ (is_ended board s = false
      /\ exists a, a ∈ untried_actions n
           /\ s1 = next_state board s a /\ node1 = length h
           /\ h1 = <[node :=
                     {| parent := parent n; parent_action := parent_action n;
                        child_nodes := dict_set a (length h) (child_nodes n);
                        untried_actions := list_remove a (untried_actions n);
                        wins := wins n; visits := visits n |}]> h
                  ++ [new_node (Some node) (Some a)
                        (legal_actions board (next_state board s a))]).
Proof.
  intros Hn. unfold expand_leaf. rewrite (deref_some _ _ _ Hn).
  cbn [mbind result_bind].
  destruct (is_ended board s) eqn:Hend; simpl.
  { intros [= <- <- <- <-]. left. by eauto. }
  case_bool_decide as Hun; simpl.
  { intros [= <- <- <- <-]. left. by eauto. }
  destruct (choice (untried_actions n) r) as [[a r'] |] eqn:Hch; simpl; [| done].
  apply choice_ok in Hch as [Hin _].
  intros [= <- <- <- <-]. right. split; [done |]. by exists a.
Qed.

Lemma expand_leaf_total h node n (s : State) (r : rng) :
  h !! node = Some n ->
  exists h1 node1 s1 r1, expand_leaf board h node s r = Ok (h1, node1, s1, r1).
Proof.
  intros Hn. unfold expand_leaf. rewrite (deref_some _ _ _ Hn).
  cbn [mbind result_bind].
  destruct (is_ended board s || bool_decide (untried_actions n = []))
    eqn:Hstop; [by eauto |].
  apply orb_false_elim in Hstop as [_ Hun].
  apply bool_decide_eq_false in Hun.
  destruct (choice_elem (untried_actions n) r Hun) as (a & -> & _).
  simpl. by eauto.
Qed.

(** In a tree against the board every chain of parents ends. *)
Lemma ancestry_exists h sts :
  tree_inv board h sts ->
  forall i, (i < length h)%nat ->
    exists l, ancestry h i l /\ (length l <= S i)%nat.
Proof.
  intros [Hlen Hnodes] i. induction i as [i IH] using lt_wf_ind. intros Hi.
  destruct (lookup_lt_is_Some_2 h i Hi) as [n Hn].
  destruct (lookup_lt_is_Some_2 sts i ltac:(lia)) as [s Hs].
  destruct (Hnodes i n s Hn Hs) as (_ & _ & Hpar).
  destruct (parent n) as [p |] eqn:Hp.
  - specialize (Hpar p eq_refl).
    destruct (IH p Hpar ltac:(lia)) as (l & Hl & Hlen').
    exists (i :: l). split; [by eapply ancestry_step | simpl; lia].
  - exists [i]. split; [by eapply ancestry_root | simpl; lia].
Qed.

(** A chain of parents ends in the only node without parent. *)
Lemma ancestry_reaches_root h i (l : list nat) (root : nat) :
  (forall j n, h !! j = Some n -> parent n = None -> j = root) ->
  ancestry h i l -> root ∈ l.
Proof.
  intros Hroot. induction 1 as [i n Hn Hp | i n p l Hn Hp Hl IH].
  - rewrite (Hroot i n Hn Hp). by left.
  - by right.
Qed.

Lemma descend_stops
    (select : heap Action -> MCTSNode Action -> Z -> result (nat * Action))
    (fuel : nat) h node n (s : State) (identity : Z) :
  h !! node = Some n ->
  is_ended board s = true \/ untried_actions n <> [] ->
  descend_with board select fuel h node s identity = Ok (node, s).
Proof.
  intros Hn Hstop. destruct fuel; simpl; rewrite (deref_some _ _ _ Hn);
    cbn [mbind result_bind];
    (destruct Hstop as [-> | Hun];
     [done | rewrite (bool_decide_eq_true_2 _ Hun), orb_true_r; done]).
Qed.
End Progress.

Section BackpropProgress.
Context {State Action : Type} `{EqDecision Action}.
Variable board : Board State Action.
Implicit Types (h : heap Action) (sts : list State) (n : MCTSNode Action).

(** With fuel for the arena, backpropagation in a tree against the
    board returns; the tree stays against the board, its parent links
    stay, and the root has one more visit. *)
Lemma backpropagate_progress (fuel : nat) h sts (root node : nat) (w : R) :
  tree_inv board h sts ->
  (forall i n, h !! i = Some n -> parent n = None -> i = root) ->
  (node < length h)%nat -> (length h <= fuel)%nat ->
  exists h',
    backpropagate fuel h (Some node) w = Ok h'
    /\ tree_inv board h' sts
    /\ (forall i n, h' !! i = Some n -> parent n = None -> i = root)
    /\ length h' = length h
    /\ (forall n, h !! root = Some n -> h' !! root = Some (credit w n)).
Proof.
  intros Hinv Hroot Hnode Hfuel.
  destruct (ancestry_exists board h sts Hinv node Hnode) as (l & Hl & Hlen).
  destruct (backpropagate_chain l h node w fuel Hl (ancestry_NoDup h node l Hl))
    as (h' & Hrun & Hlen' & Hall); [lia |].
  exists h'. split; [done |]. split; [by eapply tree_inv_credit |].
  split; [| split; [done |]].
  - intros i n' Hi Hp.
    assert (Hilt : (i < length h)%nat)
      by (rewrite <- Hlen'; by eapply lookup_lt_Some).
    destruct (lookup_lt_is_Some_2 h i Hilt) as [n Hn].
    rewrite (Hall i n Hn) in Hi. injection Hi as <-.
    apply (Hroot i n Hn). by destruct (decide (i ∈ l)).
  - intros n Hn. rewrite (Hall root n Hn).
    by rewrite decide_True by (by eapply ancestry_reaches_root).
Qed.
End BackpropProgress.

Section IterationProgress.
Context {State Action : Type} `{EqDecision Action}.
Variable board : Board State Action.
Variable select : heap Action -> MCTSNode Action -> Z -> result (nat * Action).
Variable score : Z -> MCTSNode Action -> MCTSNode Action -> result float.
Variable rollout : State -> rng -> result (State * rng).
Variable outcome : State -> Z -> result R.
Variable P : State -> Prop.
Variables (fuel : nat) (identity : Z).

Hypothesis select_in : forall h n identity c a,
  select h n identity = Ok (c, a) ->
  exists a0 cn, (a0, c) ∈ child_nodes n /\ h !! c = Some cn
                /\ parent_action cn = Some a.
Hypothesis select_best : forall h n identity,
  child_nodes n <> [] -> children_linked h n ->
  scorable h (score identity n) (child_nodes n) ->
  selects h (score identity n) n (select h n identity).
Hypothesis score_total : forall identity p c,
  visits c = O \/ (0 < visits p)%nat -> exists u, score identity p c = Ok u.
Hypothesis Hnodup : forall s, NoDup (legal_actions board s).
Hypothesis Hmoves : forall s,
  is_ended board s = false -> legal_actions board s <> [].
Hypothesis HP_step : forall s a,
  P s -> is_ended board s = false -> a ∈ legal_actions board s ->
  P (next_state board s a).
Hypothesis Hrollout : forall s r,
  P s -> exists s' r', rollout s r = Ok (s', r') /\ is_ended board s' = true.
Hypothesis Houtcome : forall s',
  is_ended board s' = true -> exists w, outcome s' identity = Ok w.

Implicit Types (h : heap Action) (sts : list State) (n : MCTSNode Action).

Lemma root_has_child_or_untried h sts root n (state : State) :
  tree_inv board h sts -> h !! root = Some n -> sts !! root = Some state ->
  is_ended board state = false ->
  untried_actions n = [] -> child_nodes n <> [].
Proof.
  intros [_ Hnodes] Hn Hs Hend Hun Hnil.
  destruct (Hnodes root n state Hn Hs) as (Hperm & _).
  rewrite Hnil, Hun in Hperm. simpl in Hperm.
  apply Permutation_nil_l in Hperm. by eapply Hmoves.
Qed.

Lemma iteration_progress h sts root n (state : State) (r : rng) :
  search_inv board P h sts root state ->
  h !! root = Some n ->
  is_ended board state = false ->
  (S (length h) <= fuel)%nat ->
  exists h' r' sts' n',
    iteration_with board (descend_with board select fuel) rollout outcome
      fuel h root state identity r = Ok (h', r')
    /\ search_inv board P h' (sts ++ sts') root state
    /\ (length h' <= S (length h))%nat
    /\ h' !! root = Some n' /\ visits n' = S (visits n)
    /\ child_nodes n' <> [].
Proof.
  intros (Hinv & HP & Hs & Hroot) Hn Hend Hfuel.
  pose proof Hinv as [Hlen Hnodes].
  destruct (descend_total board select score select_best score_total h sts
              identity Hinv Hmoves fuel root state n Hn Hs ltac:(lia))
    as (node & cs & Hrun & _).
  destruct (descend_sound board select select_in h sts identity Hinv fuel
              root state node cs Hs Hrun) as (Hcs & nd & Hnd & Hstop).
  assert (Hnode : (node < length h)%nat) by by eapply lookup_lt_Some.
  assert (HPcs : P cs) by (by eapply Forall_lookup_1).
  assert (Hrootkids : node <> root \/ is_ended board cs = true ->
            child_nodes n <> []).
  { intros Hcase.
    eapply (root_has_child_or_untried h sts root n state); try done.
    destruct (decide (untried_actions n = [])) as [| Hun]; [done |].
    rewrite (descend_stops board select fuel h root n state identity Hn)
      in Hrun by (by right).
    injection Hrun as <- <-. destruct Hcase as [? | Hc]; [done |].
    by rewrite Hend in Hc. }
  unfold iteration_with, simulate. rewrite Hrun. cbn [mbind result_bind].
  destruct (is_ended board cs) eqn:Hcsend; cbn [negb mbind result_bind].
  - (* the game has ended at the node: no expansion *)
    destruct (Hrollout cs r HPcs) as (fs & r2 & -> & Hfs).
    cbn [mbind result_bind].
    destruct (Houtcome fs Hfs) as [w ->]. cbn [mbind result_bind].
    destruct (backpropagate_progress board fuel h sts root node w Hinv Hroot
                Hnode ltac:(lia)) as (h2 & -> & Hinv2 & Hroot2 & Hlen2 & Hcred).
    cbn [mbind result_bind].
    exists h2, r2, [], (credit w n). rewrite app_nil_r.
    split; [done |]. split; [done |]. split; [lia |].
    split; [by apply Hcred |]. split; [done |].
    apply Hrootkids. by right.
  - (* expansion *)
    destruct Hstop as [? | Hun]; [done |].
    destruct (expand_leaf_total board h node nd cs r Hnd)
      as (h1 & node1 & cs1 & r1 & Hex).
    rewrite Hex. cbn [mbind result_bind].
    destruct (tree_inv_expand board Hnodup h sts node cs r h1 node1 cs1 r1
                Hinv ltac:(by eexists) Hcs Hex) as (sts' & Hinv1 & Hnode1 & Hcs1).
    destruct (expand_leaf_cases board h node nd cs r h1 node1 cs1 r1 Hnd Hex)
      as [(_ & _ & _ & [? | ?]) | (_ & a & Ha & -> & -> & Hh1)];
      [congruence | done |].
    assert (Hlen1 : length h1 = S (length h)).
    { rewrite Hh1, length_app, length_insert. simpl. lia. }
    assert (Halegal : a ∈ legal_actions board cs).
    { destruct (Hnodes node nd cs Hnd Hcs) as (Hperm & _).
      rewrite <- Hperm. apply elem_of_app. by right. }
    assert (HP1 : Forall P (sts ++ sts')).
    { apply Forall_lookup. intros i x Hi.
      destruct (decide (i < length sts)%nat) as [Hlt | Hge].
      - rewrite lookup_app_l in Hi by done. by eapply Forall_lookup_1.
      - assert (i = length h).
        { apply lookup_lt_Some in Hi. destruct Hinv1 as [Hl1 _]. lia. }
        subst i. rewrite Hcs1 in Hi. injection Hi as <-. by apply HP_step. }
    assert (Hroot1 : forall i ni, h1 !! i = Some ni -> parent ni = None ->
              i = root).
    { intros i ni Hi Hp. rewrite Hh1 in Hi.
      destruct (decide (i < length h)%nat) as [Hlt | Hge].
      - rewrite lookup_app_l in Hi by (by rewrite length_insert).
        destruct (decide (i = node)) as [-> | Hne].
        + rewrite list_lookup_insert_eq in Hi by done. injection Hi as <-.
          by apply (Hroot node nd).
        + rewrite list_lookup_insert_ne in Hi by done. by apply (Hroot i ni).
      - assert (i = length h).
        { apply lookup_lt_Some in Hi.
          rewrite length_app, length_insert in Hi. simpl in Hi. lia. }
        subst i. rewrite lookup_app_r in Hi by (by rewrite length_insert).
        rewrite length_insert, Nat.sub_diag in Hi. by injection Hi as <-. }
    assert (Hrootlt : (root < length h)%nat) by by eapply lookup_lt_Some.
    assert (Hn1 : exists n1, h1 !! root = Some n1 /\ visits n1 = visits n
                             /\ child_nodes n1 <> []).
    { rewrite Hh1. rewrite lookup_app_l by (by rewrite length_insert).
      destruct (decide (root = node)) as [-> | Hne].
      - rewrite list_lookup_insert_eq by done. eexists. split; [done |].
        rewrite Hnd in Hn. injection Hn as <-. split; [done |].
        simpl. intros Hnil.
        pose proof (dict_set_elem a (length h) (child_nodes nd)) as Hin.
        rewrite Hnil in Hin. by apply elem_of_nil in Hin.
      - rewrite list_lookup_insert_ne by done. exists n.
        split; [done |]. split; [done |]. apply Hrootkids. by left. }
    destruct Hn1 as (n1 & Hn1 & Hv1 & Hkids1).
    destruct (Hrollout (next_state board cs a) r1 (HP_step cs a HPcs Hcsend Halegal))
      as (fs & r2 & -> & Hfs).
    cbn [mbind result_bind].
    destruct (Houtcome fs Hfs) as [w ->]. cbn [mbind result_bind].
    destruct (backpropagate_progress board fuel h1 (sts ++ sts') root
                (length h) w Hinv1 Hroot1 ltac:(lia) ltac:(lia))
      as (h2 & -> & Hinv2 & Hroot2 & Hlen2 & Hcred).
    cbn [mbind result_bind].
    exists h2, r2, sts', (credit w n1).
    split; [done |]. split.
    { split; [done |]. split; [done |]. split; [| done].
      by apply lookup_app_l_Some. }
    split; [lia |]. split; [by apply Hcred |]. split; [simpl; lia | done].
Qed.
End IterationProgress.

Section LoopProgress.
Context {State Action : Type}.
Variable board : Board State Action.
Variable P : State -> Prop.
Variable iteration : heap Action -> rng -> result (heap Action * rng).
Variables (fuel root : nat) (state : State).

Hypothesis Hiteration : forall h sts n r,
  search_inv board P h sts root state ->
  h !! root = Some n ->
  (S (length h) <= fuel)%nat ->
  exists h' r' sts' n',
    iteration h r = Ok (h', r')
    /\ search_inv board P h' (sts ++ sts') root state
    /\ (length h' <= S (length h))%nat
    /\ h' !! root = Some n' /\ visits n' = S (visits n)
    /\ child_nodes n' <> [].

Lemma loop_progress (num_nodes : nat) :
  forall h sts n r,
    search_inv board P h sts root state ->
    h !! root = Some n ->
    (length h + num_nodes <= fuel)%nat ->
    exists h' r' sts' n',
      loop_with iteration num_nodes h r = Ok (h', r')
      /\ search_inv board P h' (sts ++ sts') root state
      /\ (length h' <= length h + num_nodes)%nat
      /\ h' !! root = Some n' /\ visits n' = (visits n + num_nodes)%nat
      /\ ((0 < num_nodes)%nat -> child_nodes n' <> []).
Proof.
  induction num_nodes as [| k IH]; intros h sts n r Hinv Hn Hfuel.
  - exists h, r, [], n. rewrite app_nil_r.
    split; [done |]. split; [done |]. split; [lia |]. split; [done |].
    split; lia.
  - destruct (Hiteration h sts n r Hinv Hn ltac:(lia))
      as (h1 & r1 & sts1 & n1 & Hrun & Hinv1 & Hlen1 & Hn1 & Hv1 & Hk1).
    simpl. rewrite Hrun. cbn [mbind result_bind].
    destruct k as [| k].
    + exists h1, r1, sts1, n1. simpl.
      split; [done |]. split; [done |]. split; [lia |]. split; [done |].
      split; [lia | done].
    + destruct (IH h1 (sts ++ sts1) n1 r1 Hinv1 Hn1 ltac:(lia))
        as (h2 & r2 & sts2 & n2 & Hrun2 & Hinv2 & Hlen2 & Hn2 & Hv2 & Hk2).
      exists h2, r2, (sts1 ++ sts2), n2. rewrite app_assoc.
      split; [done |]. split; [done |]. split; [lia |]. split; [done |].
      split; [lia |]. intros _. apply Hk2. lia.
Qed.
End LoopProgress.

Section ThinkProgress.
Context {State Action : Type} `{EqDecision Action}.
Variable board : Board State Action.
Variable rank : State -> nat.
Hypothesis Hnodup : forall s, NoDup (legal_actions board s).
Hypothesis Hmoves : forall s,
  is_ended board s = false -> legal_actions board s <> [].
Hypothesis Hrank : forall s a,
  is_ended board s = false -> a ∈ legal_actions board s ->
  (rank (next_state board s a) < rank s)%nat.
Hypothesis Hpoints : forall s s',
  is_ended board s' = true ->
  is_Some (points_for board s' (current_player board s)).

Lemma vanilla_iteration_with (fuel : nat) (h : heap Action) (root : nat)
    (state : State) (identity : Z) (r : rng) :
  Vanilla.think_iteration board fuel h root state identity r
  = iteration_with board (descend_with board Vanilla.select_child fuel)
      (Vanilla.rollout board fuel) (Vanilla.outcome board)
      fuel h root state identity r.
Proof.
  unfold Vanilla.think_iteration, iteration_with, simulate.
  by rewrite vanilla_traverse_descend.
Qed.

Lemma modified_iteration_with (fuel : nat) (h : heap Action) (root : nat)
    (state : State) (identity : Z) (r : rng) :
  Modified.think_iteration board fuel h root state identity r
  = iteration_with board
      (descend_with board (Modified.select_child board) fuel)
      (Modified.rollout board fuel) (Modified.bot_score board)
      fuel h root state identity r.
Proof.
  unfold Modified.think_iteration, iteration_with, simulate.
  by rewrite modified_traverse_descend.
Qed.

Lemma vanilla_loop_with (fuel num_nodes : nat) :
  forall (h : heap Action) (root : nat) (state : State) (identity : Z) (r : rng),
    Vanilla.think_loop board fuel num_nodes h root state identity r
    = loop_with
        (fun h r =>
           iteration_with board (descend_with board Vanilla.select_child fuel)
             (Vanilla.rollout board fuel) (Vanilla.outcome board)
             fuel h root state identity r)
        num_nodes h r.
Proof.
  induction num_nodes as [| k IH]; intros h root state identity r; [done |].
  simpl. rewrite vanilla_iteration_with.
  destruct (iteration_with _ _ _ _ _ _ _ _ _ _) as [[h1 r1] |]; [| done].
  cbn [mbind result_bind]. apply IH.
Qed.

Lemma modified_loop_with (fuel num_nodes : nat) :
  forall (h : heap Action) (root : nat) (state : State) (identity : Z) (r : rng),
    Modified.think_loop board fuel num_nodes h root state identity r
    = loop_with
        (fun h r =>
           iteration_with board
             (descend_with board (Modified.select_child board) fuel)
             (Modified.rollout board fuel) (Modified.bot_score board)
             fuel h root state identity r)
        num_nodes h r.
Proof.
  induction num_nodes as [| k IH]; intros h root state identity r; [done |].
  simpl. rewrite modified_iteration_with.
  destruct (iteration_with _ _ _ _ _ _ _ _ _ _) as [[h1 r1] |]; [| done].
  cbn [mbind result_bind]. apply IH.
Qed.
Lemma fresh_search_inv (P : State -> Prop) (state : State) :
  P state ->
  search_inv board P [new_node None None (legal_actions board state)]
    [state] O state.
Proof.
  intros HP. split; [apply fresh_root_inv |]. split; [by apply Forall_singleton |].
  split; [done |]. intros i n Hi _. by destruct i.
Qed.

Lemma vanilla_outcome_total (s' : State) (identity : Z) :
  is_Some (points_for board s' identity) ->
  exists w, Vanilla.outcome board s' identity = Ok w.
Proof.
  unfold points_for, Vanilla.outcome. intros [v Hv].
  destruct (points_values board s') as [pts |]; [| done]. rewrite Hv.
  repeat case_bool_decide; by eexists.
Qed.

Lemma modified_bot_score_total (s' : State) (identity : Z) :
  is_Some (points_for board s' identity) ->
  exists w, Modified.bot_score board s' identity = Ok w.
Proof.
  unfold points_for, Modified.bot_score. intros [v Hv].
  destruct (points_values board s') as [pts |]; [| done]. rewrite Hv.
  by eexists.
Qed.

Lemma vanilla_think_loop_progress (fuel num_nodes : nat) (state : State)
    (r : rng) :
  is_ended board state = false ->
  (rank state <= fuel)%nat -> (1 + num_nodes <= fuel)%nat ->
  exists h r' sts n,
    Vanilla.think_loop board fuel num_nodes
      [new_node None None (legal_actions board state)] O state
      (current_player board state) r = Ok (h, r')
    /\ tree_inv board h ([state] ++ sts)
    /\ (length h <= 1 + num_nodes)%nat
    /\ h !! O = Some n /\ visits n = num_nodes
    /\ ((0 < num_nodes)%nat -> child_nodes n <> []).
Proof.
  intros Hend Hstate Hfuel. rewrite vanilla_loop_with.
  set (P := fun s : State => (rank s <= fuel)%nat).
  set (iter := fun (h : heap Action) (r : rng) =>
    iteration_with board (descend_with board Vanilla.select_child fuel)
      (Vanilla.rollout board fuel) (Vanilla.outcome board)
      fuel h O state (current_player board state) r).
  assert (Hiter : forall h sts n r,
    search_inv board P h sts O state -> h !! O = Some n ->
    (S (length h) <= fuel)%nat ->
    exists h' r' sts' n',
      iter h r = Ok (h', r')
      /\ search_inv board P h' (sts ++ sts') O state
      /\ (length h' <= S (length h))%nat
      /\ h' !! O = Some n' /\ visits n' = S (visits n)
      /\ child_nodes n' <> []).
  { intros h sts n r0 Hinv Hn Hlen.
    eapply (iteration_progress board Vanilla.select_child
              (fun i p c => Vanilla.ucb c p i)); try done.
    - intros; by eapply vanilla_select_child_in.
    - intros h0 n0 i Hne Hl Hsc. apply vanilla_select_child_spec; try done.
      intros cn u. apply vanilla_ucb_not_neginf.
    - intros i p c. apply vanilla_ucb_scores.
    - intros s a HP Hs Ha. unfold P in *. pose proof (Hrank s a Hs Ha). lia.
    - intros s r1 HP.
      destruct (proj1 (rollout_total_aux board rank Hrank Hmoves Hpoints
                         fuel s r1 HP)) as (s' & r2 & Hrun).
      exists s', r2. split; [done |]. by eapply vanilla_rollout_sound.
    - intros s' Hs'. apply vanilla_outcome_total. by apply Hpoints. }
  destruct (loop_progress board P iter fuel O state Hiter num_nodes
              [new_node None None (legal_actions board state)] [state]
              (new_node None None (legal_actions board state)) r
              (fresh_search_inv P state Hstate) eq_refl ltac:(simpl; lia))
    as (h & r' & sts & n & Hrun & (Hinv & _) & Hlen & Hn & Hv & Hk).
  exists h, r', sts, n. by rewrite Hv.
Qed.

Lemma modified_think_loop_progress (fuel num_nodes : nat) (state : State)
    (r : rng) :
  is_ended board state = false ->
  (rank state <= fuel)%nat -> (1 + num_nodes <= fuel)%nat ->
  exists h r' sts n,
    Modified.think_loop board fuel num_nodes
      [new_node None None (legal_actions board state)] O state
      (current_player board state) r = Ok (h, r')
    /\ tree_inv board h ([state] ++ sts)
    /\ (length h <= 1 + num_nodes)%nat
    /\ h !! O = Some n /\ visits n = num_nodes
    /\ ((0 < num_nodes)%nat -> child_nodes n <> []).
Proof.
  intros Hend Hstate Hfuel. rewrite modified_loop_with.
  set (P := fun s : State => (rank s <= fuel)%nat).
  set (iter := fun (h : heap Action) (r : rng) =>
    iteration_with board (descend_with board (Modified.select_child board) fuel)
      (Modified.rollout board fuel) (Modified.bot_score board)
      fuel h O state (current_player board state) r).
  assert (Hiter : forall h sts n r,
    search_inv board P h sts O state -> h !! O = Some n ->
    (S (length h) <= fuel)%nat ->
    exists h' r' sts' n',
      iter h r = Ok (h', r')
      /\ search_inv board P h' (sts ++ sts') O state
      /\ (length h' <= S (length h))%nat
      /\ h' !! O = Some n' /\ visits n' = S (visits n)
      /\ child_nodes n' <> []).
  { intros h sts n r0 Hinv Hn Hlen.
    eapply (iteration_progress board (Modified.select_child board)
              (fun i p c => Modified.ucb board c p i)); try done.
    - intros; by eapply modified_select_child_in.
    - intros h0 n0 i Hne Hl Hsc. by apply modified_select_child_spec.
    - intros i p c. apply modified_ucb_scores.
    - intros s a HP Hs Ha. unfold P in *. pose proof (Hrank s a Hs Ha). lia.
    - intros s r1 HP.
      destruct (proj2 (rollout_total_aux board rank Hrank Hmoves Hpoints
                         fuel s r1 HP)) as (s' & r2 & Hrun).
      exists s', r2. split; [done |]. by eapply modified_rollout_sound.
    - intros s' Hs'. apply modified_bot_score_total. by apply Hpoints. }
  destruct (loop_progress board P iter fuel O state Hiter num_nodes
              [new_node None None (legal_actions board state)] [state]
              (new_node None None (legal_actions board state)) r
              (fresh_search_inv P state Hstate) eq_refl ltac:(simpl; lia))
    as (h & r' & sts & n & Hrun & (Hinv & _) & Hlen & Hn & Hv & Hk).
  exists h, r', sts, n. by rewrite Hv.
Qed.
End ThinkProgress.

Lemma best_action_total {Action : Type} (h : heap Action) (node : nat)
    (n : MCTSNode Action) :
  h !! node = Some n -> child_nodes n <> [] -> children_linked h n ->
  (exists a c, Vanilla.get_best_action h node = Ok a /\ (a, c) ∈ child_nodes n)
  /\ (exists a c, Modified.get_best_action h node = Ok a
                  /\ (a, c) ∈ child_nodes n).
Proof.
  intros Hn Hne Hl.
  pose proof (children_linked_valid h n Hl) as Hvalid.
  destruct (max_visits_spec h (child_nodes n) Hne Hvalid)
    as (a1 & c1 & cn1 & Hmax & Hin1 & _).
  unfold Vanilla.get_best_action, Modified.get_best_action.
  rewrite (deref_some _ _ _ Hn). cbn [mbind result_bind].
  split; [| by exists a1, c1].
  destruct (best_score_loop_spec h (child_nodes n) Hvalid None NegInf)
    as (b & u & -> & _ & _ & Hsel).
  cbn [mbind result_bind].
  destruct Hsel as [[-> ->] | (a2 & c2 & cn2 & -> & Hin2 & _)].
  - by exists a1, c1.
  - by exists a2, c2.
Qed.

Lemma think_total_aux {State Action : Type} `{EqDecision Action}
    (board : Board State Action) (rank : State -> nat)
    (fuel num_nodes : nat) (state : State) (r : rng) :
  (forall s, NoDup (legal_actions board s)) ->
  (forall s, is_ended board s = false -> legal_actions board s <> []) ->
  (forall s a, is_ended board s = false -> a ∈ legal_actions board s ->
     (rank (next_state board s a) < rank s)%nat) ->
  (forall s s', is_ended board s' = true ->
     is_Some (points_for board s' (current_player board s))) ->
  is_ended board state = false ->
  (0 < num_nodes)%nat ->
  (rank state <= fuel)%nat -> (1 + num_nodes <= fuel)%nat ->
  (exists a, Vanilla.think board fuel num_nodes state r = Ok a
             /\ a ∈ legal_actions board state)
  /\ (exists a, Modified.think board fuel num_nodes state r = Ok a
                /\ a ∈ legal_actions board state).
Proof.
  intros Hnodup Hmoves Hrank Hpoints Hend Hk Hstate Hfuel. split.
  - destruct (vanilla_think_loop_progress board rank Hnodup Hmoves Hrank
                Hpoints fuel num_nodes state r Hend Hstate Hfuel)
      as (h & r' & sts & n & Hrun & Hinv & _ & Hn & _ & Hkids).
    unfold Vanilla.think. rewrite Hrun. cbn [mbind result_bind].
    destruct (best_action_total h O n Hn (Hkids Hk)) as [(a & c & Hbest & Hin) _].
    { by eapply (tree_inv_linked board h _ O n state). }
    exists a. split; [done |].
    by eapply (tree_inv_child_legal board h _ O n state).
  - destruct (modified_think_loop_progress board rank Hnodup Hmoves Hrank
                Hpoints fuel num_nodes state r Hend Hstate Hfuel)
      as (h & r' & sts & n & Hrun & Hinv & _ & Hn & _ & Hkids).
    unfold Modified.think. rewrite Hrun. cbn [mbind result_bind].
    destruct (best_action_total h O n Hn (Hkids Hk)) as [_ (a & c & Hbest & Hin)].
    { by eapply (tree_inv_linked board h _ O n state). }
    exists a. split; [done |].
    by eapply (tree_inv_child_legal board h _ O n state).
Qed.

(** X15.  On a well-behaved board (legal actions without duplicates,
    a legal action at every state where the game goes on, plays bounded
    by a rank, points for the players to move at every ended state),
    at a state where the game goes on, with a budget of at least one
    iteration and fuel for the rank of the state and for the budget,
    [think] returns an action in both files, and the action is legal
    at the state. *)
Theorem think_returns_action {State Action : Type} `{EqDecision Action}
    (board : Board State Action) (rank : State -> nat)
    (fuel num_nodes : nat) (state : State) (r : rng) :
  (forall s, NoDup (legal_actions board s)) ->
  (forall s, is_ended board s = false -> legal_actions board s <> []) ->
  (forall s a, is_ended board s = false -> a ∈ legal_actions board s ->
     (rank (next_state board s a) < rank s)%nat) ->
  (forall s s', is_ended board s' = true ->
     is_Some (points_for board s' (current_player board s))) ->
  is_ended board state = false ->
  (0 < num_nodes)%nat ->
  (rank state <= fuel)%nat -> (1 + num_nodes <= fuel)%nat ->
  (exists a, Vanilla.think board fuel num_nodes state r = Ok a
             /\ a ∈ legal_actions board state)
  /\ (exists a, Modified.think board fuel num_nodes state r = Ok a
                /\ a ∈ legal_actions board state).
Proof. apply think_total_aux. Qed.

Lemma think_returns_action_witness :
  (exists a, Vanilla.think countdown 8 6 5%nat zero_rng = Ok a
             /\ a ∈ legal_actions countdown 5%nat)
  /\ (exists a, Modified.think countdown 8 6 5%nat zero_rng = Ok a
                /\ a ∈ legal_actions countdown 5%nat).
Proof.
  apply (think_returns_action countdown (fun s => s) 8 6 5%nat zero_rng
           countdown_NoDup countdown_moves countdown_rank countdown_points).
  - reflexivity.
  - lia.
  - lia.
  - lia.
Defined.

(** X16.  Under the same conditions every iteration of [think] passes
    through the root once and adds at most one node: after the loop the
    root has as many visits as the budget, and the tree at most one
    node more than the budget. *)
Theorem think_counts_iterations {State Action : Type} `{EqDecision Action}
    (board : Board State Action) (rank : State -> nat)
    (fuel num_nodes : nat) (state : State) (r : rng) :
  (forall s, NoDup (legal_actions board s)) ->
  (forall s, is_ended board s = false -> legal_actions board s <> []) ->
  (forall s a, is_ended board s = false -> a ∈ legal_actions board s ->
     (rank (next_state board s a) < rank s)%nat) ->
  (forall s s', is_ended board s' = true ->
     is_Some (points_for board s' (current_player board s))) ->
  is_ended board state = false ->
  (rank state <= fuel)%nat -> (1 + num_nodes <= fuel)%nat ->
  let root := new_node None None (legal_actions board state) in
  let identity := current_player board state in
  (exists h r' n,
     Vanilla.think_loop board fuel num_nodes [root] O state identity r
       = Ok (h, r')
     /\ h !! O = Some n /\ visits n = num_nodes
     /\ (length h <= 1 + num_nodes)%nat)
  /\ (exists h r' n,
     Modified.think_loop board fuel num_nodes [root] O state identity r
       = Ok (h, r')
     /\ h !! O = Some n /\ visits n = num_nodes
     /\ (length h <= 1 + num_nodes)%nat).
Proof.
  intros Hnodup Hmoves Hrank Hpoints Hend Hstate Hfuel root identity. split.
  - destruct (vanilla_think_loop_progress board rank Hnodup Hmoves Hrank
                Hpoints fuel num_nodes state r Hend Hstate Hfuel)
      as (h & r' & sts & n & Hrun & _ & Hlen & Hn & Hv & _).
    by exists h, r', n.
  - destruct (modified_think_loop_progress board rank Hnodup Hmoves Hrank
                Hpoints fuel num_nodes state r Hend Hstate Hfuel)
      as (h & r' & sts & n & Hrun & _ & Hlen & Hn & Hv & _).
    by exists h, r', n.
Qed.

Lemma think_counts_iterations_witness :
  let root := new_node None None (legal_actions countdown 5%nat) in
  let identity := current_player countdown 5%nat in
  (exists h r' n,
     Vanilla.think_loop countdown 8 6 [root] O 5%nat identity zero_rng
       = Ok (h, r')
     /\ h !! O = Some n /\ visits n = 6%nat /\ (length h <= 1 + 6)%nat)
  /\ (exists h r' n,
     Modified.think_loop countdown 8 6 [root] O 5%nat identity zero_rng
       = Ok (h, r')
     /\ h !! O = Some n /\ visits n = 6%nat /\ (length h <= 1 + 6)%nat).
Proof.
  apply (think_counts_iterations countdown (fun s => s) 8 6 5%nat zero_rng
           countdown_NoDup countdown_moves countdown_rank countdown_points).
  - reflexivity.
  - lia.
  - lia.
Defined.

(** ** Ties *)

Lemma float_gt_le_trans (u s b : float) :
  float_gt s b = false -> float_gt u b = true -> float_gt u s = true.
Proof.
  destruct u, s, b; simpl; try done;
    rewrite ?bool_decide_eq_false, ?bool_decide_eq_true; intros; lra.
Qed.

Lemma float_gt_trans (a b c : float) :
  float_gt a b = true -> float_gt b c = true -> float_gt a c = true.
Proof.
  destruct a, b, c; simpl; try done;
    rewrite ?bool_decide_eq_true; intros; lra.
Qed.

Section FirstBest.
Context {Action : Type}.
Variable h : heap Action.
Variable score : MCTSNode Action -> result float.

Lemma argmax_loop_first (items : list (Action * nat)) :
  scorable h score items ->
  forall b0 u0,
  exists b u,
    argmax_loop h score items b0 u0 = Ok (b, u)
    /\ ((b = b0 /\ u = u0
         /\ forall a c cn s, (a, c) ∈ items -> h !! c = Some cn ->
              score cn = Ok s -> float_gt s u0 = false)
        \/ (exists c, b = Some c /\ first_best h score items c
                      /\ float_gt u u0 = true
                      /\ exists cn, h !! c = Some cn /\ score cn = Ok u)).
Proof.
  induction 1 as [| [a0 c0] items (cn0 & s0 & Hcn0 & Hs0) Hitems IH];
    intros b0 u0.
  - exists b0, u0. split; [done |]. left. split; [done |]. split; [done |].
    intros ? ? ? ? Hin. by apply elem_of_nil in Hin.
  - simpl in Hcn0. simpl. rewrite (deref_some _ _ _ Hcn0).
    cbn [mbind result_bind]. rewrite Hs0. cbn [mbind result_bind].
    destruct (float_gt s0 u0) eqn:Hgt.
    + destruct (IH (Some c0) s0) as (b & u & Hrun & Hcase).
      exists b, u. split; [done |]. right.
      destruct Hcase as [(-> & -> & Hall)
                        | (c & -> & Hfirst & Hgt' & cn & Hcn & Hu)].
      * exists c0. split; [done |]. split; [| split; [done | by eauto]].
        exists [], a0, items, cn0, s0. split; [done |]. split; [done |].
        split; [done |]. split; [| done].
        intros ? ? ? ? Hin. by apply elem_of_nil in Hin.
      * exists c. split; [done |]. split;
          [| split; [by eapply float_gt_trans | by eauto]].
        destruct Hfirst as (l1 & a & l2 & cn' & u' & -> & Hcn' & Hu' & Hl1 & Hl2).
        rewrite Hcn in Hcn'. injection Hcn' as <-.
        rewrite Hu in Hu'. injection Hu' as <-.
        exists ((a0, c0) :: l1), a, l2, cn, u. split; [done |].
        split; [done |]. split; [done |]. split; [| done].
        intros a1 c1 cn1 u1 Hin Hc1 Hu1.
        apply elem_of_cons in Hin as [[= -> ->] | Hin]; [| by eapply Hl1].
        rewrite Hcn0 in Hc1. injection Hc1 as <-.
        rewrite Hs0 in Hu1. by injection Hu1 as <-.
    + destruct (IH b0 u0) as (b & u & Hrun & Hcase).
      exists b, u. split; [done |].
      destruct Hcase as [(-> & -> & Hall)
                        | (c & -> & Hfirst & Hgt' & cn & Hcn & Hu)].
      * left. split; [done |]. split; [done |].
        intros a c cn s Hin Hc Hs.
        apply elem_of_cons in Hin as [[= -> ->] | Hin]; [| by eapply Hall].
        rewrite Hcn0 in Hc. injection Hc as <-.
        rewrite Hs0 in Hs. by injection Hs as <-.
      * right. exists c. split; [done |]. split; [| split; [done | by eauto]].
        destruct Hfirst as (l1 & a & l2 & cn' & u' & -> & Hcn' & Hu' & Hl1 & Hl2).
        rewrite Hcn in Hcn'. injection Hcn' as <-.
        rewrite Hu in Hu'. injection Hu' as <-.
        exists ((a0, c0) :: l1), a, l2, cn, u. split; [done |].
        split; [done |]. split; [done |]. split; [| done].
        intros a1 c1 cn1 u1 Hin Hc1 Hu1.
        apply elem_of_cons in Hin as [[= -> ->] | Hin]; [| by eapply Hl1].
        rewrite Hcn0 in Hc1. injection Hc1 as <-.
        rewrite Hs0 in Hu1. injection Hu1 as <-.
        by eapply float_gt_le_trans.
Qed.
End FirstBest.

(** X17.  Among children of equal best UCB score both selections keep
    the one that comes first in the dict of children: the child they
    move to scores strictly more than every child before it and no less
    than every child after it. *)
Theorem select_child_takes_first_best {State Action : Type}
    (board : Board State Action) (h : heap Action) (p : MCTSNode Action)
    (identity : Z) :
  child_nodes p <> [] ->
  children_linked h p ->
  (forall a c cn, (a, c) ∈ child_nodes p -> h !! c = Some cn ->
     (visits cn <= visits p)%nat) ->
  (exists c a, Vanilla.select_child h p identity = Ok (c, a)
     /\ first_best h (fun cn => Vanilla.ucb cn p identity) (child_nodes p) c)
  /\ (exists c a, Modified.select_child board h p identity = Ok (c, a)
     /\ first_best h (fun cn => Modified.ucb board cn p identity)
          (child_nodes p) c).
Proof.
  intros Hne Hl Hvisits. split.
  - set (score := fun cn : MCTSNode Action => Vanilla.ucb cn p identity).
    assert (Hsc : scorable h score (child_nodes p)).
    { apply scorable_within_visits; [done | done |].
      intros cn Hcn. by apply vanilla_ucb_scores. }
    destruct (argmax_loop_first h score (child_nodes p) Hsc None NegInf)
      as (b & u & Hrun & Hcase).
    unfold Vanilla.select_child.
    rewrite (vanilla_loop_argmax _ _ _ _ _ _ _ _ Hrun). cbn [mbind result_bind].
    destruct Hcase as [(-> & -> & Hall) | (c & -> & Hfirst & _ & cn & Hcn & _)].
    + exfalso. destruct (child_nodes p) as [| [a c] items] eqn:Hitems; [done |].
      apply Forall_cons in Hsc as [(cn & s & Hcn & Hs) _]. simpl in Hcn.
      pose proof (Hall a c cn s ltac:(left) Hcn Hs) as Hle.
      rewrite float_gt_neginf in Hle; [done |].
      by eapply vanilla_ucb_not_neginf.
    + pose proof Hfirst as (l1 & a & l2 & _ & _ & Hitems & _).
      destruct (Hl a c) as (cn' & a' & Hcn' & Ha').
      { rewrite Hitems. apply elem_of_app. right. by left. }
      rewrite (deref_some _ _ _ Hcn'). cbn [mbind result_bind]. rewrite Ha'.
      by exists c, a'.
  - set (score := fun cn : MCTSNode Action => Modified.ucb board cn p identity).
    assert (Hsc : scorable h score (child_nodes p)).
    { apply scorable_within_visits; [done | done |].
      intros cn Hcn. by apply modified_ucb_scores. }
    unfold Modified.select_child.
    destruct (child_nodes p) as [| [a0 c0] items] eqn:Hitems; [done |].
    apply Forall_cons in Hsc as [(cn0 & u0 & Hcn0 & Hu0) Hsc]. simpl in Hcn0.
    rewrite (deref_some _ _ _ Hcn0). cbn [mbind result_bind].
    fold (score cn0). rewrite Hu0. cbn [mbind result_bind].
    destruct (argmax_loop_first h score items Hsc (Some c0) u0)
      as (b & u & Hrun & Hcase).
    assert (Hpick : exists c, b = Some c
              /\ first_best h score ((a0, c0) :: items) c).
    { destruct Hcase as [(-> & -> & Hall)
                        | (c & -> & Hfirst & Hgt & cn' & Hcn' & Hu')].
      - exists c0. split; [done |].
        exists [], a0, items, cn0, u0. split; [done |]. split; [done |].
        split; [done |]. split; [| done].
        intros ? ? ? ? Hin. by apply elem_of_nil in Hin.
      - exists c. split; [done |].
        destruct Hfirst as (l1 & a & l2 & cn & u' & -> & Hcn & Hu & Hl1 & Hl2).
        exists ((a0, c0) :: l1), a, l2, cn, u'. split; [done |].
        split; [done |]. split; [done |]. split; [| done].
        intros a1 c1 cn1 u1 Hin Hc1 Hu1.
        apply elem_of_cons in Hin as [[= -> ->] | Hin]; [| by eapply Hl1].
        rewrite Hcn0 in Hc1. injection Hc1 as <-.
        rewrite Hu0 in Hu1. injection Hu1 as <-.
        rewrite Hcn in Hcn'. injection Hcn' as <-.
        rewrite Hu in Hu'. by injection Hu' as ->. }
    destruct Hpick as (c & -> & Hfirst).
    rewrite (modified_loop_argmax board _ _ _ _ _ _ _ _ Hrun).
    cbn [mbind result_bind].
    pose proof Hfirst as (l1 & a & l2 & _ & _ & Hdec & _).
    destruct (Hl a c) as (cn' & a' & Hcn' & Ha').
    { rewrite Hitems, Hdec. apply elem_of_app. right. by left. }
    rewrite (deref_some _ _ _ Hcn'). cbn [mbind result_bind]. rewrite Ha'.
    by exists c, a'.
Qed.

Lemma select_child_takes_first_best_witness :
  (exists c a, Vanilla.select_child sample_heap sample_root 1 = Ok (c, a)
     /\ first_best sample_heap (fun cn => Vanilla.ucb cn sample_root 1)
          (child_nodes sample_root) c)
  /\ (exists c a, Modified.select_child toy sample_heap sample_root 1 = Ok (c, a)
     /\ first_best sample_heap (fun cn => Modified.ucb toy cn sample_root 1)
          (child_nodes sample_root) c).
Proof.
  apply (select_child_takes_first_best toy sample_heap sample_root 1).
  - done.
  - exact sample_root_linked.
  - intros a c cn Hin. simpl in Hin.
    repeat (apply elem_of_cons in Hin as [[= -> ->] | Hin]).
    + intros [= <-]. simpl. lia.
    + intros [= <-]. simpl. lia.
    + by apply elem_of_nil in Hin.
Defined.

(** X18.  Under the conditions of X15, at a state with one legal action
    [think] returns that action, in both files, whatever the budget of
    at least one iteration and the random source. *)
Theorem think_single_action {State Action : Type} `{EqDecision Action}
    (board : Board State Action) (rank : State -> nat)
    (fuel num_nodes : nat) (state : State) (r : rng) (a0 : Action) :
  (forall s, NoDup (legal_actions board s)) ->
  (forall s, is_ended board s = false -> legal_actions board s <> []) ->
  (forall s a, is_ended board s = false -> a ∈ legal_actions board s ->
     (rank (next_state board s a) < rank s)%nat) ->
  (forall s s', is_ended board s' = true ->
     is_Some (points_for board s' (current_player board s))) ->
  is_ended board state = false ->
  legal_actions board state = [a0] ->
  (0 < num_nodes)%nat ->
  (rank state <= fuel)%nat -> (1 + num_nodes <= fuel)%nat ->
  Vanilla.think board fuel num_nodes state r = Ok a0
  /\ Modified.think board fuel num_nodes state r = Ok a0.
Proof.
  intros Hnodup Hmoves Hrank Hpoints Hend Hone Hk Hstate Hfuel.
  destruct (think_total_aux board rank fuel num_nodes state r Hnodup Hmoves
              Hrank Hpoints Hend Hk Hstate Hfuel)
    as [(a & -> & Ha) (a' & -> & Ha')].
  rewrite Hone in Ha, Ha'.
  apply list_elem_of_singleton in Ha as ->.
  by apply list_elem_of_singleton in Ha' as ->.
Qed.

Lemma think_single_action_witness :
  Vanilla.think countdown 6 4 1%nat zero_rng = Ok 1%nat
  /\ Modified.think countdown 6 4 1%nat zero_rng = Ok 1%nat.
Proof.
  apply (think_single_action countdown (fun s => s) 6 4 1%nat zero_rng 1%nat
           countdown_NoDup countdown_moves countdown_rank countdown_points).
  - reflexivity.
  - reflexivity.
  - lia.
  - lia.
  - lia.
Defined.

(** ** The account of visits *)

Section VisitSums.
Context {State Action : Type} `{EqDecision Action}.
Variable board : Board State Action.
Hypothesis Hnodup : forall s, NoDup (legal_actions board s).
Implicit Types (h : heap Action) (sts : list State) (n : MCTSNode Action).

Lemma child_visits_ext h h' (items : list (Action * nat)) :
  (forall a c, (a, c) ∈ items -> visits_of h' c = visits_of h c) ->
  child_visits h' items = child_visits h items.
Proof.
  unfold child_visits. induction items as [| [a c] items IH]; intros Hext;
    [done |].
  simpl. rewrite (Hext a c) by (by left). rewrite IH; [done |].
  intros a' c' Hin. apply (Hext a' c'). by right.
Qed.

Lemma child_visits_app h (l1 l2 : list (Action * nat)) :
  child_visits h (l1 ++ l2) = (child_visits h l1 + child_visits h l2)%nat.
Proof. apply sum_list_with_app. Qed.

Lemma fresh_visit_inv (state : State) :
  visit_inv board [new_node None None (legal_actions board state)] [state]
    O None
  /\ registered [new_node None None (legal_actions board state)].
Proof.
  split.
  - intros i n s Hi Hs. destruct i as [| i]; [| done].
    injection Hi as <-. injection Hs as <-.
    rewrite decide_False by done. by destruct (is_ended board state).
  - intros c cn p Hc Hp. destruct c as [| c]; [| done].
    injection Hc as <-. done.
Qed.

(** The expansion proper keeps the account, the new child pending. *)
Lemma visit_inv_expand h sts (root node : nat) nd (cs : State) (a : Action) :
  tree_inv board h sts ->
  visit_inv board h sts root None -> registered h ->
  (root < length h)%nat ->
  h !! node = Some nd -> sts !! node = Some cs ->
  is_ended board cs = false -> a ∈ untried_actions nd ->
  let h1 := <[node :=
               {| parent := parent nd; parent_action := parent_action nd;
                  child_nodes := dict_set a (length h) (child_nodes nd);
                  untried_actions := list_remove a (untried_actions nd);
                  wins := wins nd; visits := visits nd |}]> h
            ++ [new_node (Some node) (Some a)
                  (legal_actions board (next_state board cs a))] in
  visit_inv board h1 (sts ++ [next_state board cs a]) root (Some (length h))
  /\ registered h1.
Proof.
  intros Hinv Hvis Hreg Hroot Hnd Hcs Hend Ha h1.
  pose proof Hinv as [Hlen Hnodes].
  assert (Hnode : (node < length h)%nat) by by eapply lookup_lt_Some.
  destruct (tree_inv_counts board Hnodup h sts node nd cs Hinv Hnd Hcs)
    as (_ & _ & _ & Hdisj).
  assert (Hkids : dict_set a (length h) (child_nodes nd)
                  = child_nodes nd ++ [(a, length h)]).
  { apply dict_set_fresh. intros Hk. by apply (Hdisj a). }
  assert (Hold : forall j, (j < length h)%nat -> j <> node ->
            h1 !! j = h !! j).
  { intros j Hj Hne. unfold h1.
    rewrite lookup_app_l by (by rewrite length_insert).
    by rewrite list_lookup_insert_ne. }
  assert (Hnode1 : h1 !! node = Some
            {| parent := parent nd; parent_action := parent_action nd;
               child_nodes := dict_set a (length h) (child_nodes nd);
               untried_actions := list_remove a (untried_actions nd);
               wins := wins nd; visits := visits nd |}).
  { unfold h1. rewrite lookup_app_l by (by rewrite length_insert).
    by rewrite list_lookup_insert_eq. }
  assert (Hnew : h1 !! length h = Some
            (new_node (Some node) (Some a)
               (legal_actions board (next_state board cs a)))).
  { unfold h1. rewrite lookup_app_r by (by rewrite length_insert).
    by rewrite length_insert, Nat.sub_diag. }
  assert (Hvisits : forall c, (c < length h)%nat ->
            visits_of h1 c = visits_of h c).
  { intros c Hc. unfold visits_of.
    destruct (decide (c = node)) as [-> | Hne].
    - by rewrite Hnode1, Hnd.
    - by rewrite Hold. }
  assert (Hchild_lt : forall i ni si b c, h !! i = Some ni -> sts !! i = Some si ->
            (b, c) ∈ child_nodes ni -> (c < length h)%nat).
  { intros i ni si b c Hi Hsi Hin.
    destruct (Hnodes i ni si Hi Hsi) as (_ & Hk & _).
    destruct (Hk b c Hin) as (_ & cn & Hc & _). by eapply lookup_lt_Some. }
  split.
  - intros i ni si Hi Hsi.
    destruct (decide (i = length h)) as [-> | Hinew].
    { rewrite decide_True by done. rewrite Hnew in Hi. by injection Hi as <-. }
    rewrite decide_False by (intros [= Heq]; by rewrite Heq in Hinew).
    assert (Hilt : (i < length h)%nat).
    { apply lookup_lt_Some in Hi. unfold h1 in Hi.
      rewrite length_app, length_insert in Hi. simpl in Hi. lia. }
    rewrite lookup_app_l in Hsi by lia.
    destruct (decide (i = node)) as [-> | Hne].
    + rewrite Hnode1 in Hi. injection Hi as <-.
      rewrite Hcs in Hsi. injection Hsi as <-. rewrite Hend. simpl.
      pose proof (Hvis node nd cs Hnd Hcs) as Hacc.
      rewrite decide_False in Hacc by done. rewrite Hend in Hacc.
      rewrite Hacc, Hkids, child_visits_app. f_equal.
      unfold child_visits at 2. simpl. unfold visits_of at 2. rewrite Hnew.
      simpl. rewrite Nat.add_0_r. symmetry. apply child_visits_ext.
      intros b c Hin. apply Hvisits. by eapply Hchild_lt.
    + rewrite Hold in Hi by done.
      pose proof (Hvis i ni si Hi Hsi) as Hacc.
      rewrite decide_False in Hacc by done.
      destruct (is_ended board si); [done |].
      rewrite Hacc. f_equal. symmetry. apply child_visits_ext.
      intros b c Hin. apply Hvisits. by eapply Hchild_lt.
  - intros c cn p Hc Hp.
    destruct (decide (c = length h)) as [-> | Hcnew].
    { rewrite Hnew in Hc. injection Hc as <-. simpl in Hp. injection Hp as <-.
      eexists _, a. split; [done |]. simpl. apply dict_set_elem. }
    assert (Hclt : (c < length h)%nat).
    { apply lookup_lt_Some in Hc. unfold h1 in Hc.
      rewrite length_app, length_insert in Hc. simpl in Hc. lia. }
    assert (Hpar : exists cn0, h !! c = Some cn0 /\ parent cn0 = Some p).
    { destruct (decide (c = node)) as [-> | Hne].
      - rewrite Hnode1 in Hc. injection Hc as <-. by exists nd.
      - rewrite Hold in Hc by done. by exists cn. }
    destruct Hpar as (cn0 & Hc0 & Hp0).
    destruct (Hreg c cn0 p Hc0 Hp0) as (pn & b & Hpn & Hin).
    destruct (decide (p = node)) as [-> | Hne].
    + rewrite Hnd in Hpn. injection Hpn as <-.
      eexists _, b. split; [done |]. simpl. rewrite Hkids.
      apply elem_of_app. by left.
    + exists pn, b. split; [| done]. rewrite Hold; [done | | done].
      by eapply lookup_lt_Some.
Qed.
End VisitSums.

Section VisitCredit.
Context {State Action : Type} `{EqDecision Action}.
Variable board : Board State Action.
Hypothesis Hnodup : forall s, NoDup (legal_actions board s).
Implicit Types (h : heap Action) (sts : list State) (n : MCTSNode Action).

(** In a chain of parents every node is followed by its parent, and by
    nothing else. *)
Lemma ancestry_lookup_succ h x (l : list nat) :
  ancestry h x l ->
  forall k c, l !! k = Some c ->
    exists cn, h !! c = Some cn
      /\ (forall p, parent cn = Some p <-> l !! S k = Some p).
Proof.
  induction 1 as [i n Hn Hp | i n p l Hn Hp Hl IH]; intros k c Hk.
  - destruct k as [| k]; [| done]. injection Hk as <-.
    exists n. split; [done |]. intros p. rewrite Hp. by split.
  - destruct k as [| k].
    + injection Hk as <-. exists n. split; [done |]. intros q. rewrite Hp.
      pose proof (ancestry_head h p l Hl) as Hhead.
      destruct l as [| p' l]; [by apply elem_of_nil in Hhead |].
      assert (p' = p) as ->.
      { destruct (ancestry_cons_inv h p p' l Hl) as [-> _]. done. }
      simpl. split; congruence.
    + simpl in Hk. destruct (IH k c Hk) as (cn & Hcn & Hiff). by exists cn.
Qed.

Lemma child_visits_credit h h' (l : list nat) (w : R)
    (items : list (Action * nat)) :
  (forall a c, (a, c) ∈ items -> is_Some (h !! c)) ->
  (forall j n, h !! j = Some n ->
     h' !! j = Some (if decide (j ∈ l) then credit w n else n)) ->
  child_visits h' items
  = (child_visits h items + length (filter (fun ac => ac.2 ∈ l) items))%nat.
Proof.
  intros Hvalid Hall. unfold child_visits.
  induction items as [| [a c] items IH]; [done |].
  destruct (Hvalid a c ltac:(left)) as [cn Hcn].
  simpl. rewrite IH by (intros a' c' Hin; apply (Hvalid a' c'); by right).
  unfold visits_of at 1 3. rewrite (Hall c cn Hcn), Hcn.
  rewrite filter_cons. simpl.
  destruct (decide (c ∈ l)); simpl; lia.
Qed.

Lemma filter_none {A : Type} (P : A -> Prop) `{forall x, Decision (P x)}
    (L : list A) :
  (forall y, y ∈ L -> ~ P y) -> filter P L = [].
Proof.
  induction L as [| y L IH]; intros Hall; [done |].
  rewrite filter_cons, decide_False by (apply Hall; by left).
  apply IH. intros z Hz. apply Hall. by right.
Qed.

Lemma length_all_equal {A : Type} (L : list A) (x : A) :
  NoDup L -> x ∈ L -> (forall y, y ∈ L -> y = x) -> length L = 1%nat.
Proof.
  intros Hnd Hx Hall. destruct L as [| y [| z L]].
  - by apply elem_of_nil in Hx.
  - done.
  - exfalso. assert (y = x) as -> by (apply Hall; by left).
    assert (z = x) as -> by (apply Hall; right; by left).
    apply NoDup_cons in Hnd as [Hnin _]. apply Hnin. by left.
Qed.

(** Crediting a chain of parents keeps the account of visits: the chain
    starts at the pending node, or at a node of an ended state. *)
Lemma visit_inv_credit h sts (root : nat) (pending : option nat) (x : nat)
    (l : list nat) (w : R) h' :
  tree_inv board h sts ->
  visit_inv board h sts root pending -> registered h ->
  ancestry h x l ->
  (pending = Some x /\ x <> root)
  \/ (pending = None
      /\ exists s, sts !! x = Some s /\ is_ended board s = true) ->
  length h' = length h ->
  (forall j n, h !! j = Some n ->
     h' !! j = Some (if decide (j ∈ l) then credit w n else n)) ->
  visit_inv board h' sts root None /\ registered h'.
Proof.
  intros Hinv Hvis Hreg Hl Hstart Hlen' Hall.
  pose proof Hinv as [Hlen Hnodes].
  pose proof (ancestry_NoDup h x l Hl) as Hnd.
  assert (Hback : forall j n', h' !! j = Some n' ->
            exists n, h !! j = Some n
              /\ n' = (if decide (j ∈ l) then credit w n else n)).
  { intros j n' Hj.
    assert (Hjlt : (j < length h)%nat)
      by (rewrite <- Hlen'; by eapply lookup_lt_Some).
    destruct (lookup_lt_is_Some_2 h j Hjlt) as [n Hn].
    exists n. split; [done |]. rewrite (Hall j n Hn) in Hj. by injection Hj. }
  split.
  - intros i n' s Hi Hs. rewrite decide_False by done.
    destruct (Hback i n' Hi) as (n & Hn & ->).
    pose proof (Hvis i n s Hn Hs) as Hacc.
    destruct (Hnodes i n s Hn Hs) as (_ & Hkids & _).
    assert (Hsame : child_nodes (if decide (i ∈ l) then credit w n else n)
                    = child_nodes n) by (by destruct (decide (i ∈ l))).
    rewrite Hsame.
    destruct (decide (i = x)) as [-> | Hne].
    { rewrite decide_True by (by eapply ancestry_head).
      destruct Hstart as [[-> Hxroot] | (-> & s' & Hs' & Hend)].
      - rewrite decide_True in Hacc by done. destruct Hacc as [Hv Hc].
        rewrite Hc. destruct (is_ended board s); [done |].
        rewrite decide_False by done. simpl. by rewrite Hv.
      - rewrite decide_False in Hacc by done.
        rewrite Hs in Hs'. injection Hs' as <-. by rewrite Hend in *. }
    assert (Hnot : pending <> Some i).
    { destruct Hstart as [[-> _] | [-> _]]; [by intros [= ->] | done]. }
    rewrite decide_False in Hacc by done.
    destruct (is_ended board s); [done |].
    rewrite (child_visits_credit h h' l w (child_nodes n)); try done.
    2: { intros a c Hin. destruct (Hkids a c Hin) as (_ & cn & Hc & _).
         by exists cn. }
    destruct (decide (i ∈ l)) as [Hil | Hil].
    + (* on the chain: the node before it is its only child there *)
      apply list_elem_of_lookup_1 in Hil as [m Hm].
      destruct m as [| m].
      { exfalso. apply Hne.
        pose proof (ancestry_head h x l Hl) as Hhead.
        destruct l as [| x' l']; [done |].
        destruct (ancestry_cons_inv h x x' l' Hl) as [-> _].
        by injection Hm. }
      destruct (lookup_lt_is_Some_2 l m) as [c0 Hc0];
        [apply lookup_lt_Some in Hm; lia |].
      destruct (ancestry_lookup_succ h x l Hl m c0 Hc0) as (cn0 & Hcn0 & Hsucc).
      apply Hsucc in Hm as Hp0.
      destruct (Hreg c0 cn0 i Hcn0 Hp0) as (pn & a0 & Hpn & Hin0).
      rewrite Hn in Hpn. injection Hpn as <-.
      assert (Hone : length (filter (fun ac => ac.2 ∈ l) (child_nodes n))
                     = 1%nat).
      { apply (length_all_equal _ (a0, c0)).
        - apply NoDup_filter.
          destruct (tree_inv_counts board Hnodup h sts i n s Hinv Hn Hs)
            as (_ & Hk & _).
          by eapply NoDup_fmap_1.
        - apply list_elem_of_filter. split; [| done]. simpl.
          by eapply list_elem_of_lookup_2.
        - intros [b c] [Hcl Hin]%list_elem_of_filter. simpl in Hcl.
          destruct (Hkids b c Hin) as (_ & cn & Hcn & Hpc & Hac & _).
          apply list_elem_of_lookup_1 in Hcl as [k Hk].
          destruct (ancestry_lookup_succ h x l Hl k c Hk) as (cn' & Hcn' & Hsucc').
          rewrite Hcn in Hcn'. injection Hcn' as <-.
          apply Hsucc' in Hpc.
          assert (S k = S m) by (by eapply NoDup_lookup).
          assert (k = m) as -> by lia.
          rewrite Hc0 in Hk. injection Hk as <-.
          destruct (Hkids a0 c0 Hin0) as (_ & cn0' & Hcn0' & _ & Hac0 & _).
          rewrite Hcn in Hcn0'. injection Hcn0' as <-.
          rewrite Hac in Hac0. by injection Hac0 as ->. }
      rewrite Hone. simpl. lia.
    + (* off the chain: none of its children is there *)
      assert (Hnone : filter (fun ac => ac.2 ∈ l) (child_nodes n) = []).
      { apply filter_none. intros [b c] Hin Hcl. simpl in Hcl. apply Hil.
        destruct (Hkids b c Hin) as (_ & cn & Hcn & Hpc & _).
        by eapply ancestry_parent_closed. }
      rewrite Hnone. simpl. lia.
  - intros c cn' p Hc Hp.
    destruct (Hback c cn' Hc) as (cn & Hcn & ->).
    assert (Hp' : parent cn = Some p) by (by destruct (decide (c ∈ l))).
    destruct (Hreg c cn p Hcn Hp') as (pn & a & Hpn & Hin).
    eexists _, a. split; [by apply Hall |]. by destruct (decide (p ∈ l)).
Qed.
End VisitCredit.

Section IterationVisits.
Context {State Action : Type} `{EqDecision Action}.
Variable board : Board State Action.
Variable select : heap Action -> MCTSNode Action -> Z -> result (nat * Action).
Variable rollout : State -> rng -> result (State * rng).
Variable outcome : State -> Z -> result R.
Variables (fuel : nat) (identity : Z).
Hypothesis select_in : forall h n identity c a,
  select h n identity = Ok (c, a) ->
  exists a0 cn, (a0, c) ∈ child_nodes n /\ h !! c = Some cn
                /\ parent_action cn = Some a.
Hypothesis Hnodup : forall s, NoDup (legal_actions board s).
Implicit Types (h : heap Action) (sts : list State) (n : MCTSNode Action).

Lemma backpropagate_ok_credit h (x : nat) (w : R) h' :
  backpropagate fuel h (Some x) w = Ok h' ->
  exists l, ancestry h x l /\ length h' = length h
    /\ forall j n, h !! j = Some n ->
         h' !! j = Some (if decide (j ∈ l) then credit w n else n).
Proof.
  intros Hrun.
  destruct (backpropagate_ok_ancestry fuel h x w h' Hrun) as (l & Hl & Hfuel).
  destruct (backpropagate_chain l h x w fuel Hl (ancestry_NoDup h x l Hl) Hfuel)
    as (h2 & Hrun2 & Hlen & Hall).
  rewrite Hrun in Hrun2. injection Hrun2 as <-. by exists l.
Qed.

Lemma iteration_visit_sums h sts (root : nat) (state : State) (r : rng) h' r' :
  tree_inv board h sts ->
  sts !! root = Some state -> (root < length h)%nat ->
  visit_inv board h sts root None -> registered h ->
  iteration_with board (descend_with board select fuel) rollout outcome
    fuel h root state identity r = Ok (h', r') ->
  exists sts', tree_inv board h' (sts ++ sts')
    /\ visit_inv board h' (sts ++ sts') root None
    /\ registered h' /\ (length h <= length h')%nat.
Proof.
  intros Hinv Hs Hroot Hvis Hreg. unfold iteration_with, simulate.
  destruct (descend_with board select fuel h root state identity)
    as [[node cs] |] eqn:Hrun; cbn [mbind result_bind]; [| done].
  destruct (descend_sound board select select_in h sts identity Hinv fuel
              root state node cs Hs Hrun) as (Hcs & nd & Hnd & Hstop).
  pose proof Hinv as [Hlen _].
  destruct (is_ended board cs) eqn:Hend; cbn [negb mbind result_bind].
  - destruct (rollout cs r) as [[fs r2] |]; cbn [mbind result_bind]; [| done].
    destruct (outcome fs identity) as [w |]; cbn [mbind result_bind]; [| done].
    destruct (backpropagate fuel h (Some node) w) as [h2 |] eqn:Hbp;
      cbn [mbind result_bind]; [| done].
    intros [= <- <-].
    destruct (backpropagate_ok_credit h node w h2 Hbp) as (l & Hl & Hlen2 & Hall).
    exists []. rewrite app_nil_r.
    split; [by eapply tree_inv_credit |].
    destruct (visit_inv_credit board Hnodup h sts root None node l w h2)
      as [Hvis2 Hreg2]; try done.
    { right. split; [done |]. by exists cs. }
    split; [done |]. split; [done | lia].
  - destruct Hstop as [? | Hun]; [done |].
    destruct (expand_leaf board h node cs r) as [[[[h1 node1] cs1] r1] |] eqn:Hex;
      cbn [mbind result_bind]; [| done].
    destruct (rollout cs1 r1) as [[fs r2] |]; cbn [mbind result_bind]; [| done].
    destruct (outcome fs identity) as [w |]; cbn [mbind result_bind]; [| done].
    destruct (backpropagate fuel h1 (Some node1) w) as [h2 |] eqn:Hbp;
      cbn [mbind result_bind]; [| done].
    intros [= <- <-].
    destruct (tree_inv_expand board Hnodup h sts node cs r h1 node1 cs1 r1
                Hinv ltac:(by eexists) Hcs Hex) as (sts' & Hinv1 & _ & Hcs1).
    destruct (expand_leaf_cases board h node nd cs r h1 node1 cs1 r1 Hnd Hex)
      as [(_ & _ & _ & [? | ?]) | (_ & a & Ha & -> & -> & Hh1)];
      [congruence | done |].
    assert (Hlen1 : length h1 = S (length h)).
    { rewrite Hh1, length_app, length_insert. simpl. lia. }
    assert (Hsts' : sts' = [next_state board cs a]).
    { destruct Hinv1 as [Hl1 _]. rewrite length_app, Hlen1, Hlen in Hl1.
      destruct sts' as [| x [| y sts']]; simpl in Hl1; try lia.
      rewrite lookup_app_r in Hcs1 by lia.
      rewrite Hlen, Nat.sub_diag in Hcs1. by injection Hcs1 as ->. }
    subst sts'.
    destruct (visit_inv_expand board Hnodup h sts root node nd cs a
                Hinv Hvis Hreg Hroot Hnd Hcs Hend Ha) as [Hvis1 Hreg1].
    rewrite <- Hh1 in Hvis1, Hreg1.
    destruct (backpropagate_ok_credit h1 (length h) w h2 Hbp)
      as (l & Hl & Hlen2 & Hall).
    exists [next_state board cs a].
    split; [by eapply tree_inv_credit |].
    destruct (visit_inv_credit board Hnodup h1 (sts ++ [next_state board cs a])
                root (Some (length h)) (length h) l w h2)
      as [Hvis2 Hreg2]; try done.
    { left. split; [done | lia]. }
    split; [done |]. split; [done | lia].
Qed.
End IterationVisits.

Section LoopVisits.
Context {State Action : Type} `{EqDecision Action}.
Variable board : Board State Action.
Hypothesis Hnodup : forall s, NoDup (legal_actions board s).
Variable iteration : heap Action -> rng -> result (heap Action * rng).
Variables (root : nat) (state : State).

Hypothesis Hiteration : forall h sts r h' r',
  tree_inv board h sts ->
  sts !! root = Some state -> (root < length h)%nat ->
  visit_inv board h sts root None -> registered h ->
  iteration h r = Ok (h', r') ->
  exists sts', tree_inv board h' (sts ++ sts')
    /\ visit_inv board h' (sts ++ sts') root None
    /\ registered h' /\ (length h <= length h')%nat.

Lemma loop_visit_sums (num_nodes : nat) :
  forall h sts r h' r',
    tree_inv board h sts ->
    sts !! root = Some state -> (root < length h)%nat ->
    visit_inv board h sts root None -> registered h ->
    loop_with iteration num_nodes h r = Ok (h', r') ->
    exists sts', tree_inv board h' (sts ++ sts')
      /\ visit_inv board h' (sts ++ sts') root None.
Proof.
  induction num_nodes as [| k IH]; intros h sts r h' r' Hinv Hs Hroot Hvis Hreg;
    simpl.
  - intros [= <- <-]. exists []. by rewrite app_nil_r.
  - destruct (iteration h r) as [[h1 r1] |] eqn:Hit; cbn [mbind result_bind];
      [| done].
    intros Hloop.
    destruct (Hiteration h sts r h1 r1 Hinv Hs Hroot Hvis Hreg Hit)
      as (sts1 & Hinv1 & Hvis1 & Hreg1 & Hlen1).
    destruct (IH h1 (sts ++ sts1) r1 h' r' Hinv1
                ltac:(by apply lookup_app_l_Some) ltac:(lia) Hvis1 Hreg1 Hloop)
      as (sts2 & Hinv2 & Hvis2).
    exists (sts1 ++ sts2). by rewrite app_assoc.
Qed.
End LoopVisits.

Lemma think_visit_sums_aux {State Action : Type} `{EqDecision Action}
    (board : Board State Action) (fuel num_nodes : nat) (state : State)
    (r : rng) (h : heap Action) (r' : rng) :
  (forall s, NoDup (legal_actions board s)) ->
  let root := new_node None None (legal_actions board state) in
  let identity := current_player board state in
  Vanilla.think_loop board fuel num_nodes [root] O state identity r
    = Ok (h, r')
  \/ Modified.think_loop board fuel num_nodes [root] O state identity r
    = Ok (h, r') ->
  exists sts, tree_inv board h ([state] ++ sts)
    /\ visit_inv board h ([state] ++ sts) O None.
Proof.
  intros Hnodup root identity Hrun.
  destruct (fresh_visit_inv board state) as [Hvis0 Hreg0].
  destruct Hrun as [Hrun | Hrun].
  - rewrite vanilla_loop_with in Hrun.
    eapply (loop_visit_sums board _ O state); [| | | | | | exact Hrun];
      [| apply fresh_root_inv | done | simpl; lia | done | done].
    intros h0 sts0 r0 h1 r1 Hinv Hs Hroot Hvis Hreg Hit.
    eapply (iteration_visit_sums board Vanilla.select_child); try done;
      first [exact Hit | intros; by eapply vanilla_select_child_in].
  - rewrite modified_loop_with in Hrun.
    eapply (loop_visit_sums board _ O state); [| | | | | | exact Hrun];
      [| apply fresh_root_inv | done | simpl; lia | done | done].
    intros h0 sts0 r0 h1 r1 Hinv Hs Hroot Hvis Hreg Hit.
    eapply (iteration_visit_sums board (Modified.select_child board));
      try done;
      first [exact Hit | intros; by eapply modified_select_child_in].
Qed.

(** X19.  The account of visits in the tree [think] builds, in either
    file, on a board that lists legal actions without duplicates: a
    node created for an ended state has no child; at a state where the
    game goes on, the visits of the root are the sum of its children's
    visits, and the visits of any other node that sum and one more. *)
Theorem think_visit_account {State Action : Type} `{EqDecision Action}
    (board : Board State Action) (fuel num_nodes : nat) (state : State)
    (r : rng) (h : heap Action) (r' : rng) :
  (forall s, NoDup (legal_actions board s)) ->
  let root := new_node None None (legal_actions board state) in
  let identity := current_player board state in
  Vanilla.think_loop board fuel num_nodes [root] O state identity r
    = Ok (h, r')
  \/ Modified.think_loop board fuel num_nodes [root] O state identity r
    = Ok (h, r') ->
  exists sts, tree_inv board h ([state] ++ sts)
    /\ forall i n s, h !! i = Some n -> ([state] ++ sts) !! i = Some s ->
         if is_ended board s then child_nodes n = []
         else visits n
              = ((if decide (i = O) then 0 else 1)
                 + child_visits h (child_nodes n))%nat.
Proof.
  intros Hnodup root identity Hrun.
  destruct (think_visit_sums_aux board fuel num_nodes state r h r' Hnodup Hrun)
    as (sts & Hinv & Hvis).
  exists sts. split; [done |]. intros i n s Hi Hs.
  specialize (Hvis i n s Hi Hs). by rewrite decide_False in Hvis.
Qed.

Lemma think_visit_account_witness :
  exists sts, tree_inv toy toy_tree ([O] ++ sts)
    /\ forall i n s, toy_tree !! i = Some n -> ([O] ++ sts) !! i = Some s ->
         if is_ended toy s then child_nodes n = []
         else visits n
              = ((if decide (i = O) then 0 else 1)
                 + child_visits toy_tree (child_nodes n))%nat.
Proof.
  apply (think_visit_account toy 3 3 O zero_rng toy_tree zero_rng
           toy_legal_NoDup).
  right. vm_compute. reflexivity.
Defined.
